(** * dxfapi: a shallow embedding of the DXF normalisation pipeline

    The development follows [dxfapi.py] section by section: layers,
    utilities (explode), blocks (the deletion-order resolver and the purge),
    logos and export, the per-document pipeline of [adjust_layer] and the
    revision-cloud reconstruction.  The [ezdxf] document model and the Python
    runtime are collaborators of that module; what the module only consumes
    from them is gathered in the classes [Unicode], [Collaborators] and
    [ExportCollaborators]. *)

From Stdlib Require Import ZArith QArith Qround Lia Ascii String.
From Stdlib Require SpecFloat.
From stdpp Require Import base option list sorting gmap strings relations pretty.

Close Scope Q_scope.
Open Scope string_scope.
Open Scope list_scope.

(** ** Outcomes of Python code

    An exception ends the computation with [Raise]; a loop that never ends is
    [Diverge].  [DXFValueError] is the error of [ezdxf]; it is not a
    [ValueError]. *)

Inductive exn : Set :=
  ValueError | TypeError | KeyError | IndexError | OverflowError | DXFValueError.

Inductive outcome (A : Type) : Type :=
  | Ret (a : A)
  | Raise (e : exn)
  | Diverge.

Arguments Ret {A} a.
Arguments Raise {A} e.
Arguments Diverge {A}.

Definition bind {A B : Type} (m : outcome A) (k : A -> outcome B) : outcome B :=
  match m with
  | Ret a => k a
  | Raise e => Raise e
  | Diverge => Diverge
  end.

Declare Scope outcome_scope.
Delimit Scope outcome_scope with outcome.
Notation "'do' x <- m ; k" := (bind m (fun x => k))
  (at level 10, x name, m at level 100, k at level 200,
   format "'[v' 'do'  x  <-  m ; '/' k ']'") : outcome_scope.
Open Scope outcome_scope.

(** [for x in l: body] over a state that the body updates or raises from. *)
Fixpoint for_each {S A : Type} (body : A -> S -> outcome S) (l : list A) (s : S)
    : outcome S :=
  match l with
  | [] => Ret s
  | x :: l' => do s' <- body x s; for_each body l' s'
  end.

(** [for x in l: body] where the body changes [x] in place or raises. *)
Fixpoint for_each_in_place {A : Type} (body : A -> outcome A) (l : list A)
    : outcome (list A) :=
  match l with
  | [] => Ret []
  | x :: l' => do y <- body x; do l'' <- for_each_in_place body l'; Ret (y :: l'')
  end.

(** ** Python strings

    A [str] is kept as the bytes of its UTF-8 encoding.  Comparing two
    strings, and looking for an ASCII prefix or suffix, can be done on the
    bytes; what goes by character is done on [chars]. *)

Definition ascii_upper (c : ascii) : ascii :=
  let n := Ascii.N_of_ascii c in
  if ((97 <=? n) && (n <=? 122))%N then Ascii.ascii_of_N (n - 32) else c.

Definition ascii_lower (c : ascii) : ascii :=
  let n := Ascii.N_of_ascii c in
  if ((65 <=? n) && (n <=? 90))%N then Ascii.ascii_of_N (n + 32) else c.

Fixpoint str_map (f : ascii -> ascii) (s : string) : string :=
  match s with
  | EmptyString => EmptyString
  | String c s' => String (f c) (str_map f s')
  end.

Definition upper : string -> string := str_map ascii_upper.
Definition lower : string -> string := str_map ascii_lower.

(** Lower case of lower case is lower case, which makes [lower] a key of
    tables. *)
Lemma ascii_lower_idempotent (c : ascii) : ascii_lower (ascii_lower c) = ascii_lower c.
Proof. by destruct c as [[] [] [] [] [] [] [] []]. Qed.

Lemma lower_idempotent (s : string) : lower (lower s) = lower s.
Proof.
  induction s as [|c s IH]; [done|].
  change (String (ascii_lower (ascii_lower c)) (lower (lower s))
          = String (ascii_lower c) (lower s)).
  by rewrite ascii_lower_idempotent, IH.
Qed.

Definition startswith (s p : string) : bool := String.prefix p s.

Definition endswith (s p : string) : bool :=
  String.prefix (String.rev p) (String.rev s).

(** A byte [10xxxxxx] continues the character that the bytes before it
    started. *)
Definition is_continuation (c : ascii) : bool :=
  let n := Ascii.N_of_ascii c in ((128 <=? n) && (n <=? 191))%N.

Definition chars_step (c : ascii) (st : list ascii * list (list ascii))
    : list ascii * list (list ascii) :=
  if is_continuation c then (c :: st.1, st.2) else ([], (c :: st.1) :: st.2).

(** The characters of a string, each as the bytes that encode it. *)
Definition chars (s : string) : list (list ascii) :=
  (foldr chars_step ([], []) (String.list_ascii_of_string s)).2.

(** [len(s)]: the number of characters. *)
Definition len (s : string) : nat := length (chars s).

(** What the module consumes from the Unicode database of the runtime. *)
Class Unicode : Type := {
  (** the value of a character outside ASCII, given by its bytes, when it is
      a decimal digit; [None] for every other character *)
  unicode_decimal : list ascii -> option N
}.

(** The value of a character that [\d] matches, which are the decimal digits
    of all scripts; [int] reads the same characters. *)
Definition decimal `{Unicode} (ch : list ascii) : option N :=
  match ch with
  | [c] =>
      let n := Ascii.N_of_ascii c in
      if ((48 <=? n) && (n <=? 57))%N then Some (n - 48)%N else None
  | _ => unicode_decimal ch
  end.

Definition is_digit `{Unicode} (ch : list ascii) : bool :=
  match decimal ch with
  | Some _ => true
  | None => false
  end.

(** [int(ds)] on a run of decimal digits, most significant digit first. *)
Definition int_of_digits `{Unicode} (ds : list (list ascii)) : N :=
  foldl (fun acc ch => (10 * acc + default 0 (decimal ch))%N) 0%N ds.

(** ** Python numbers

    A [float] is an IEEE 754 binary64 number; a product or a quotient is the
    exact one rounded to the nearest float, a tie going to the even one. *)

Definition float : Type := SpecFloat.spec_float.

Definition float_mul : float -> float -> float := SpecFloat.SFmul 53 1024.

(** An [int] as the operand of a float operation; it is the operation that
    rounds. *)
Definition float_of_int (z : Z) : float :=
  match z with
  | Z0 => SpecFloat.S754_zero false
  | Zpos m => SpecFloat.S754_finite false m 0
  | Zneg m => SpecFloat.S754_finite true m 0
  end.

(** [a / b] on two ints, [b] positive. *)
Definition int_truediv (a : Z) (b : positive) : outcome float :=
  match SpecFloat.SFdiv 53 1024 (float_of_int a) (float_of_int (Z.pos b)) with
  | SpecFloat.S754_infinity _ => Raise OverflowError
  | q => Ret q
  end.

(** [int(x)] on a float: the fraction is dropped. *)
Definition py_int (x : float) : outcome Z :=
  match x with
  | SpecFloat.S754_zero _ => Ret 0%Z
  | SpecFloat.S754_finite s m e => Ret (SpecFloat.cond_Zopp s (Z.shiftl (Z.pos m) e))
  | SpecFloat.S754_infinity _ => Raise OverflowError
  | SpecFloat.S754_nan => Raise ValueError
  end.

(** ** [sorted(l, key=...)]

    Python's [sorted] is stable.  [earlier k1 k2] says that key [k1] sorts
    strictly before key [k2]; with [reverse=True] the comparison is flipped and
    elements with equal keys still keep their original order. *)

Section Sorted.
Context {A K : Type} (key : A -> K) (earlier : K -> K -> bool).

Fixpoint insert_stable (x : A) (l : list A) : list A :=
  match l with
  | [] => [x]
  | y :: l' =>
      if earlier (key y) (key x) then y :: insert_stable x l' else x :: l
  end.

Definition sorted (l : list A) : list A := foldr insert_stable [] l.
End Sorted.

(** ** The document model, as far as [dxfapi.py] reads and writes it *)

Definition vertex : Type := Q * Q.

Record entity : Type := Entity {
  dxf_handle : N;
  dxftype : string;
  dxf_layer : string;
  dxf_color : Z;
  dxf_lineweight : Z;
  dxf_linetype : string;
  dxf_name : string;          (* the block an INSERT instantiates *)
  is_closed : bool;           (* LWPOLYLINE *)
  vertices : list vertex      (* LWPOLYLINE *)
}.

Record layer : Type := Layer {
  layer_name : string;
  layer_color : Z;
  layer_lineweight : Z
}.

(** [None] in [lt_pattern], [lt_description] and [style_font] is an attribute
    the definition does not have ([hasattr] is false). *)
Record linetype : Type := Linetype {
  lt_name : string;
  lt_pattern : option (list Q);
  lt_description : option string
}.

Record text_style : Type := TextStyle {
  style_name : string;
  style_font : option string
}.

(** The tables hold their entries in the order they were added, each with
    its name as it was given. *)
Record document : Type := Document {
  layers : list layer;
  blocks : list (string * list entity);
  linetypes : list linetype;
  styles : list text_style;
  modelspace : list entity
}.

Definition set_layer (l : string) (e : entity) : entity :=
  Entity (dxf_handle e) (dxftype e) l (dxf_color e) (dxf_lineweight e)
         (dxf_linetype e) (dxf_name e) (is_closed e) (vertices e).

Definition set_style (c lw : Z) (lt : string) (e : entity) : entity :=
  Entity (dxf_handle e) (dxftype e) (dxf_layer e) c lw lt
         (dxf_name e) (is_closed e) (vertices e).

Definition set_layers (ls : list layer) (d : document) : document :=
  Document ls (blocks d) (linetypes d) (styles d) (modelspace d).

Definition set_linetypes (lts : list linetype) (d : document) : document :=
  Document (layers d) (blocks d) lts (styles d) (modelspace d).

Definition set_styles (ss : list text_style) (d : document) : document :=
  Document (layers d) (blocks d) (linetypes d) ss (modelspace d).

Definition set_modelspace (msp : list entity) (d : document) : document :=
  Document (layers d) (blocks d) (linetypes d) (styles d) msp.

(** [msp.delete_entity(entity)]: entities are told apart by their handle. *)
Definition delete_entity (e : entity) (msp : list entity) : list entity :=
  filter (fun x => dxf_handle x <> dxf_handle e) msp.

(** [name in l] for a Python list of names. *)
Definition name_in (n : string) (l : list string) : bool := bool_decide (n ∈ l).

(** A Python [dict] with string keys: the keys stay in insertion order, which
    is the order a [for] loop over the dict visits them in. *)
Definition dict (V : Type) : Type := list (string * V).

Fixpoint dict_get {V : Type} (d : dict V) (k : string) : option V :=
  match d with
  | [] => None
  | (k', v) :: d' => if decide (k' = k) then Some v else dict_get d' k
  end.

Definition dict_keys {V : Type} (d : dict V) : list string := map fst d.

(** [d[k] = v]: a key already present keeps its place. *)
Fixpoint dict_set {V : Type} (d : dict V) (k : string) (v : V) : dict V :=
  match d with
  | [] => [(k, v)]
  | (k', v') :: d' =>
      if decide (k' = k) then (k, v) :: d' else (k', v') :: dict_set d' k v
  end.

(** The value stored under [k] is changed in place by [f]. *)
Fixpoint dict_update {V : Type} (d : dict V) (k : string) (f : V -> V) : dict V :=
  match d with
  | [] => []
  | (k', v) :: d' =>
      if decide (k' = k) then (k', f v) :: d' else (k', v) :: dict_update d' k f
  end.

(** ** What the module consumes from its collaborators

    These are calls into [ezdxf] and the Python runtime whose results the
    module does not determine. *)

Class Collaborators : Type := {
  (** the order in which a [for] loop visits a Python [set] of names *)
  set_iter : gset string -> list string;
  (** [entity.explode()] on an INSERT: the entities it adds to the space *)
  explode : entity -> list entity;
  (** the key under which a table of [ezdxf] (layers, blocks, line types,
      text styles) holds the entry of a name: [name.lower()] *)
  table_key : string -> string;
  (** the key of a key is that key, as lower case of lower case is *)
  table_key_idempotent : forall name, table_key (table_key name) = table_key name;
  (** [doc.blocks.delete_block(name)]; [None] when it raises *)
  delete_block : document -> string -> option document;
  (** [entity.copy()] followed by [add_entity]: the entity as it arrives in
      the target space; [None] when either call raises *)
  copy_entity : entity -> option entity;
  (** [doc.layers.add(name=..., color=...)] for a name the table does not
      have: the layer it makes, or what it raises *)
  layers_add : string -> Z -> outcome layer;
  (** the layer it makes has the name it was given *)
  layers_add_name :
    forall name color created, layers_add name color = Ret created -> layer_name created = name;
  (** [layer.dxf.lineweight = v]: the value the attribute holds afterwards *)
  lineweight_setter : Z -> Z;
  (** [doc.linetypes.add(name)], called with the name alone *)
  linetypes_add : string -> outcome linetype;
  (** [ezdxf.revcloud.add_entity(msp, vertices, arc_radius)]: the new entity *)
  revcloud_add_entity : list entity -> list vertex -> Q -> outcome entity
}.

(** [name in table] for a table of [ezdxf] with the entries [names]: an entry
    is found by its key. *)
Definition in_table `{Collaborators} (name : string) (names : list string) : bool :=
  name_in (table_key name) (map table_key names).

(** ** LAYERS *)

Definition list_current_layers (doc : document) : list string :=
  map layer_name (layers doc).

Definition create_layer `{Collaborators} (doc : document) (dest_layer : string)
    (dest_color : Z) : outcome document :=
  if in_table dest_layer (map layer_name (layers doc)) then Ret doc
  else
    do created <- layers_add dest_layer dest_color;
    Ret (set_layers (layers doc ++ [created]) doc).

Definition change_lineweight `{Collaborators} (doc : document) (dest_layer : string)
    (dest_lineweight : float) : outcome document :=
  do ls <- for_each_in_place
             (fun layer =>
                if decide (layer_name layer = dest_layer) then
                  do lineweight <- py_int (float_mul dest_lineweight (float_of_int 10));
                  Ret (Layer (layer_name layer) (layer_color layer)
                             (lineweight_setter lineweight))
                else Ret layer)
             (layers doc);
  Ret (set_layers ls doc).

(** [doc.layers.remove(layer)], for the name of a layer of the table. *)
Definition layers_remove (name : string) (doc : document) : document :=
  set_layers (filter (fun l => layer_name l <> name) (layers doc)) doc.

Definition remove_unused_layers (doc : document) : document :=
  let all_layers := map layer_name (layers doc) in
  let used_layers := map dxf_layer (modelspace doc) in
  let used_layers :=
    if name_in "Defpoints" used_layers then used_layers
    else used_layers ++ ["Defpoints"] in
  let used_layers :=
    if name_in "0" used_layers then used_layers else used_layers ++ ["0"] in
  let unused := filter (fun l => negb (name_in l used_layers)) all_layers in
  foldl (fun d l => layers_remove l d) doc unused.

Definition change_layer (msp : list entity) (layer dest_layer : string)
    : list entity :=
  map (fun e => if decide (dxf_layer e = layer) then set_layer dest_layer e else e)
      msp.

(** ** UTILITIES *)

Definition is_insert (e : entity) : bool := bool_decide (dxftype e = "INSERT").

(** One run of the [for] loop of [explode_drawing] over a snapshot of the
    space. *)
Definition explode_pass `{Collaborators} (msp : list entity) : list entity :=
  foldl (fun m e => if is_insert e then delete_entity e (m ++ explode e) else m)
        msp msp.

(** The [while] loop; [fuel] bounds the number of runs. *)
Fixpoint explode_drawing `{Collaborators} (fuel : nat) (msp : list entity)
    : outcome (list entity) :=
  if existsb is_insert msp then
    match fuel with
    | O => Diverge
    | S fuel' => explode_drawing fuel' (explode_pass msp)
    end
  else Ret msp.

(** ** BLOCKS *)

(** The block table as [ezdxf] keeps it: every definition under the key of
    its name. *)
Definition block_table `{Collaborators} (doc : document) : dict (list entity) :=
  map (fun b => (table_key b.1, b.2)) (blocks doc).

(** [doc.blocks.block_names()]: the keys of the table. *)
Definition block_names `{Collaborators} (doc : document) : list string :=
  dict_keys (block_table doc).

(** [doc.blocks.get(name)] *)
Definition blocks_get `{Collaborators} (doc : document) (name : string)
    : option (list entity) :=
  dict_get (block_table doc) (table_key name).

Definition get_removable_blocks `{Collaborators} (doc : document) : list string :=
  filter (fun block_name =>
            negb (startswith (upper block_name) "*MODEL_SPACE"
                  || startswith (upper block_name) "*PAPER_SPACE"))
         (block_names doc).

(** The dependency graph of [get_deletion_order]. *)
Definition graph : Type := dict (gset string).

Definition graph_init (removable : list string) : graph :=
  foldl (fun g block => dict_set g block ∅) [] removable.

Definition graph_add_refs (block : string) (block_def : list entity) (g : graph)
    : graph :=
  foldl (fun g ent =>
           if is_insert ent then
             let referenced := dxf_name ent in
             if name_in referenced (dict_keys g)
             then dict_update g block (fun s => s ∪ {[referenced]})
             else g
           else g)
        g block_def.

(** Iterating over [doc.blocks.get(block)] raises a [TypeError] when the block
    is missing and [get] returns [None]. *)
Definition build_graph `{Collaborators} (doc : document) (removable : list string)
    : outcome graph :=
  for_each (fun block g =>
              match blocks_get doc block with
              | None => Raise TypeError
              | Some block_def => Ret (graph_add_refs block block_def g)
              end)
           removable (graph_init removable).

(** The traversal state: [visited] (1: visiting, 2: visited) and [order]. *)
Record dfs_state : Type := DfsState {
  visited : gmap string nat;
  order : list string
}.

(** The nested function [dfs]; [fuel] bounds the depth of the recursion. *)
Fixpoint dfs `{Collaborators} (g : graph) (fuel : nat) (node : string)
    (st : dfs_state) : outcome dfs_state :=
  match fuel with
  | O => Diverge
  | S fuel' =>
      match visited st !! node with
      | Some c => if decide (c = 1) then Raise ValueError else Ret st
      | None =>
          let st := DfsState (<[node := 1]> (visited st)) (order st) in
          match dict_get g node with
          | None => Raise KeyError
          | Some neighbors =>
              do st <- for_each (dfs g fuel') (set_iter neighbors) st;
              Ret (DfsState (<[node := 2]> (visited st)) (order st ++ [node]))
          end
      end
  end.

(** No chain of calls of [dfs] is longer than the number of nodes, each call
    down the chain having marked one more node. *)
Definition dfs_fuel (g : graph) : nat := S (length g).

(** The body of the loop [for node in graph]. *)
Definition visit_unvisited `{Collaborators} (g : graph) (node : string)
    (st : dfs_state) : outcome dfs_state :=
  match visited st !! node with
  | None => dfs g (dfs_fuel g) node st
  | Some _ => Ret st
  end.

Definition get_deletion_order `{Collaborators} (doc : document)
    (removable : list string) : outcome (list string) :=
  do g <- build_graph doc removable;
  do st <- for_each (visit_unvisited g) (dict_keys g) (DfsState ∅ []);
  Ret (reverse (order st)).

(** The order in which [purge_blocks] goes through the blocks: the resolver's,
    or, when it raised [ValueError], the names by length, longest first. *)
Definition purge_order `{Collaborators} (doc : document) : outcome (list string) :=
  let removable := get_removable_blocks doc in
  match get_deletion_order doc removable with
  | Raise ValueError => Ret (sorted len (fun k1 k2 => Nat.ltb k2 k1) removable)
  | r => r
  end.

(** A deletion that raises is logged and the loop goes on. *)
Definition try_delete_block `{Collaborators} (doc : document) (block_name : string)
    : document :=
  match delete_block doc block_name with
  | Some doc' => doc'
  | None => doc
  end.

Definition purge_blocks `{Collaborators} (doc : document) : outcome document :=
  do deletion_order <- purge_order doc;
  Ret (foldl try_delete_block doc deletion_order).

(** ** LOGOS & EXPORT *)

Definition is_image (e : entity) : bool := bool_decide (dxftype e = "IMAGE").

(** The loop that copies line types in [change_logos]. *)
Definition logo_copy_linetypes `{Collaborators} (source : list linetype)
    (doc_target : document) : outcome document :=
  for_each (fun linetype doc =>
              if in_table (lt_name linetype) (map lt_name (linetypes doc)) then Ret doc
              else
                do created <- linetypes_add (lt_name linetype);
                Ret (set_linetypes (linetypes doc ++ [created]) doc))
           source doc_target.

(** The loop that copies text styles. *)
Definition logo_copy_styles `{Collaborators} (source : list text_style)
    (doc_target : document) : document :=
  foldl (fun doc text_style =>
           let name := style_name text_style in
           if in_table name (map style_name (styles doc)) then doc
           else
             let font := default "arial.ttf" (style_font text_style) in
             set_styles (styles doc ++ [TextStyle name (Some font)]) doc)
        doc_target source.

(** The loop that copies entities; an entity whose copy raises is skipped. *)
Definition logo_copy_entities `{Collaborators} (msp_source msp_target : list entity)
    : list entity :=
  foldl (fun msp ent =>
           match copy_entity ent with
           | Some new_entity => msp ++ [new_entity]
           | None => msp
           end)
        msp_target msp_source.

(** [change_logos]; [doc_source] is the document read from [filename], and the
    target space is the model space of [doc_target]. *)
Definition change_logos `{Collaborators} (fuel : nat) (doc_source doc_target : document)
    : outcome document :=
  do msp_source <- explode_drawing fuel (modelspace doc_source);
  do doc_source <- purge_blocks (set_modelspace msp_source doc_source);
  let msp_target :=
    foldl (fun msp image => delete_entity image msp)
          (modelspace doc_target) (filter is_image (modelspace doc_target)) in
  let doc_target := set_modelspace msp_target doc_target in
  do doc_target <- logo_copy_linetypes (linetypes doc_source) doc_target;
  let doc_target := logo_copy_styles (styles doc_source) doc_target in
  Ret (set_modelspace
         (logo_copy_entities (modelspace doc_source) (modelspace doc_target))
         doc_target).

Fixpoint take_while {A : Type} (p : A -> bool) (l : list A) : list A :=
  match l with
  | x :: l' => if p x then x :: take_while p l' else []
  | [] => []
  end.

(** The group of [re.search(r"_(\d+)\.dxf$", f)] as a number, [None] when the
    name does not match.  A match ends at the end of the name, or before a line
    feed that ends it; the digits are then the whole run of digits before
    [".dxf"], and the character before that run is the underscore. *)
Definition suffix_number `{Unicode} (f : string) : option N :=
  let line_feed := String (ascii_of_nat 10) EmptyString in
  let f := if endswith f line_feed then String.substring 0 (String.length f - 1) f
           else f in
  if endswith f ".dxf" then
    let stem := reverse (chars (String.substring 0 (String.length f - 4) f)) in
    let digits := take_while is_digit stem in
    match digits, drop (length digits) stem with
    | _ :: _, c :: _ =>
        if decide (c = ["_"%char]) then Some (int_of_digits (reverse digits)) else None
    | _, _ => None
    end
  else None.

(** The sort key of [export_single_file]: the number, or [float("inf")],
    here [None], which is larger than every number. *)
Definition key_earlier (k1 k2 : option N) : bool :=
  match k1, k2 with
  | Some a, Some b => N.ltb a b
  | Some _, None => true
  | None, _ => false
  end.

(** The list [files] of [export_single_file], from the directory listing. *)
Definition export_files `{Unicode} (listing : list string) : list string :=
  sorted suffix_number key_earlier
         (filter (fun f => endswith (lower f) ".dxf") listing).

Definition paperspace_name (i : nat) : string := "FL" +:+ pretty (i + 1).

(** Which paper space each file is copied into. *)
Definition sheet_assignment `{Unicode} (listing : list string)
    : list (string * string) :=
  imap (fun i file => (file, paperspace_name i)) (export_files listing).

(** *** The rest of [export_single_file] *)

(** What [export_single_file] consumes besides. *)
Class ExportCollaborators : Type := {
  (** [ezdxf.new()] *)
  new_document : document;
  (** [ezdxf.readfile(os.path.join(path, file))] *)
  readfile : string -> outcome document;
  (** [doc.linetypes.add(name=..., pattern=..., description=...)]; [None]
      when it raises *)
  linetypes_add_pattern : string -> list Q -> string -> option linetype
}.

(** [enumerate(l)], counting from [start]. *)
Fixpoint enumerate {A : Type} (start : nat) (l : list A) : list (nat * A) :=
  match l with
  | [] => []
  | x :: l' => (start, x) :: enumerate (S start) l'
  end.

(** The combined document and [paperspace_dict], the entities of each new
    paper space under its name. *)
Record export_state : Type := ExportState {
  export_doc : document;
  paperspace_dict : dict (list entity)
}.

(** The loop that creates the paper spaces. *)
Definition create_paperspaces (files : list string) : dict (list entity) :=
  foldl (fun d i => dict_set d (paperspace_name i) []) [] (seq 0 (length files)).

(** The body of the loop under "Copy Layers". *)
Definition export_copy_layer `{Collaborators} (layer : layer) (doc : document)
    : outcome document :=
  let name := layer_name layer in
  let color := layer_color layer in
  do lineweight <- int_truediv (layer_lineweight layer) 10;
  do doc <- create_layer doc name color;
  change_lineweight doc name lineweight.

Definition export_copy_layers `{Collaborators} (source : list layer) (doc : document)
    : outcome document :=
  for_each export_copy_layer source doc.

(** The loop under "Copy linetypes"; a line type that cannot be added is
    logged and skipped. *)
Definition export_copy_linetypes `{Collaborators} `{ExportCollaborators}
    (source : list linetype) (doc : document) : document :=
  foldl (fun doc linetype =>
           if in_table (lt_name linetype) (map lt_name (linetypes doc)) then doc
           else
             let pattern :=
               default [1 # 2; - (1 # 4); 1 # 2]%Q (lt_pattern linetype) in
             let description :=
               default "Copied linetype" (lt_description linetype) in
             match linetypes_add_pattern (lt_name linetype) pattern description with
             | Some created => set_linetypes (linetypes doc ++ [created]) doc
             | None => doc
             end)
        doc source.

(** The body of the loop over [enumerate(files)].  The loops over the text
    styles and over the entities are those of [change_logos], the entities
    going to the paper space of the file. *)
Definition export_file `{Collaborators} `{ExportCollaborators}
    (i_file : nat * string) (st : export_state) : outcome export_state :=
  let '(i, file) := i_file in
  do doc_source <- readfile file;
  let msp_source := modelspace doc_source in
  match dict_get (paperspace_dict st) (paperspace_name i) with
  | None => Raise KeyError
  | Some psp_target =>
      do doc <- export_copy_layers (layers doc_source) (export_doc st);
      let doc := export_copy_linetypes (linetypes doc_source) doc in
      let doc := logo_copy_styles (styles doc_source) doc in
      let psp_target := logo_copy_entities msp_source psp_target in
      Ret (ExportState doc
             (dict_set (paperspace_dict st) (paperspace_name i) psp_target))
  end.

(** [export_single_file], from the listing of the directory to the document
    that is saved and its paper spaces. *)
Definition export_single_file `{Unicode} `{Collaborators} `{ExportCollaborators}
    (listing : list string) : outcome export_state :=
  let files := export_files listing in
  for_each export_file (enumerate 0 files)
           (ExportState new_document (create_paperspaces files)).

(** ** The revision clouds *)

(** The body of the first loop of [create_revcloud], over a snapshot of the
    space: the state is the space, [all_polylines] and [all_layers].
    [revcloud_layers] is a collection of layer names. *)
Definition create_revcloud_scan (revcloud_layers : list string)
    (st : list entity * list (list vertex) * list string) (ent : entity)
    : list entity * list (list vertex) * list string :=
  let '(msp, all_polylines, all_layers) := st in
  let layer := dxf_layer ent in
  if name_in layer revcloud_layers then
    let all_layers := all_layers ++ [layer] in
    if bool_decide (dxftype ent = "LWPOLYLINE") then
      if is_closed ent then
        (delete_entity ent msp, all_polylines ++ [vertices ent], all_layers)
      else (msp, all_polylines, all_layers)
    else (msp, all_polylines, all_layers)
  else (msp, all_polylines, all_layers).

(** The second loop pairs the polylines with the layers by position; each
    new cloud goes to the end of the space and then has its layer set. *)
Definition create_revcloud `{Collaborators} (msp : list entity)
    (revcloud_layers : list string) (arc_radius : Q) : outcome (list entity) :=
  let '(msp, all_polylines, all_layers) :=
    foldl (create_revcloud_scan revcloud_layers) (msp, [], []) msp in
  for_each (fun '(polyline, layer) msp =>
              do revcloud <- revcloud_add_entity msp polyline arc_radius;
              Ret (msp ++ [set_layer layer revcloud]))
           (zip all_polylines all_layers) msp.

(** ** The pipeline of [adjust_layer], for one file *)

(** A row of the mapping table; [None] is an empty cell. *)
Record remap_row : Type := RemapRow {
  currentLayer : string;
  newLayer : option string;
  colorID : option Z;
  lineweight : option float;
  lineType : option string
}.

(** A row after the four [fillna] calls. *)
Record filled_row : Type := FilledRow {
  row_currentLayer : string;
  row_newLayer : string;
  row_colorID : Z;
  row_lineweight : float;
  row_lineType : string
}.

Definition fillna (r : remap_row) : filled_row :=
  FilledRow (currentLayer r)
            (default "fallback" (newLayer r))
            (default 256%Z (colorID r))
            (default (SpecFloat.S754_zero false) (lineweight r))
            (default "continuous" (lineType r)).

Definition layers_to_modify (df : list remap_row) (layers : list string)
    : list filled_row :=
  map fillna (filter (fun r => name_in (currentLayer r) layers) df).

(** The body of the loop over [layers_to_modify["currentLayer"]]: [row] holds
    the rows for [layer], and [.values[0]] reads the first of them. *)
Definition remap_layer `{Collaborators} (rows : list filled_row) (layer : string)
    (doc : document) : outcome document :=
  match filter (fun r => bool_decide (row_currentLayer r = layer)) rows with
  | [] => Raise IndexError
  | row :: _ =>
      let dest_layer := row_newLayer row in
      let dest_color := row_colorID row in
      let dest_lineweight := row_lineweight row in
      do doc <- create_layer doc dest_layer dest_color;
      let doc := set_modelspace (change_layer (modelspace doc) layer dest_layer) doc in
      change_lineweight doc dest_layer dest_lineweight
  end.

Definition arc_radius : Q := 6.

(** The body of the loop over [files]: from the document read from the file
    to the document that is saved. *)
Definition adjust_document `{Collaborators} (fuel : nat) (logo : document)
    (df : list remap_row) (revcloud_layers : list string) (doc : document)
    : outcome document :=
  do msp <- explode_drawing fuel (modelspace doc);
  do doc <- purge_blocks (set_modelspace msp doc);
  let doc := remove_unused_layers doc in
  let layers := list_current_layers doc in
  let rows := layers_to_modify df layers in
  do doc <- for_each (remap_layer rows) (map row_currentLayer rows) doc;
  let doc := set_modelspace (map (set_style 256 (-1) "BYLAYER") (modelspace doc)) doc in
  do doc <- change_logos fuel logo doc;
  let doc := remove_unused_layers doc in
  do msp <- create_revcloud (modelspace doc) revcloud_layers arc_radius;
  Ret (set_modelspace msp doc).

(** * Notions the properties are stated with *)

(** The elements of [l] are in the order [R]: [R x y] for [x] anywhere before
    [y]. *)
Definition in_order {A : Type} (R : A -> A -> Prop) (l : list A) : Prop :=
  forall i j x y, i < j -> l !! i = Some x -> l !! j = Some y -> R x y.

(** [y] may follow [x] in a list sorted by [key]: its key does not sort
    strictly before that of [x]. *)
Definition may_follow {A K : Type} (key : A -> K) (earlier : K -> K -> bool)
    (x y : A) : Prop :=
  earlier (key y) (key x) = false.

(** [a] comes before [b] in [l]. *)
Definition appears_before {A : Type} (a b : A) (l : list A) : Prop :=
  exists i j, i < j /\ l !! i = Some a /\ l !! j = Some b.

(** The references the resolver sees among the names of [removable]: the
    block that [doc.blocks.get(a)] finds holds an INSERT whose name is [b],
    letter for letter. *)
Definition references `{Collaborators} (doc : document) (removable : list string)
    (a b : string) : Prop :=
  a ∈ removable /\ b ∈ removable /\
  exists block_def ent,
    blocks_get doc a = Some block_def /\ ent ∈ block_def /\
    dxftype ent = "INSERT" /\ dxf_name ent = b.

(** The edge relation a graph stands for. *)
Definition edge (g : graph) (a b : string) : Prop :=
  exists s, dict_get g a = Some s /\ b ∈ s.

Definition cyclic (g : graph) : Prop := exists n, tc (edge g) n n.

(** How many nodes of [g] have no mark yet. *)
Definition unvisited (g : graph) (v : gmap string nat) : nat :=
  length (filter (fun k => v !! k = None) (dict_keys g)).

(** What holds of the traversal state between two calls of [dfs]: [order]
    lists the nodes marked 2, and every node in it comes after all the nodes
    it has an edge to. *)
Record dfs_inv (g : graph) (st : dfs_state) : Prop := DfsInv {
  inv_order : forall n, n ∈ order st <-> visited st !! n = Some 2;
  inv_marks : forall n c, visited st !! n = Some c -> c = 1 \/ c = 2;
  inv_keys : forall n, is_Some (visited st !! n) -> n ∈ dict_keys g;
  inv_finish : forall i u v,
    order st !! i = Some u -> edge g u v -> exists j, j < i /\ order st !! j = Some v;
  inv_NoDup : NoDup (order st)
}.

(** Marks are never taken back, and no node marked 1 is left behind. *)
Definition extends (st st' : dfs_state) : Prop :=
  (forall u c, visited st !! u = Some c -> visited st' !! u = Some c) /\
  (forall u, visited st' !! u = Some 1 -> visited st !! u = Some 1).

Definition all_done (st : dfs_state) : Prop :=
  forall u, visited st !! u <> Some 1.

(** The contract of one visit, with [n] bounding the unmarked nodes. *)
Definition visit_spec (g : graph)
    (body : string -> dfs_state -> outcome dfs_state) (n : nat) : Prop :=
  forall node st,
    dfs_inv g st -> node ∈ dict_keys g -> unvisited g (visited st) < n ->
    match body node st with
    | Ret st' => dfs_inv g st' /\ extends st st' /\ visited st' !! node = Some 2
    | Raise ValueError =>
        (exists u, visited st !! u = Some 1 /\ rtc (edge g) node u) \/ cyclic g
    | _ => False
    end.


(** The names [remove_unused_layers] treats as used: the layers of the
    entities of the model space, and the two reserved names. *)
Definition kept_names (doc : document) : list string :=
  map dxf_layer (modelspace doc) ++ ["Defpoints"; "0"].

(** [round(x)] as the specification has it: the nearest integer, a tie going
    to the even one, as Python's [round] does. *)
Definition round_half_even (x : Q) : Z :=
  let f := Qfloor x in
  match Qcompare (x - inject_Z f) (1 # 2) with
  | Lt => f
  | Gt => (f + 1)%Z
  | Eq => if Z.even f then f else (f + 1)%Z
  end.

(** The number a float stands for, 0 for one that is not finite. *)
Definition float_value (x : float) : Q :=
  match x with
  | SpecFloat.S754_finite s m e =>
      let q := match e with
               | Zneg p => Qmake (Z.pos m) (Z.to_pos (2 ^ Z.pos p))
               | _ => inject_Z (Z.pos m * 2 ^ e)
               end in
      if s then (- q)%Q else q
  | _ => 0%Q
  end.

(** The float is a number, and that number is not negative. *)
Definition float_nonneg (x : float) : Prop :=
  match x with
  | SpecFloat.S754_zero _ => True
  | SpecFloat.S754_finite s _ _ => s = false
  | _ => False
  end.

(** The model space of the logo file once [change_logos] has exploded it and
    purged its blocks: the entities that are then copied. *)
Definition logo_source_space `{Collaborators} (fuel : nat) (doc_source : document)
    : outcome (list entity) :=
  do msp_source <- explode_drawing fuel (modelspace doc_source);
  do doc_source <- purge_blocks (set_modelspace msp_source doc_source);
  Ret (modelspace doc_source).

(** Color, line weight and line type all say BYLAYER. *)
Definition inherits_from_layer (e : entity) : Prop :=
  dxf_color e = 256%Z /\ dxf_lineweight e = (-1)%Z /\ dxf_linetype e = "BYLAYER".

(** [c] has the color, the line weight and the line type of [e]. *)
Definition same_style (e c : entity) : Prop :=
  dxf_color c = dxf_color e /\ dxf_lineweight c = dxf_lineweight e /\
  dxf_linetype c = dxf_linetype e.

(** A closed polyline on a layer that takes revision clouds. *)
Definition is_boundary (revcloud_layers : list string) (e : entity) : bool :=
  name_in (dxf_layer e) revcloud_layers
  && bool_decide (dxftype e = "LWPOLYLINE") && is_closed e.

(** [x] is not deleted when the boundaries of [msp] are. *)
Definition outlives (revcloud_layers : list string) (msp : list entity) (x : entity)
    : Prop :=
  Forall (fun b => is_boundary revcloud_layers b -> dxf_handle x <> dxf_handle b) msp.

(** The entities hold an INSERT of the block with the key [key], in whatever
    case its name is written. *)
Definition inserts `{Collaborators} (entities : list entity) (key : string) : Prop :=
  exists ent, ent ∈ entities /\ dxftype ent = "INSERT" /\ table_key (dxf_name ent) = key.

(** What the purge relies on in [delete_block]: a block that is there and
    that neither a block definition nor the model space inserts is deleted,
    and the other block definitions and the model space stay as they are. *)
Definition deletes_unreferenced `{Collaborators} : Prop :=
  forall doc key,
    key ∈ block_names doc ->
    (forall b block_def, (b, block_def) ∈ blocks doc -> ~ inserts block_def key) ->
    ~ inserts (modelspace doc) key ->
    exists doc',
      delete_block doc key = Some doc' /\
      blocks doc' = filter (fun b => table_key b.1 <> key) (blocks doc) /\
      modelspace doc' = modelspace doc.

(** Every INSERT of the entities names its block as the block table has it:
    by the key. *)
Definition named_by_key `{Collaborators} (entities : list entity) : Prop :=
  forall ent, ent ∈ entities -> dxftype ent = "INSERT" ->
              table_key (dxf_name ent) = dxf_name ent.

(** [x] does not have the handle of an IMAGE of [msp]. *)
Definition not_an_image_of (msp : list entity) (x : entity) : Prop :=
  Forall (fun image => dxftype image = "IMAGE" -> dxf_handle x <> dxf_handle image) msp.

(** The entity is on one of the layers that take revision clouds. *)
Definition on_cloud_layer (revcloud_layers : list string) (e : entity) : bool :=
  name_in (dxf_layer e) revcloud_layers.

(** The keys of the layers, of the line types and of the text styles of a
    document. *)
Definition layer_keys `{Collaborators} (doc : document) : list string :=
  map table_key (list_current_layers doc).

Definition linetype_keys `{Collaborators} (doc : document) : list string :=
  map table_key (map lt_name (linetypes doc)).

Definition style_keys `{Collaborators} (doc : document) : list string :=
  map table_key (map style_name (styles doc)).

(** * Sample inputs *)

(** The line weights a DXF file may hold, in hundredths of a millimetre. *)
Definition valid_lineweights : list Z :=
  [0; 5; 9; 13; 15; 18; 20; 25; 30; 35; 40; 50; 53; 60; 70; 80; 90; 100; 106;
   120; 140; 158; 200; 211]%Z.

(** What [ezdxf] makes of a value assigned to the line weight of a layer: a
    valid line weight and the default -3 are kept, BYLAYER (-1) and BYBLOCK
    (-2) become the default, and another value becomes the next valid line
    weight. *)
Definition fix_layer_lineweight (v : Z) : Z :=
  if bool_decide (v = (-1)%Z \/ v = (-2)%Z) then (-3)%Z
  else if bool_decide (v ∈ valid_lineweights) then v
  else if (v <? 0)%Z then (-3)%Z
  else default 211%Z (head (filter (fun w => (v < w)%Z) valid_lineweights)).

(** [doc.layers.add] as [ezdxf] has it: a new layer is made for a color from
    0 to 257, where 0, 256 and 257 give the default color 7, and no layer is
    made for another color. *)
Definition cooperative_layers_add (name : string) (color : Z) : outcome layer :=
  if bool_decide (0 <= color <= 257)%Z then
    Ret (Layer name (if bool_decide (1 <= color <= 255)%Z then color else 7%Z) (-3))
  else Raise DXFValueError.

Lemma cooperative_add_name name color created :
  cooperative_layers_add name color = Ret created -> layer_name created = name.
Proof. unfold cooperative_layers_add. case_bool_decide; [|done]. by intros [= <-]. Qed.

(** Collaborators that cooperate: sets are visited in the order of
    [elements], an INSERT explodes to nothing, the key of a name is the name
    in lower case, deleting a block and copying an entity succeed, and a copy
    keeps the attributes of the original. *)
Definition cooperative : Collaborators := {|
  set_iter := elements;
  explode := fun _ => [];
  table_key := lower;
  table_key_idempotent := lower_idempotent;
  delete_block := fun d n =>
    Some (Document (layers d) (filter (fun b => lower (fst b) <> n) (blocks d))
                   (linetypes d) (styles d) (modelspace d));
  copy_entity := Some;
  layers_add := cooperative_layers_add;
  layers_add_name := cooperative_add_name;
  lineweight_setter := fix_layer_lineweight;
  linetypes_add := fun n => Ret (Linetype n None None);
  revcloud_add_entity := fun msp vs r =>
    Ret (Entity 4095 "LWPOLYLINE" "0" 256 (-1) "BYLAYER" "" true vs)
|}.

(** A Unicode database that knows the Arabic-Indic digits, the two bytes D9
    A0 to D9 A9, besides the digits of ASCII. *)
Definition arabic_indic : Unicode := {|
  unicode_decimal := fun ch =>
    match ch with
    | [c1; c2] =>
        let n := Ascii.N_of_ascii c2 in
        if bool_decide (Ascii.N_of_ascii c1 = 217%N) && (160 <=? n)%N && (n <=? 169)%N
        then Some (n - 160)%N else None
    | _ => None
    end
|}.

(** The file name a_3.dxf with the 3 written as the Arabic-Indic digit three,
    the bytes D9 A3. *)
Definition a_three_dxf : string :=
  "a_" +:+ String (ascii_of_nat 217) (String (ascii_of_nat 163) ".dxf").

(** The float that the decimal literal for [n / d] is read as. *)
Definition float_literal (n : Z) (d : positive) : float :=
  SpecFloat.SFdiv 53 1024 (float_of_int n) (float_of_int (Z.pos d)).

Definition insert_of (h : N) (block : string) : entity :=
  Entity h "INSERT" "0" 256 (-1) "BYLAYER" block false [].

(** Blocks A, B and C with A -> B and B -> C, named in upper case. *)
Definition chain_doc : document :=
  Document [] [("*Model_Space", []);
               ("A", [insert_of 1 "B"]); ("B", [insert_of 2 "C"]); ("C", [])]
           [] [] [].

(** Blocks A and BB that reference each other, and a block C. *)
Definition cyclic_doc : document :=
  Document [] [("*Model_Space", []); ("*Paper_Space", []);
               ("A", [insert_of 1 "BB"]); ("BB", [insert_of 2 "A"]); ("C", [])]
           [] [] [].

(** The same blocks, named in lower case as their keys are. *)
Definition lower_chain_doc : document :=
  Document [] [("*Model_Space", []);
               ("a", [insert_of 1 "b"]); ("b", [insert_of 2 "c"]); ("c", [])]
           [] [] [].

Definition lower_cyclic_doc : document :=
  Document [] [("*Model_Space", []); ("*Paper_Space", []);
               ("a", [insert_of 1 "bb"]); ("bb", [insert_of 2 "a"]); ("c", [])]
           [] [] [].

(** A document with the two reserved layers and a third one, and no entity. *)
Definition empty_drawing : document :=
  Document [Layer "0" 7 (-3); Layer "Defpoints" 7 (-3); Layer "Walls" 1 25] [] [] [] [].

(** One layer, and nothing else. *)
Definition one_layer_drawing : document :=
  Document [Layer "Walls" 1 (-3)] [] [] [] [].

(** A line and a closed polyline on two layers that both take revision
    clouds. *)
Definition rev_line : entity :=
  Entity 17 "LINE" "REV_A" 256 (-1) "BYLAYER" "" false [].

Definition rev_boundary : entity :=
  Entity 18 "LWPOLYLINE" "REV_B" 256 (-1) "BYLAYER" "" true
         [(0, 0); (40, 0); (40, 30); (0, 30)]%Q.

(** A logo file that defines one line type of its own. *)
Definition logo_with_linetype (lt : linetype) : document :=
  Document [Layer "0" 7 (-3)] [] [lt] [] [].

(** A logo file with one red line on its layer "LOGO", and a drawing with one
    line on its layer "Walls"; a mapping table that sends "Walls" to
    "A-WALL", with the weight 0.25. *)
Definition logo_line : entity :=
  Entity 33 "LINE" "LOGO" 1 50 "CONTINUOUS" "" false [].

Definition logo_doc : document :=
  Document [Layer "0" 7 (-3); Layer "LOGO" 1 50] [] [] [] [logo_line].

Definition wall_line : entity :=
  Entity 65 "LINE" "Walls" 3 25 "DASHED" "" false [].

Definition wall_drawing : document :=
  Document [Layer "0" 7 (-3); Layer "Walls" 3 25] [] [] [] [wall_line].

Definition wall_table : list remap_row :=
  [RemapRow "Walls" (Some "A-WALL") (Some 3%Z) (Some (float_literal 25 100)) None].

(** A drawing with a layer that is switched off, which is a negative color. *)
Definition hidden_layer_drawing : document :=
  Document [Layer "0" 7 (-3); Layer "Hidden" (-3) 25] [] [] [] [].

(** Blocks a, b and c that reference nothing. *)
Definition isolated_doc : document :=
  Document [] [("*Model_Space", []); ("a", [rev_line]); ("b", []); ("c", [])] [] [] [].

(** Collaborators like [cooperative], except that a line type cannot be added
    by its name alone. *)
Definition pattern_required : Collaborators := {|
  set_iter := elements;
  explode := fun _ => [];
  table_key := lower;
  table_key_idempotent := lower_idempotent;
  delete_block := @delete_block cooperative;
  copy_entity := Some;
  layers_add := cooperative_layers_add;
  layers_add_name := cooperative_add_name;
  lineweight_setter := fix_layer_lineweight;
  linetypes_add := fun _ => Raise TypeError;
  revcloud_add_entity := @revcloud_add_entity cooperative
|}.

(** A directory with the two drawings above and the drawing with the hidden
    layer, and collaborators of the export that start from a document with
    the layer "0" and accept every line type. *)
Definition two_files : ExportCollaborators := {|
  new_document := Document [Layer "0" 7 (-3)] [] [] [] [];
  readfile := fun f =>
    if decide (f = "a_1.dxf") then Ret wall_drawing
    else if decide (f = "a_2.dxf") then Ret logo_doc
    else if decide (f = "a_0.dxf") then Ret hidden_layer_drawing
    else Raise ValueError;
  linetypes_add_pattern := fun n p d => Some (Linetype n (Some p) (Some d))
|}.

(** * Properties *)

(** ** Outcomes *)

Lemma bind_Ret_inv {A B : Type} (m : outcome A) (k : A -> outcome B) (b : B) :
  bind m k = Ret b -> exists a, m = Ret a /\ k a = Ret b.
Proof. destruct m; simpl; intros Hk; try discriminate. by exists a. Qed.

(** ** [sorted] is a stable sort

    Three facts pin the result of a stable sort down, whatever the algorithm:
    it is a permutation of the input, its keys are in order, and elements with
    the same key stay in the order of the input. *)


Lemma StronglySorted_in_order {A : Type} (R : A -> A -> Prop) (l : list A) :
  StronglySorted R l -> in_order R l.
Proof.
  induction 1 as [|x l _ IH Hx]; intros i j a b Hij Hi Hj.
  - by rewrite lookup_nil in Hi.
  - destruct j as [|j]; [lia|]. simpl in Hj. destruct i as [|i]; simpl in Hi.
    + injection Hi as <-. rewrite Forall_forall in Hx.
      apply Hx. eapply list_elem_of_lookup_2, Hj.
    + apply (IH i j); [lia|done..].
Qed.

Section SortedFacts.
Context {A K : Type} `{EqDecision K} (key : A -> K) (earlier : K -> K -> bool).
Hypothesis earlier_irrefl : forall k, earlier k k = false.
Hypothesis earlier_trans :
  forall a b c, earlier a b = true -> earlier b c = true -> earlier a c = true.
Hypothesis earlier_total :
  forall a b, earlier a b = false -> earlier b a = false -> a = b.


Lemma earlier_asym a b : earlier a b = true -> earlier b a = false.
Proof.
  intros Hab. destruct (earlier b a) eqn:Hba; [|done].
  by rewrite <- (earlier_irrefl a), (earlier_trans a b a).
Qed.

Lemma may_follow_trans x y z : may_follow key earlier x y -> may_follow key earlier y z -> may_follow key earlier x z.
Proof.
  unfold may_follow. intros Hxy Hyz.
  destruct (earlier (key z) (key x)) eqn:Hzx; [|done].
  destruct (earlier (key x) (key y)) eqn:Hyx.
  - by rewrite (earlier_trans _ _ _ Hzx Hyx) in Hyz.
  - rewrite (earlier_total _ _ Hxy Hyx) in Hyz. congruence.
Qed.

Lemma insert_stable_perm x l : insert_stable key earlier x l ≡ₚ x :: l.
Proof.
  induction l as [|y l IH]; simpl; [done|].
  destruct (earlier (key y) (key x)); [|done].
  by rewrite IH, Permutation_swap.
Qed.

Lemma sorted_perm l : sorted key earlier l ≡ₚ l.
Proof.
  induction l as [|x l IH]; simpl; [done|].
  by rewrite insert_stable_perm, IH.
Qed.

Lemma insert_stable_sorted x l :
  StronglySorted (may_follow key earlier) l ->
  StronglySorted (may_follow key earlier) (insert_stable key earlier x l).
Proof.
  induction 1 as [|y l Hl IH Hy]; simpl.
  - repeat constructor.
  - destruct (earlier (key y) (key x)) eqn:Hyx.
    + constructor; [done|].
      rewrite insert_stable_perm. constructor; [|done].
      by apply earlier_asym.
    + constructor; [by constructor|].
      constructor; [done|].
      eapply Forall_impl; [exact Hy|].
      intros z Hz. by apply (may_follow_trans x y z).
Qed.

Lemma sorted_sorted l : StronglySorted (may_follow key earlier) (sorted key earlier l).
Proof.
  induction l as [|x l IH]; simpl; [constructor|].
  by apply insert_stable_sorted.
Qed.

Lemma sorted_in_order l : in_order (may_follow key earlier) (sorted key earlier l).
Proof. apply StronglySorted_in_order, sorted_sorted. Qed.

Lemma insert_stable_filter k x l :
  filter (fun a => key a = k) (insert_stable key earlier x l)
  = filter (fun a => key a = k) (x :: l).
Proof.
  induction l as [|y l IH]; simpl; [done|].
  destruct (earlier (key y) (key x)) eqn:Hyx; [|done].
  rewrite filter_cons, IH, !filter_cons.
  destruct (decide (key y = k)) as [Hy|Hy], (decide (key x = k)) as [Hx|Hx];
    try done.
  rewrite Hy, Hx, earlier_irrefl in Hyx. discriminate.
Qed.

Lemma sorted_stable k l :
  filter (fun a => key a = k) (sorted key earlier l) = filter (fun a => key a = k) l.
Proof.
  induction l as [|x l IH]; simpl; [done|].
  by rewrite insert_stable_filter, !filter_cons, IH.
Qed.
End SortedFacts.

(** ** Dictionaries *)

Lemma foldl_invariant {A B : Type} (P : A -> Prop) (f : A -> B -> A) (l : list B) (a : A) :
  P a -> (forall a b, b ∈ l -> P a -> P (f a b)) -> P (foldl f a l).
Proof.
  revert a. induction l as [|b l IH]; intros a Ha Hf; simpl; [done|].
  apply IH.
  - apply Hf; [left|done].
  - intros a' b' Hb'. apply Hf. by right.
Qed.

Section DictFacts.
Context {V : Type}.
Implicit Types (d : dict V) (k : string).

Lemma dict_get_keys d k : k ∈ dict_keys d <-> is_Some (dict_get d k).
Proof.
  induction d as [|[k' v] d IH]; simpl.
  - split; [by intros ?%elem_of_nil|by intros [? ?]].
  - rewrite elem_of_cons. destruct (decide (k' = k)) as [->|Hne].
    + split; [by eexists|by left].
    + rewrite <- IH. naive_solver.
Qed.

Lemma dict_keys_update d k f : dict_keys (dict_update d k f) = dict_keys d.
Proof.
  induction d as [|[k' v] d IH]; simpl; [done|].
  destruct (decide (k' = k)); simpl; [done|]. by rewrite IH.
Qed.

Lemma dict_get_update d k f k' :
  dict_get (dict_update d k f) k'
  = if decide (k = k') then f <$> dict_get d k' else dict_get d k'.
Proof.
  induction d as [|[k0 v] d IH]; simpl; [by destruct (decide (k = k'))|].
  destruct (decide (k0 = k)) as [->|Hk0]; simpl.
  - destruct (decide (k = k')); simpl; [done|done].
  - destruct (decide (k0 = k')) as [->|Hk0']; simpl.
    + by destruct (decide (k = k')); [congruence|].
    + apply IH.
Qed.

Lemma dict_keys_set d k v k' :
  k' ∈ dict_keys (dict_set d k v) <-> k' = k \/ k' ∈ dict_keys d.
Proof.
  induction d as [|[k0 v0] d IH]; simpl.
  - rewrite list_elem_of_singleton. split; [by left|].
    by intros [?|?%elem_of_nil].
  - destruct (decide (k0 = k)) as [->|Hne]; simpl; rewrite !elem_of_cons.
    + naive_solver.
    + rewrite IH. naive_solver.
Qed.

Lemma dict_keys_set_NoDup d k v :
  NoDup (dict_keys d) -> NoDup (dict_keys (dict_set d k v)).
Proof.
  induction d as [|[k0 v0] d IH]; simpl.
  - intros _. apply NoDup_singleton.
  - rewrite NoDup_cons. intros [Hk0 Hd].
    destruct (decide (k0 = k)) as [->|Hne]; simpl; rewrite NoDup_cons.
    + done.
    + split; [|by apply IH]. rewrite dict_keys_set. naive_solver.
Qed.

Lemma dict_get_set d k v k' :
  dict_get (dict_set d k v) k' = if decide (k = k') then Some v else dict_get d k'.
Proof.
  induction d as [|[k0 v0] d IH]; simpl.
  - by destruct (decide (k = k')).
  - destruct (decide (k0 = k)) as [->|Hk0]; simpl.
    + by destruct (decide (k = k')).
    + destruct (decide (k0 = k')) as [->|Hk0']; simpl.
      * by destruct (decide (k = k')); [congruence|].
      * apply IH.
Qed.
End DictFacts.

(** ** The graph that [get_deletion_order] builds *)


Lemma graph_init_keys removable k :
  k ∈ dict_keys (graph_init removable) <-> k ∈ removable.
Proof.
  unfold graph_init.
  assert (forall g, k ∈ dict_keys (foldl (fun g b => dict_set g b (∅ : gset string)) g removable)
                    <-> k ∈ dict_keys g \/ k ∈ removable) as Hgen.
  { induction removable as [|b l IH]; intros g; simpl.
    - rewrite elem_of_nil. naive_solver.
    - rewrite IH, dict_keys_set, elem_of_cons. naive_solver. }
  rewrite Hgen. simpl. rewrite elem_of_nil. naive_solver.
Qed.

Lemma graph_init_NoDup removable : NoDup (dict_keys (graph_init removable)).
Proof.
  unfold graph_init. apply (foldl_invariant (fun g : graph => NoDup (dict_keys g))).
  - constructor.
  - intros g b _. apply dict_keys_set_NoDup.
Qed.

Lemma graph_init_get removable k s :
  dict_get (graph_init removable) k = Some s -> s = ∅.
Proof.
  unfold graph_init. revert k s.
  apply (foldl_invariant
           (fun g : graph => forall k s, dict_get g k = Some s -> s = ∅)).
  - done.
  - intros g b _ IH k s. rewrite dict_get_set.
    destruct (decide (b = k)); [congruence|apply IH].
Qed.

Lemma graph_add_refs_keys block block_def g :
  dict_keys (graph_add_refs block block_def g) = dict_keys g.
Proof.
  unfold graph_add_refs. revert g.
  induction block_def as [|ent l IH]; intros g; simpl; [done|].
  rewrite IH. destruct (is_insert ent); [|done].
  destruct (name_in _ _); [|done]. apply dict_keys_update.
Qed.

Lemma graph_add_refs_get block block_def g k s' :
  dict_get (graph_add_refs block block_def g) k = Some s' ->
  exists s, dict_get g k = Some s /\
    forall x, x ∈ s' <->
      x ∈ s \/ (k = block /\ x ∈ dict_keys g /\
                exists ent, ent ∈ block_def /\ dxftype ent = "INSERT" /\ dxf_name ent = x).
Proof.
  unfold graph_add_refs. revert g s'.
  induction block_def as [|ent l IH]; intros g s'; simpl.
  - intros Hs. exists s'. split; [done|]. intros x. split; [by left|].
    intros [?|(_ & _ & e & ?%elem_of_nil & _)]; done.
  - intros Hs. apply IH in Hs as (s1 & Hs1 & Hiff). clear IH.
    assert (forall x, (exists e, e ∈ ent :: l /\ dxftype e = "INSERT" /\ dxf_name e = x)
              <-> (dxftype ent = "INSERT" /\ dxf_name ent = x)
                  \/ exists e, e ∈ l /\ dxftype e = "INSERT" /\ dxf_name e = x) as Hex.
    { intros x. split.
      - intros (e & [->|He]%elem_of_cons & ?); [by left|right; by exists e].
      - intros [?|(e & He & ?)]; [exists ent|exists e]; rewrite elem_of_cons;
          naive_solver. }
    unfold is_insert in Hs1, Hiff.
    destruct (bool_decide (dxftype ent = "INSERT")) eqn:Hins.
    + apply bool_decide_eq_true in Hins. unfold name_in in Hs1, Hiff.
      destruct (bool_decide (dxf_name ent ∈ dict_keys g)) eqn:Hin.
      * apply bool_decide_eq_true in Hin.
        rewrite dict_get_update in Hs1. rewrite dict_keys_update in Hiff.
        destruct (decide (block = k)) as [->|Hne].
        -- destruct (dict_get g k) as [s|] eqn:Hg; simpl in Hs1; [|done].
           injection Hs1 as <-. exists s. split; [done|]. intros x.
           rewrite Hiff, Hex, elem_of_union, elem_of_singleton.
           split; [|naive_solver].
           intros [[?| ->]|?]; [by left| |naive_solver].
           right. split; [done|]. split; [done|]. by left.
        -- exists s1. split; [done|]. intros x. rewrite Hiff. naive_solver.
      * apply bool_decide_eq_false in Hin.
        exists s1. split; [done|]. intros x. rewrite Hiff, Hex. naive_solver.
    + apply bool_decide_eq_false in Hins.
      exists s1. split; [done|]. intros x. rewrite Hiff, Hex. naive_solver.
Qed.

Lemma build_graph_loop `{Collaborators} doc l g0 g :
  for_each (fun block g =>
              match blocks_get doc block with
              | None => Raise TypeError
              | Some block_def => Ret (graph_add_refs block block_def g)
              end) l g0 = Ret g ->
  dict_keys g = dict_keys g0 /\
  forall k s', dict_get g k = Some s' ->
    exists s, dict_get g0 k = Some s /\
      forall x, x ∈ s' <->
        x ∈ s \/ (k ∈ l /\ x ∈ dict_keys g0 /\
                  exists block_def ent,
                    blocks_get doc k = Some block_def /\ ent ∈ block_def /\
                    dxftype ent = "INSERT" /\ dxf_name ent = x).
Proof.
  revert g0. induction l as [|b l IH]; intros g0; simpl.
  - intros [= <-]. split; [done|]. intros k s' Hs'. exists s'. split; [done|].
    intros x. split; [by left|]. by intros [?|[?%elem_of_nil _]].
  - destruct (blocks_get doc b) as [bd|] eqn:Hb; simpl; [|done].
    intros Hloop. apply IH in Hloop as [Hkeys Hget]. clear IH.
    rewrite graph_add_refs_keys in Hkeys, Hget. split; [done|].
    intros k s' Hs'. apply Hget in Hs' as (s1 & Hs1 & Hiff1).
    apply graph_add_refs_get in Hs1 as (s & Hs & Hiff). exists s. split; [done|].
    intros x. rewrite Hiff1, Hiff, elem_of_cons. split.
    + intros [[?|(-> & ? & ent & ?)]|(? & ? & ?)]; [by left| |naive_solver].
      right. split; [by left|]. split; [done|]. by exists bd, ent.
    + intros [?|([->|?] & ? & bd' & ent & Hbd' & ?)]; [naive_solver| |naive_solver].
      left. right. split; [done|]. split; [done|]. exists ent.
      rewrite Hb in Hbd'. by injection Hbd' as ->.
Qed.

Lemma build_graph_keys `{Collaborators} doc removable g k :
  build_graph doc removable = Ret g -> k ∈ dict_keys g <-> k ∈ removable.
Proof.
  intros [Hkeys _]%build_graph_loop. by rewrite Hkeys, graph_init_keys.
Qed.

Lemma build_graph_NoDup `{Collaborators} doc removable g :
  build_graph doc removable = Ret g -> NoDup (dict_keys g).
Proof. intros [-> _]%build_graph_loop. apply graph_init_NoDup. Qed.

Lemma build_graph_edge `{Collaborators} doc removable g a b :
  build_graph doc removable = Ret g ->
  edge g a b <-> references doc removable a b.
Proof.
  intros Hg. pose proof (build_graph_keys _ _ _ a Hg) as Ha.
  apply build_graph_loop in Hg as [Hkeys Hget]. unfold edge, references. split.
  - intros (s' & Hs' & Hb).
    assert (a ∈ removable) as Ha' by (apply Ha, dict_get_keys; by eexists).
    apply Hget in Hs' as (s & Hs & Hiff).
    apply graph_init_get in Hs as ->. apply Hiff in Hb as [Hb|(? & Hb & ?)].
    + by apply elem_of_empty in Hb.
    + rewrite graph_init_keys in Hb. done.
  - intros (Ha' & Hb & Hrefs).
    destruct (proj1 (dict_get_keys g a) (proj2 Ha Ha')) as [s' Hs'].
    exists s'. split; [done|]. destruct (Hget _ _ Hs') as (s & _ & Hiff).
    apply Hiff. right. by rewrite graph_init_keys.
Qed.

Lemma build_graph_total `{Collaborators} doc removable :
  (forall b, b ∈ removable -> is_Some (blocks_get doc b)) ->
  exists g, build_graph doc removable = Ret g.
Proof.
  unfold build_graph. generalize (graph_init removable).
  induction removable as [|b l IH]; intros g0 Hall; simpl; [by eexists|].
  destruct (Hall b) as [bd ->]; [by left|]. simpl.
  apply IH. intros b' Hb'. apply Hall. by right.
Qed.

(** ** The traversal *)


Lemma unmarked_mono (v v' : gmap string nat) (l : list string) :
  (forall k, v' !! k = None -> v !! k = None) ->
  length (filter (fun k => v' !! k = None) l) <= length (filter (fun k => v !! k = None) l).
Proof.
  intros Hsub. induction l as [|k l IH]; simpl; [done|].
  rewrite !filter_cons.
  destruct (decide (v' !! k = None)) as [Hk|Hk].
  - rewrite decide_True by auto. simpl. lia.
  - destruct (decide (v !! k = None)); simpl; lia.
Qed.

Lemma unvisited_mono g (v v' : gmap string nat) :
  (forall k, v' !! k = None -> v !! k = None) -> unvisited g v' <= unvisited g v.
Proof. apply unmarked_mono. Qed.

Lemma unvisited_insert g (v : gmap string nat) node c :
  node ∈ dict_keys g -> v !! node = None ->
  unvisited g (<[node := c]> v) < unvisited g v.
Proof.
  intros Hnode Hnone. unfold unvisited.
  assert (forall k, <[node:=c]> v !! k = None -> v !! k = None) as Hsub.
  { intros k Hk. apply lookup_insert_None in Hk. tauto. }
  induction (dict_keys g) as [|k l IH]; [by apply elem_of_nil in Hnode|].
  rewrite !filter_cons. apply elem_of_cons in Hnode as [<-|Hnode].
  - rewrite lookup_insert_eq, decide_False, decide_True by done. simpl.
    apply Nat.lt_succ_r, unmarked_mono, Hsub.
  - specialize (IH Hnode).
    destruct (decide (<[node:=c]> v !! k = None)) as [Hk|Hk].
    + rewrite decide_True by auto. simpl. lia.
    + destruct (decide (v !! k = None)); simpl; lia.
Qed.

Lemma unvisited_bound g (v : gmap string nat) : unvisited g v < dfs_fuel g.
Proof.
  unfold unvisited, dfs_fuel, dict_keys.
  pose proof (length_filter (fun k => v !! k = None) (map fst g)) as Hle.
  rewrite length_map in Hle. lia.
Qed.

Section Traversal.
Context `{Collaborators}.
Hypothesis set_iter_elem : forall s x, x ∈ set_iter s <-> x ∈ s.
Variable g : graph.
Hypothesis g_closed : forall a b, edge g a b -> b ∈ dict_keys g.



Lemma extends_refl st : extends st st.
Proof. by split. Qed.

Lemma extends_trans st1 st2 st3 : extends st1 st2 -> extends st2 st3 -> extends st1 st3.
Proof. intros [? ?] [? ?]. split; auto. Qed.

Lemma extends_unvisited st st' :
  extends st st' -> unvisited g (visited st') <= unvisited g (visited st).
Proof.
  intros [Hkeep _]. apply unvisited_mono. intros k Hk.
  destruct (visited st !! k) as [c|] eqn:Hc; [|done].
  apply Hkeep in Hc. congruence.
Qed.


Lemma for_each_visit body n l st :
  visit_spec g body n ->
  (forall v, v ∈ l -> v ∈ dict_keys g) ->
  dfs_inv g st -> unvisited g (visited st) < n ->
  match for_each body l st with
  | Ret st' =>
      dfs_inv g st' /\ extends st st' /\ forall v, v ∈ l -> visited st' !! v = Some 2
  | Raise ValueError =>
      (exists v u, v ∈ l /\ visited st !! u = Some 1 /\ rtc (edge g) v u) \/ cyclic g
  | _ => False
  end.
Proof.
  intros Hbody. revert st. induction l as [|x l IH]; intros st Hl Hinv Hn; simpl.
  - split; [done|]. split; [apply extends_refl|]. by intros v ?%elem_of_nil.
  - pose proof (Hbody x st Hinv (Hl x ltac:(by left)) Hn) as Hx.
    destruct (body x st) as [st1|e|]; simpl; [|destruct e; try done|done].
    + destruct Hx as (Hinv1 & Hext1 & Hx1).
      assert (unvisited g (visited st1) < n) as Hn1
        by (pose proof (extends_unvisited _ _ Hext1); lia).
      specialize (IH st1 (fun v Hv => Hl v ltac:(by right)) Hinv1 Hn1).
      destruct (for_each body l st1) as [st2|e|]; [|destruct e; try done|done].
      * destruct IH as (Hinv2 & Hext2 & Hl2). split; [done|].
        split; [by eapply extends_trans|].
        intros v [->|Hv]%elem_of_cons; [|by apply Hl2].
        by apply Hext2.
      * destruct IH as [(v & u & Hv & Hu & Hvu)|Hc]; [|by right].
        left. exists v, u. split; [by right|]. split; [|done]. by apply Hext1.
    + destruct Hx as [(u & Hu & Hxu)|Hc]; [|by right].
      left. exists x, u. split; [by left|done].
Qed.

Lemma dfs_inv_visiting st node :
  dfs_inv g st -> node ∈ dict_keys g -> visited st !! node = None ->
  dfs_inv g (DfsState (<[node := 1]> (visited st)) (order st)).
Proof.
  intros [Ho Hm Hk Hf Hnd] Hnode Hnone. split; simpl; [| | |done..].
  - intros n. rewrite Ho. destruct (decide (node = n)) as [<-|Hne].
    + rewrite lookup_insert_eq, Hnone. naive_solver.
    + by rewrite lookup_insert_ne.
  - intros n c. destruct (decide (node = n)) as [<-|Hne].
    + rewrite lookup_insert_eq. intros [= <-]. by left.
    + rewrite lookup_insert_ne by done. apply Hm.
  - intros n. destruct (decide (node = n)) as [<-|Hne]; [done|].
    rewrite lookup_insert_ne by done. apply Hk.
Qed.

Lemma dfs_inv_finished st node :
  dfs_inv g st -> node ∈ dict_keys g -> visited st !! node = Some 1 ->
  (forall v, edge g node v -> visited st !! v = Some 2) ->
  dfs_inv g (DfsState (<[node := 2]> (visited st)) (order st ++ [node])).
Proof.
  intros [Ho Hm Hk Hf Hnd] Hnode Hone Hdone.
  assert (node ∉ order st) as Hnotin by (rewrite Ho, Hone; congruence).
  split; simpl.
  - intros n. rewrite elem_of_app, list_elem_of_singleton, Ho.
    destruct (decide (node = n)) as [<-|Hne].
    + rewrite lookup_insert_eq. naive_solver.
    + rewrite lookup_insert_ne by done. naive_solver.
  - intros n c. destruct (decide (node = n)) as [<-|Hne].
    + rewrite lookup_insert_eq. intros [= <-]. by right.
    + rewrite lookup_insert_ne by done. apply Hm.
  - intros n. destruct (decide (node = n)) as [<-|Hne]; [done|].
    rewrite lookup_insert_ne by done. apply Hk.
  - intros i u v Hi Huv.
    destruct (decide (i < length (order st))) as [Hlt|Hge].
    + rewrite lookup_app_l in Hi by done.
      destruct (Hf i u v Hi Huv) as (j & Hj & Hjv).
      exists j. split; [done|]. rewrite lookup_app_l by lia. done.
    + rewrite lookup_app_r in Hi by lia.
      apply list_lookup_singleton_Some in Hi as [Hi <-].
      apply Hdone, Ho, list_elem_of_lookup_1 in Huv as [j Hj].
      exists j. pose proof (lookup_lt_Some _ _ _ Hj).
      split; [lia|]. by rewrite lookup_app_l.
  - apply NoDup_app. split; [done|]. split; [|apply NoDup_singleton].
    intros x Hx ->%list_elem_of_singleton. done.
Qed.

Lemma dfs_visit fuel : visit_spec g (dfs g fuel) fuel.
Proof.
  induction fuel as [|fuel IH]; intros node st Hinv Hnode Hfuel; [lia|]. simpl.
  destruct (visited st !! node) as [c|] eqn:Hc.
  - destruct (decide (c = 1)) as [->|Hc1].
    + left. by exists node.
    + split; [done|]. split; [apply extends_refl|].
      destruct (inv_marks _ _ Hinv _ _ Hc) as [->| ->]; done.
  - destruct (proj1 (dict_get_keys g node) Hnode) as [neighbors Hnb].
    rewrite Hnb.
    set (st1 := DfsState (<[node := 1]> (visited st)) (order st)).
    assert (dfs_inv g st1) as Hinv1 by by apply dfs_inv_visiting.
    assert (unvisited g (visited st1) < fuel) as Hfuel1.
    { pose proof (unvisited_insert g (visited st) node 1 Hnode Hc). simpl. lia. }
    assert (forall v, v ∈ set_iter neighbors -> edge g node v) as Hedge.
    { intros v Hv. exists neighbors. split; [done|]. by apply set_iter_elem. }
    pose proof (for_each_visit (dfs g fuel) fuel (set_iter neighbors) st1 IH
                  (fun v Hv => g_closed _ _ (Hedge v Hv)) Hinv1 Hfuel1) as Hloop.
    destruct (for_each (dfs g fuel) (set_iter neighbors) st1) as [st2|e|]; simpl;
      [|destruct e; try done|done].
    + destruct Hloop as (Hinv2 & [Hkeep Hgrey] & Hdone).
      assert (visited st2 !! node = Some 1) as Hnode2
        by (apply Hkeep; simpl; apply lookup_insert_eq).
      split; [|split].
      * apply dfs_inv_finished; [done..|].
        intros v (s & Hs & Hv). apply Hdone, set_iter_elem. congruence.
      * split; simpl.
        -- intros u c Hu. assert (node <> u) by congruence.
           rewrite lookup_insert_ne by done. apply Hkeep. simpl.
           by rewrite lookup_insert_ne.
        -- intros u. destruct (decide (node = u)) as [<-|Hne].
           ++ rewrite lookup_insert_eq. done.
           ++ rewrite lookup_insert_ne by done. intros Hu%Hgrey. simpl in Hu.
              by rewrite lookup_insert_ne in Hu.
      * simpl. apply lookup_insert_eq.
    + destruct Hloop as [(v & u & Hv & Hu & Hvu)|Hcyc]; [|by right].
      simpl in Hu. destruct (decide (node = u)) as [<-|Hne].
      * right. exists node. eapply tc_rtc_r; [|exact Hvu]. apply tc_once. auto.
      * left. exists u. rewrite lookup_insert_ne in Hu by done.
        split; [done|]. eapply rtc_l; [|exact Hvu]. auto.
Qed.


Lemma for_each_visit_unvisited l st :
  (forall v, v ∈ l -> v ∈ dict_keys g) ->
  dfs_inv g st -> all_done st ->
  match for_each (visit_unvisited g) l st with
  | Ret st' =>
      dfs_inv g st' /\ all_done st' /\ extends st st' /\
      forall v, v ∈ l -> visited st' !! v = Some 2
  | Raise ValueError => cyclic g
  | _ => False
  end.
Proof.
  revert st. induction l as [|x l IH]; intros st Hl Hinv Hdone; simpl.
  - split; [done|]. split; [done|]. split; [apply extends_refl|].
    by intros v ?%elem_of_nil.
  - assert (match visit_unvisited g x st with
            | Ret st' => dfs_inv g st' /\ extends st st' /\ visited st' !! x = Some 2
            | Raise ValueError => cyclic g
            | _ => False
            end) as Hx.
    { unfold visit_unvisited. destruct (visited st !! x) as [c|] eqn:Hc.
      - split; [done|]. split; [apply extends_refl|].
        destruct (inv_marks _ _ Hinv _ _ Hc) as [->| ->]; [|done].
        by apply Hdone in Hc.
      - pose proof (dfs_visit (dfs_fuel g) x st Hinv (Hl x ltac:(by left))
                      (unvisited_bound g _)) as Hdfs.
        destruct (dfs g (dfs_fuel g) x st) as [st'|e|]; [done|destruct e; try done|done].
        destruct Hdfs as [(u & Hu & _)|Hcyc]; [|done]. by apply Hdone in Hu. }
    destruct (visit_unvisited g x st) as [st1|e|]; simpl; [|destruct e; try done|done].
    destruct Hx as (Hinv1 & Hext1 & Hx1).
    assert (all_done st1) as Hdone1.
    { intros u Hu. apply Hext1 in Hu. by apply Hdone in Hu. }
    specialize (IH st1 (fun v Hv => Hl v ltac:(by right)) Hinv1 Hdone1).
    destruct (for_each (visit_unvisited g) l st1) as [st2|e|]; [|destruct e; try done|done].
    destruct IH as (Hinv2 & Hdone2 & Hext2 & Hl2).
    split; [done|]. split; [done|]. split; [by eapply extends_trans|].
    intros v [->|Hv]%elem_of_cons; [|by apply Hl2]. by apply Hext2.
Qed.

(** A state in which every node has finished rules a cycle out: along an
    edge the position in [order] goes down. *)
Lemma finished_acyclic st :
  dfs_inv g st -> (forall v, v ∈ dict_keys g -> visited st !! v = Some 2) -> ~ cyclic g.
Proof.
  intros Hinv Hall [n Hn].
  assert (forall u v, tc (edge g) u v ->
            forall i, order st !! i = Some u -> exists j, j < i /\ order st !! j = Some v)
    as Hdown.
  { induction 1 as [u v Huv|u w v Huw _ IH]; intros i Hi.
    - by eapply inv_finish.
    - destruct (inv_finish _ _ Hinv _ _ _ Hi Huw) as (j & Hj & Hjw).
      destruct (IH j Hjw) as (k & Hk & Hkv). exists k. split; [lia|done]. }
  assert (n ∈ order st) as [i Hi]%list_elem_of_lookup_1.
  { apply (inv_order _ _ Hinv), Hall. inversion Hn as [? ? [s [Hs _]]|? ? ? [s [Hs _]]];
      apply dict_get_keys; by eexists. }
  revert Hi. induction (lt_wf i) as [i _ IHi]. intros Hi.
  destruct (Hdown n n Hn i Hi) as (j & Hj & Hjn). by apply (IHi j).
Qed.
End Traversal.

(** ** The resolver *)


Lemma dfs_inv_empty `{Collaborators} g : dfs_inv g (DfsState ∅ []).
Proof.
  split; simpl.
  - intros n. rewrite elem_of_nil, lookup_empty. naive_solver.
  - intros n c. by rewrite lookup_empty.
  - intros n. rewrite lookup_empty. by intros [? ?].
  - intros i u v. by rewrite lookup_nil.
  - constructor.
Qed.

(** The resolver either raises [ValueError], and then the references have a
    cycle, or returns every removable block once, each before the blocks it
    references, and then they have none. *)
Lemma get_deletion_order_outcome `{Collaborators} doc removable :
  (forall s x, x ∈ set_iter s <-> x ∈ s) ->
  (forall b, b ∈ removable -> is_Some (blocks_get doc b)) ->
  (get_deletion_order doc removable = Raise ValueError /\
   exists n, tc (references doc removable) n n)
  \/
  (exists order,
     get_deletion_order doc removable = Ret order /\
     NoDup order /\
     (forall b, b ∈ order <-> b ∈ removable) /\
     (forall a b, references doc removable a b -> appears_before a b order) /\
     forall n, ~ tc (references doc removable) n n).
Proof.
  intros Hiter Hblocks.
  destruct (build_graph_total doc removable Hblocks) as [g Hg].
  assert (forall a b, edge g a b -> b ∈ dict_keys g) as Hclosed.
  { intros a b Hab. apply (build_graph_edge _ _ _ _ _ Hg) in Hab as (_ & Hb & _).
    by apply (build_graph_keys _ _ _ _ Hg). }
  assert (forall n m, tc (edge g) n m <-> tc (references doc removable) n m) as Htc.
  { intros n m. split; apply (tc_congruence id); intros x y;
      by rewrite (build_graph_edge _ _ _ _ _ Hg). }
  unfold get_deletion_order. rewrite Hg. simpl.
  pose proof (for_each_visit_unvisited Hiter g Hclosed (dict_keys g) (DfsState ∅ [])
                (fun v Hv => Hv) (dfs_inv_empty g)) as Hloop.
  destruct (for_each _ (dict_keys g) (DfsState ∅ [])) as [st|e|]; simpl.
  - right. exists (reverse (order st)).
    destruct Hloop as (Hinv & _ & _ & Hall).
    { intros u. simpl. by rewrite lookup_empty. }
    split; [done|]. split; [rewrite reverse_Permutation; apply Hinv|]. split; [|split].
    + intros b. rewrite elem_of_reverse, (inv_order _ _ Hinv).
      rewrite <- (build_graph_keys _ _ _ b Hg). split; [|apply Hall].
      intros Hb. apply (inv_keys _ _ Hinv). by rewrite Hb.
    + intros a b Hab.
      assert (a ∈ order st) as [i Hi]%list_elem_of_lookup_1.
      { apply (inv_order _ _ Hinv), Hall, (build_graph_keys _ _ _ _ Hg), Hab. }
      apply (build_graph_edge _ _ _ _ _ Hg) in Hab.
      destruct (inv_finish _ _ Hinv _ _ _ Hi Hab) as (j & Hj & Hjb).
      pose proof (lookup_lt_Some _ _ _ Hi) as Hlen.
      exists (length (order st) - S i), (length (order st) - S j).
      split; [lia|]. rewrite !reverse_lookup by lia.
      split; [rewrite <- Hi|rewrite <- Hjb]; f_equal; lia.
    + intros n Hn%Htc. by apply (finished_acyclic g st Hinv Hall); exists n.
  - left. destruct e; try (exfalso; apply Hloop; intros u; simpl; by rewrite lookup_empty).
    split; [done|]. destruct Hloop as [n Hn].
    { intros u. simpl. by rewrite lookup_empty. }
    exists n. by apply Htc.
  - exfalso. apply Hloop. intros u. simpl. by rewrite lookup_empty.
Qed.

(** A relation along which a rank goes down has no cycle. *)
Lemma ranked_acyclic {A : Type} (R : relation A) (rank : A -> nat) :
  (forall a b, R a b -> rank b < rank a) -> forall n, ~ tc R n n.
Proof.
  intros Hrank n Hn.
  assert (forall a b, tc R a b -> rank b < rank a) as Htc.
  { induction 1 as [a b Hab|a b c Hab _ IH]; [by apply Hrank|].
    apply Hrank in Hab. lia. }
  apply Htc in Hn. lia.
Qed.

(** Three names with the first before the second and the second before the
    third, and nothing else in the list. *)
Lemma chain_order {A : Type} (a b c : A) (l : list A) :
  NoDup l -> (forall x, x ∈ l <-> x ∈ [a; b; c]) -> a <> b -> b <> c -> a <> c ->
  appears_before a b l -> appears_before b c l -> l = [a; b; c].
Proof.
  intros Hnd Hl Hab Hbc Hac (i & j & Hij & Hi & Hj) (j' & k & Hjk & Hj' & Hk).
  assert (j' = j) as -> by (eapply NoDup_lookup; eauto).
  assert (l ≡ₚ [a; b; c]) as Hperm.
  { apply NoDup_Permutation; [done| |done].
    repeat constructor; rewrite ?elem_of_cons, ?elem_of_nil; naive_solver. }
  apply Permutation_length in Hperm. simpl in Hperm.
  destruct l as [|x [|y [|z [|? ?]]]]; try discriminate.
  destruct i as [|i]; [|destruct j as [|[|j]]; [lia|lia|]].
  - destruct j as [|[|j]]; [lia| |].
    + destruct k as [|[|[|k]]]; try lia; simpl in *; [congruence|done].
    + destruct k as [|[|[|k]]]; try lia; simpl in *; done.
  - destruct k as [|[|[|k]]]; try lia; simpl in *; done.
Qed.

Lemma set_iter_perm_elem `{Collaborators} :
  (forall s, set_iter s ≡ₚ elements s) -> forall s x, x ∈ set_iter s <-> x ∈ s.
Proof. intros Hperm s x. by rewrite Hperm, elem_of_elements. Qed.

Lemma dict_keys_set_new {V : Type} (d : dict V) k v :
  k ∉ dict_keys d -> dict_keys (dict_set d k v) = dict_keys d ++ [k].
Proof.
  induction d as [|[k0 v0] d IH]; simpl; [done|].
  intros [Hne Hk]%not_elem_of_cons.
  destruct (decide (k0 = k)); [congruence|]. simpl. by rewrite IH.
Qed.

Lemma graph_init_keys_NoDup removable :
  NoDup removable -> dict_keys (graph_init removable) = removable.
Proof.
  unfold graph_init.
  assert (forall g : graph, NoDup (dict_keys g ++ removable) ->
            dict_keys (foldl (fun g b => dict_set g b ∅) g removable)
            = dict_keys g ++ removable) as Hgen.
  { induction removable as [|b l IH]; intros g Hnd; simpl; [by rewrite app_nil_r|].
    assert (b ∉ dict_keys g) as Hb.
    { apply NoDup_app in Hnd as (_ & Hdisj & _). intros Hin.
      apply (Hdisj b Hin). by left. }
    rewrite IH.
    - by rewrite dict_keys_set_new, <- app_assoc.
    - rewrite dict_keys_set_new, <- app_assoc by done. done. }
  intros Hnd. by rewrite Hgen.
Qed.

Lemma visit_isolated `{Collaborators} (g : graph) node st :
  set_iter ∅ = [] -> dict_get g node = Some ∅ -> visited st !! node = None ->
  visit_unvisited g node st
  = Ret (DfsState (<[node := 2]> (<[node := 1]> (visited st))) (order st ++ [node])).
Proof.
  intros Hiter Hg Hnone. unfold visit_unvisited, dfs_fuel. rewrite Hnone. simpl.
  by rewrite Hnone, Hg, Hiter.
Qed.

Lemma for_each_isolated `{Collaborators} (g : graph) l st :
  set_iter ∅ = [] -> NoDup l ->
  (forall k, k ∈ l -> dict_get g k = Some ∅ /\ visited st !! k = None) ->
  exists v, for_each (visit_unvisited g) l st = Ret (DfsState v (order st ++ l)).
Proof.
  intros Hiter. revert st. induction l as [|k l IH]; intros st Hnd Hl; simpl.
  - exists (visited st). rewrite app_nil_r. by destruct st.
  - apply NoDup_cons in Hnd as [Hk Hnd].
    destruct (Hl k) as [Hg Hnone]; [by left|].
    rewrite visit_isolated by done. simpl.
    destruct (IH (DfsState (<[k := 2]> (<[k := 1]> (visited st))) (order st ++ [k])) Hnd)
      as [v Hv].
    + intros k' Hk'. destruct (Hl k') as [Hg' Hnone']; [by right|].
      split; [done|]. simpl.
      assert (k <> k') by (intros ->; done).
      by rewrite !lookup_insert_ne.
    + exists v. rewrite Hv. simpl. by rewrite <- app_assoc.
Qed.

(** Without a reference that the resolver sees, the nodes finish in the order
    of the list, and the result is the list backwards. *)
Lemma no_references_reversed `{Collaborators} doc removable :
  (forall s, set_iter s ≡ₚ elements s) ->
  (forall b, b ∈ removable -> is_Some (blocks_get doc b)) ->
  NoDup removable ->
  (forall a b, ~ references doc removable a b) ->
  get_deletion_order doc removable = Ret (reverse removable).
Proof.
  intros Hiter Hblocks Hnd Hnone.
  destruct (build_graph_total doc removable Hblocks) as [g Hg].
  assert (set_iter ∅ = []) as Hempty.
  { apply Permutation_nil_r. by rewrite Hiter, elements_empty. }
  assert (dict_keys g = removable) as Hkeys.
  { destruct (build_graph_loop _ _ _ _ Hg) as [-> _]. by apply graph_init_keys_NoDup. }
  unfold get_deletion_order. rewrite Hg. simpl. rewrite Hkeys.
  destruct (for_each_isolated g removable (DfsState ∅ []) Hempty Hnd) as [v ->]; [|done].
  intros k Hk. split; [|apply lookup_empty].
  assert (k ∈ dict_keys g) as [s Hs]%dict_get_keys by by rewrite Hkeys.
  rewrite Hs. f_equal. apply elem_of_equiv_empty_L. intros x Hx.
  apply (Hnone k x), (build_graph_edge _ _ _ _ _ Hg). by exists s.
Qed.

(** ** The purge *)

Lemma block_names_key `{Collaborators} doc b :
  b ∈ block_names doc -> exists name, name ∈ map fst (blocks doc) /\ b = table_key name.
Proof.
  unfold block_names, block_table, dict_keys. rewrite <- list_fmap_compose.
  intros ([name bd] & -> & Hin)%list_elem_of_fmap. exists name. split; [|done].
  apply list_elem_of_fmap. by exists (name, bd).
Qed.

Lemma get_removable_blocks_present `{Collaborators} doc b :
  b ∈ get_removable_blocks doc -> is_Some (blocks_get doc b).
Proof.
  intros [_ Hb]%list_elem_of_filter. unfold blocks_get.
  apply dict_get_keys. pose proof Hb as (name & _ & ->)%block_names_key.
  by rewrite table_key_idempotent.
Qed.

Lemma longest_first_in_order (l : list string) :
  in_order (fun x y => len y <= len x) (sorted len (fun k1 k2 => Nat.ltb k2 k1) l).
Proof.
  intros i j x y Hij Hi Hj.
  assert (may_follow len (fun k1 k2 => Nat.ltb k2 k1) x y) as Hxy.
  { eapply (sorted_in_order len (fun k1 k2 => Nat.ltb k2 k1)); [..|exact Hij|exact Hi|exact Hj].
    - intros k. apply Nat.ltb_irrefl.
    - intros a b c Hab%Nat.ltb_lt Hbc%Nat.ltb_lt. apply Nat.ltb_lt. lia.
    - intros a b Hab%Nat.ltb_ge Hba%Nat.ltb_ge. lia. }
  unfold may_follow in Hxy. apply Nat.ltb_ge in Hxy. lia.
Qed.

(** The key of a name that the hypothesis on the keys covers. *)
Ltac key_of Hkey name :=
  let K := fresh "K" in
  assert (table_key name = lower name) as K
    by (apply Hkey; rewrite !elem_of_cons; tauto);
  change (lower name) with ltac:(let v := eval vm_compute in (lower name) in exact v) in K.

(** C1, where the code departs from it.  The removable blocks that
    [purge_blocks] hands to the resolver are the keys of the block table, in
    lower case, and the resolver compares the name of an INSERT with those
    keys letter for letter.  For blocks A, B and C, with an INSERT of B in A
    and an INSERT of C in B, it finds no reference at all: the order is
    c, b, a, the referenced block before the block that references it. *)
Theorem purge_order_misses_references `{Collaborators} :
  (forall s, set_iter s ≡ₚ elements s) ->
  Forall (fun name => table_key name = lower name)
         ["*Model_Space"; "A"; "B"; "C"; "a"; "b"; "c"] ->
  get_removable_blocks chain_doc = ["a"; "b"; "c"] /\
  blocks_get chain_doc "a" = Some [insert_of 1 "B"] /\
  blocks_get chain_doc "B" = blocks_get chain_doc "b" /\
  blocks_get chain_doc "b" = Some [insert_of 2 "C"] /\
  blocks_get chain_doc "C" = blocks_get chain_doc "c" /\
  get_deletion_order chain_doc (get_removable_blocks chain_doc) = Ret ["c"; "b"; "a"] /\
  purge_order chain_doc = Ret ["c"; "b"; "a"].
Proof.
  intros Hiter Hkey. rewrite Forall_forall in Hkey.
  key_of Hkey "*Model_Space". key_of Hkey "A". key_of Hkey "B". key_of Hkey "C".
  key_of Hkey "a". key_of Hkey "b". key_of Hkey "c".
  assert (block_table chain_doc
          = [("*model_space", []); ("a", [insert_of 1 "B"]);
             ("b", [insert_of 2 "C"]); ("c", [])]) as Htable.
  { unfold block_table, chain_doc. simpl. by rewrite K, K0, K1, K2. }
  assert (get_removable_blocks chain_doc = ["a"; "b"; "c"]) as Hremovable.
  { unfold get_removable_blocks, block_names. by rewrite Htable. }
  assert (blocks_get chain_doc "a" = Some [insert_of 1 "B"]) as Ha
    by (unfold blocks_get; by rewrite Htable, K3).
  assert (blocks_get chain_doc "b" = Some [insert_of 2 "C"]) as Hb
    by (unfold blocks_get; by rewrite Htable, K4).
  assert (blocks_get chain_doc "c" = Some []) as Hc
    by (unfold blocks_get; by rewrite Htable, K5).
  assert (get_deletion_order chain_doc ["a"; "b"; "c"] = Ret ["c"; "b"; "a"]) as Horder.
  { apply (no_references_reversed chain_doc ["a"; "b"; "c"] Hiter).
    - intros x Hx. rewrite !elem_of_cons, elem_of_nil in Hx.
      destruct Hx as [->|[->|[->|[]]]]; by eexists.
    - repeat constructor; rewrite ?elem_of_cons, ?elem_of_nil; naive_solver.
    - intros x y (Hx & Hy & bd & ent & Hbd & Hent & _ & Hname).
      rewrite !elem_of_cons, elem_of_nil in Hx, Hy.
      destruct Hx as [->|[->|[->|[]]]]; rewrite ?Ha, ?Hb, ?Hc in Hbd;
        injection Hbd as <-;
        [apply list_elem_of_singleton in Hent as ->
        |apply list_elem_of_singleton in Hent as ->
        |by apply elem_of_nil in Hent];
        simpl in Hname; subst y; naive_solver. }
  rewrite Hremovable. repeat split; try done.
  - unfold blocks_get. by rewrite K1, K4.
  - unfold blocks_get. by rewrite K2, K5.
  - unfold purge_order. by rewrite Hremovable, Horder.
Qed.

Lemma purge_order_misses_references_witness :
  @purge_order cooperative chain_doc = Ret ["c"; "b"; "a"].
Proof.
  apply (@purge_order_misses_references cooperative).
  - done.
  - by repeat constructor.
Defined.

(** C3, where the code departs from it.  Blocks A and BB hold an INSERT of
    each other, and the resolver, which looks for the names A and BB among the
    keys a, bb and c, finds no reference and so no cycle: it raises nothing,
    and [purge_blocks] goes through c, bb, a, not through the names by
    length. *)
Theorem purge_order_misses_cycle `{Collaborators} :
  (forall s, set_iter s ≡ₚ elements s) ->
  Forall (fun name => table_key name = lower name)
         ["*Model_Space"; "*Paper_Space"; "A"; "BB"; "C"; "a"; "bb"; "c"] ->
  get_removable_blocks cyclic_doc = ["a"; "bb"; "c"] /\
  blocks_get cyclic_doc "a" = Some [insert_of 1 "BB"] /\
  blocks_get cyclic_doc "BB" = blocks_get cyclic_doc "bb" /\
  blocks_get cyclic_doc "bb" = Some [insert_of 2 "A"] /\
  blocks_get cyclic_doc "A" = blocks_get cyclic_doc "a" /\
  get_deletion_order cyclic_doc (get_removable_blocks cyclic_doc) = Ret ["c"; "bb"; "a"] /\
  purge_order cyclic_doc = Ret ["c"; "bb"; "a"] /\
  sorted len (fun k1 k2 => Nat.ltb k2 k1) (get_removable_blocks cyclic_doc)
  = ["bb"; "a"; "c"].
Proof.
  intros Hiter Hkey. rewrite Forall_forall in Hkey.
  key_of Hkey "*Model_Space". key_of Hkey "*Paper_Space".
  key_of Hkey "A". key_of Hkey "BB". key_of Hkey "C".
  key_of Hkey "a". key_of Hkey "bb". key_of Hkey "c".
  assert (block_table cyclic_doc
          = [("*model_space", []); ("*paper_space", []); ("a", [insert_of 1 "BB"]);
             ("bb", [insert_of 2 "A"]); ("c", [])]) as Htable.
  { unfold block_table, cyclic_doc. simpl. by rewrite K, K0, K1, K2, K3. }
  assert (get_removable_blocks cyclic_doc = ["a"; "bb"; "c"]) as Hremovable.
  { unfold get_removable_blocks, block_names. by rewrite Htable. }
  assert (blocks_get cyclic_doc "a" = Some [insert_of 1 "BB"]) as Ha
    by (unfold blocks_get; by rewrite Htable, K4).
  assert (blocks_get cyclic_doc "bb" = Some [insert_of 2 "A"]) as Hb
    by (unfold blocks_get; by rewrite Htable, K5).
  assert (blocks_get cyclic_doc "c" = Some []) as Hc
    by (unfold blocks_get; by rewrite Htable, K6).
  assert (get_deletion_order cyclic_doc ["a"; "bb"; "c"] = Ret ["c"; "bb"; "a"]) as Horder.
  { apply (no_references_reversed cyclic_doc ["a"; "bb"; "c"] Hiter).
    - intros x Hx. rewrite !elem_of_cons, elem_of_nil in Hx.
      destruct Hx as [->|[->|[->|[]]]]; by eexists.
    - repeat constructor; rewrite ?elem_of_cons, ?elem_of_nil; naive_solver.
    - intros x y (Hx & Hy & bd & ent & Hbd & Hent & _ & Hname).
      rewrite !elem_of_cons, elem_of_nil in Hx, Hy.
      destruct Hx as [->|[->|[->|[]]]]; rewrite ?Ha, ?Hb, ?Hc in Hbd;
        injection Hbd as <-;
        [apply list_elem_of_singleton in Hent as ->
        |apply list_elem_of_singleton in Hent as ->
        |by apply elem_of_nil in Hent];
        simpl in Hname; subst y; naive_solver. }
  rewrite Hremovable. repeat split; try done.
  - unfold blocks_get. by rewrite K2, K5.
  - unfold blocks_get. by rewrite K1, K4.
  - unfold purge_order. by rewrite Hremovable, Horder.
Qed.

Lemma purge_order_misses_cycle_witness :
  @purge_order cooperative cyclic_doc = Ret ["c"; "bb"; "a"].
Proof.
  apply (@purge_order_misses_cycle cooperative).
  - done.
  - by repeat constructor.
Defined.

(** ** The combined export *)

Lemma key_earlier_irrefl k : key_earlier k k = false.
Proof. destruct k as [a|]; simpl; [apply N.ltb_irrefl|done]. Qed.

Lemma key_earlier_trans a b c :
  key_earlier a b = true -> key_earlier b c = true -> key_earlier a c = true.
Proof.
  destruct a as [a|], b as [b|], c as [c|]; simpl; try done.
  rewrite !N.ltb_lt. lia.
Qed.

Lemma key_earlier_total a b :
  key_earlier a b = false -> key_earlier b a = false -> a = b.
Proof.
  destruct a as [a|], b as [b|]; simpl; try done.
  rewrite !N.ltb_ge. intros. f_equal. lia.
Qed.



(** A number in the digits of another script is read as the number it is:
    the file whose number is an Arabic-Indic three goes between a_1.dxf and
    a_5.dxf, and has three characters before its extension. *)
Lemma export_files_reads_other_digits :
  @suffix_number arabic_indic a_three_dxf = Some 3%N /\
  @export_files arabic_indic [a_three_dxf; "a_1.dxf"; "a_5.dxf"]
  = ["a_1.dxf"; a_three_dxf; "a_5.dxf"] /\
  len a_three_dxf = 7.
Proof. by vm_compute. Qed.

(** ** Pruning the layers *)

Lemma filter_ext_elem {A : Type} (P Q : A -> Prop)
    `{!forall x, Decision (P x), !forall x, Decision (Q x)} (l : list A) :
  (forall x, x ∈ l -> P x <-> Q x) -> filter P l = filter Q l.
Proof.
  induction l as [|x l IH]; intros Hext; [done|].
  rewrite !filter_cons, IH by (intros y Hy; apply Hext; by right).
  apply decide_ext, Hext. by left.
Qed.

Lemma layers_remove_all names doc :
  foldl (fun d l => layers_remove l d) doc names
  = set_layers (filter (fun l => layer_name l ∉ names) (layers doc)) doc.
Proof.
  revert doc. induction names as [|n names IH]; intros doc; simpl.
  - destruct doc as [ls ? ? ? ?]. unfold set_layers. simpl. f_equal.
    induction ls as [|l ls IHls]; [done|].
    rewrite filter_cons_True by apply not_elem_of_nil. by rewrite <- IHls at 1.
  - rewrite IH. unfold layers_remove, set_layers. simpl. f_equal.
    rewrite list_filter_filter. apply list_filter_iff. intros l.
    rewrite not_elem_of_cons. naive_solver.
Qed.

Lemma elem_of_append_missing (n : string) (u : list string) (x : string) :
  x ∈ (if name_in n u then u else u ++ [n]) <-> x ∈ u \/ x = n.
Proof.
  unfold name_in. destruct (bool_decide (n ∈ u)) eqn:Hn.
  - apply bool_decide_eq_true in Hn. naive_solver.
  - rewrite elem_of_app, list_elem_of_singleton. done.
Qed.

Lemma remove_unused_layers_filter doc :
  remove_unused_layers doc
  = set_layers (filter (fun l => layer_name l ∈ kept_names doc) (layers doc)) doc.
Proof.
  unfold remove_unused_layers. rewrite layers_remove_all. f_equal.
  apply filter_ext_elem. intros l Hl.
  assert (layer_name l ∈ map layer_name (layers doc)) as Hname
    by by apply list_elem_of_fmap_2.
  rewrite list_elem_of_filter, negb_True. unfold name_in at 1.
  rewrite bool_decide_spec, !elem_of_append_missing.
  unfold kept_names. rewrite elem_of_app, !elem_of_cons, elem_of_nil.
  destruct (decide (layer_name l ∈ map dxf_layer (modelspace doc))); [naive_solver|].
  destruct (decide (layer_name l = "Defpoints")); [naive_solver|].
  destruct (decide (layer_name l = "0")); naive_solver.
Qed.

(** C8. Pruning the unused layers a second time changes nothing: the second
    call returns the document the first call returned, so it deletes no
    layer; the entities are those of the input. *)
Theorem remove_unused_layers_idempotent doc :
  remove_unused_layers (remove_unused_layers doc) = remove_unused_layers doc /\
  modelspace (remove_unused_layers doc) = modelspace doc.
Proof.
  rewrite !remove_unused_layers_filter. split; [|done].
  unfold set_layers, kept_names. simpl. f_equal.
  apply list_filter_filter_l. done.
Qed.

(** C9. Every layer named "Defpoints" or "0" that the document has before
    the unused layers are pruned is still there after, whether or not an
    entity is on it. *)
Theorem remove_unused_layers_keeps_reserved doc l :
  l ∈ layers doc ->
  layer_name l = "Defpoints" \/ layer_name l = "0" ->
  l ∈ layers (remove_unused_layers doc).
Proof.
  intros Hl Hname. rewrite remove_unused_layers_filter. simpl.
  apply list_elem_of_filter. split; [|done].
  unfold kept_names. rewrite elem_of_app, !elem_of_cons. naive_solver.
Qed.

Lemma remove_unused_layers_keeps_reserved_witness :
  modelspace empty_drawing = [] /\
  Layer "Defpoints" 7 (-3) ∈ layers (remove_unused_layers empty_drawing) /\
  Layer "0" 7 (-3) ∈ layers (remove_unused_layers empty_drawing).
Proof.
  split; [reflexivity|].
  split; apply (remove_unused_layers_keeps_reserved empty_drawing); simpl.
  - right. left.
  - by left.
  - left.
  - by right.
Defined.

(** ** Line weights *)

Lemma for_each_in_place_map {A : Type} (body : A -> outcome A) (f : A -> A) (l : list A) :
  (forall x, x ∈ l -> body x = Ret (f x)) -> for_each_in_place body l = Ret (map f l).
Proof.
  induction l as [|x l IH]; intros Hbody; simpl; [done|].
  rewrite (Hbody x) by (by left). simpl.
  rewrite IH by (intros y Hy; apply Hbody; by right). done.
Qed.

Lemma for_each_in_place_raise {A : Type} (body : A -> outcome A) (l : list A) x e :
  x ∈ l -> body x = Raise e ->
  (forall y, y ∈ l -> body y = Raise e \/ body y = Ret y) ->
  for_each_in_place body l = Raise e.
Proof.
  induction l as [|y l IH]; intros Hx Hraise Hbody; simpl.
  - by apply elem_of_nil in Hx.
  - destruct (Hbody y) as [Hy|Hy]; [by left|by rewrite Hy|]. rewrite Hy. simpl.
    apply elem_of_cons in Hx as [->|Hx]; [congruence|].
    rewrite IH; [done..|]. intros z Hz. apply Hbody. by right.
Qed.

(** [int] gives the integer part of the number the float stands for. *)
Lemma py_int_truncates (x : float) (v : Z) :
  py_int x = Ret v ->
  v = Z.quot (Qnum (float_value x)) (Z.pos (Qden (float_value x))).
Proof.
  destruct x as [s|s| |s m e]; simpl; try done; intros [= <-]; [done|].
  destruct e as [|p|p].
  - destruct s; simpl; rewrite ?Z.mul_1_r, Z.quot_1_r; done.
  - assert (Z.shiftl (Z.pos m) (Z.pos p) = Z.pos m * 2 ^ Z.pos p)%Z as ->
      by (apply Z.shiftl_mul_pow2; lia).
    destruct s; simpl Qnum; simpl Qden; rewrite Z.quot_1_r; simpl; lia.
  - assert (Z.shiftl (Z.pos m) (Z.neg p) = Z.pos m / 2 ^ Z.pos p)%Z as ->
      by (change (Z.neg p) with (- Z.pos p)%Z; rewrite Z.shiftl_opp_r;
          apply Z.shiftr_div_pow2; lia).
    assert (0 < 2 ^ Z.pos p)%Z as Hpow by (apply Z.pow_pos_nonneg; lia).
    assert (Z.pos (Z.to_pos (2 ^ Z.pos p)) = 2 ^ Z.pos p)%Z as Hden
      by (apply Z2Pos.id; lia).
    destruct s; simpl Qnum; simpl Qden; rewrite Hden.
    + change (Z.neg m) with (- Z.pos m)%Z. rewrite Z.quot_opp_l by lia.
      simpl. f_equal. symmetry. apply Z.quot_div_nonneg; lia.
    + simpl. symmetry. apply Z.quot_div_nonneg; lia.
Qed.

Lemma change_lineweight_stores `{Collaborators} doc name (w : float) v :
  py_int (float_mul w (float_of_int 10)) = Ret v ->
  change_lineweight doc name w
  = Ret (set_layers
           (map (fun l => if decide (layer_name l = name)
                          then Layer (layer_name l) (layer_color l) (lineweight_setter v)
                          else l)
                (layers doc))
           doc).
Proof.
  intros Hint. unfold change_lineweight.
  rewrite (for_each_in_place_map _
             (fun l => if decide (layer_name l = name)
                       then Layer (layer_name l) (layer_color l) (lineweight_setter v)
                       else l)); [done|].
  intros l _. destruct (decide (layer_name l = name)); [|done]. by rewrite Hint.
Qed.

Lemma change_lineweight_other_name `{Collaborators} doc name (w : float) :
  name ∉ list_current_layers doc -> change_lineweight doc name w = Ret doc.
Proof.
  intros Hname. unfold change_lineweight.
  rewrite (for_each_in_place_map _ id).
  - simpl. rewrite list_fmap_id. by destruct doc.
  - intros l Hl. rewrite decide_False; [done|].
    intros Heq. apply Hname. rewrite <- Heq. by apply list_elem_of_fmap_2.
Qed.

Lemma change_lineweight_raises `{Collaborators} doc name (w : float) e :
  name ∈ list_current_layers doc ->
  py_int (float_mul w (float_of_int 10)) = Raise e ->
  change_lineweight doc name w = Raise e.
Proof.
  intros (l & Hname & Hl)%list_elem_of_fmap Hint. unfold change_lineweight.
  rewrite (for_each_in_place_raise _ _ l e); [done|done|..].
  - by rewrite decide_True, Hint.
  - intros y _. destruct (decide (layer_name y = name)); [left|by right].
    by rewrite Hint.
Qed.

Lemma set_lineweight_names (n : string) (w : Z) (ls : list layer) :
  map layer_name
      (map (fun x => if decide (layer_name x = n)
                     then Layer (layer_name x) (layer_color x) w else x) ls)
  = map layer_name ls.
Proof.
  induction ls as [|x ls IH]; simpl; [done|]. rewrite IH. f_equal.
  by destruct (decide (layer_name x = n)).
Qed.

Lemma NoDup_fmap_elem {A B : Type} (f : A -> B) (l : list A) x y :
  NoDup (map f l) -> x ∈ l -> y ∈ l -> f x = f y -> x = y.
Proof.
  induction l as [|a l IH]; simpl; [by intros _ ?%elem_of_nil|].
  intros [Ha Hnd]%NoDup_cons [->|Hx]%elem_of_cons [->|Hy]%elem_of_cons Hf; auto.
  - exfalso. apply Ha. rewrite Hf. by apply list_elem_of_fmap_2.
  - exfalso. apply Ha. rewrite <- Hf. by apply list_elem_of_fmap_2.
Qed.

(** The product is taken in floats, and the setter has the last word: ten
    times 0.3 is the float 3, although the float 0.3 is below three tenths;
    for 0.26 the layer holds 5, the valid line weight after 2, and for -0.26
    the default -3. *)
Lemma change_lineweight_samples :
  py_int (float_mul (float_literal 3 10) (float_of_int 10)) = Ret 3%Z /\
  (Qfloor (float_value (float_literal 3 10) * 10) = 2)%Z /\
  @change_lineweight cooperative one_layer_drawing "Walls" (float_literal 26 100)
  = Ret (set_layers [Layer "Walls" 1 5] one_layer_drawing) /\
  @change_lineweight cooperative one_layer_drawing "Walls" (float_literal (-26) 100)
  = Ret (set_layers [Layer "Walls" 1 (-3)] one_layer_drawing) /\
  @change_lineweight cooperative one_layer_drawing "walls" (float_literal 26 100)
  = Ret one_layer_drawing.
Proof. by vm_compute. Qed.

(** C5, as the code has it.  [change_lineweight] leaves a document without a
    layer of exactly that name as it is.  Otherwise it takes [int] of the
    float product of the weight and 10: when that product is not a number the
    call raises what [int] raises, and when it is, its integer part, the
    fraction dropped and not rounded, is assigned to the line weight of every
    layer of that name, which is one layer when names are unique; the layer
    then holds what the setter of [ezdxf] makes of that value.  Name and
    color of the layer, the other layers and the rest of the document stay as
    they were. *)
Theorem change_lineweight_truncates `{Collaborators} doc name (w : float) :
  (name ∉ list_current_layers doc -> change_lineweight doc name w = Ret doc) /\
  (forall e, name ∈ list_current_layers doc ->
     py_int (float_mul w (float_of_int 10)) = Raise e ->
     change_lineweight doc name w = Raise e) /\
  (forall v, py_int (float_mul w (float_of_int 10)) = Ret v ->
     let product := float_value (float_mul w (float_of_int 10)) in
     v = Z.quot (Qnum product) (Z.pos (Qden product)) /\
     exists doc',
       change_lineweight doc name w = Ret doc' /\
       layers doc'
       = map (fun l => if decide (layer_name l = name)
                       then Layer (layer_name l) (layer_color l) (lineweight_setter v)
                       else l)
             (layers doc) /\
       (NoDup (list_current_layers doc) ->
        forall l1 l2, l1 ∈ layers doc' -> l2 ∈ layers doc' ->
                      layer_name l1 = name -> layer_name l2 = name -> l1 = l2) /\
       blocks doc' = blocks doc /\
       linetypes doc' = linetypes doc /\
       styles doc' = styles doc /\
       modelspace doc' = modelspace doc).
Proof.
  split; [apply change_lineweight_other_name|]. split.
  - intros e. apply change_lineweight_raises.
  - intros v Hint. split; [by apply py_int_truncates|].
    eexists. split; [by apply change_lineweight_stores|].
    split; [done|]. split; [|done].
    simpl. intros Hnd l1 l2 H1 H2 Hn1 Hn2.
    eapply (NoDup_fmap_elem layer_name); [|exact H1|exact H2|congruence].
    by rewrite set_lineweight_names.
Qed.

Lemma change_lineweight_truncates_witness :
  @change_lineweight cooperative one_layer_drawing "Walls" (float_literal 56 100)
  = Ret (set_layers [Layer "Walls" 1 5] one_layer_drawing).
Proof.
  destruct (@change_lineweight_truncates cooperative one_layer_drawing "Walls"
              (float_literal 56 100)) as (_ & _ & Hstore).
  destruct (Hstore 5%Z eq_refl) as (_ & doc' & -> & Hlayers & _ & Hb & Hlt & Hs & Hm).
  destruct doc' as [ls bs lts ss msp]. simpl in *. by subst.
Defined.

(** The claim as the specification states it fails for the weight 0.56, with
    the setter storing the valid line weights as they are: ten times the
    weight is 5.6, which rounds to 6, and the layer gets 5. *)
Lemma change_lineweight_not_rounded :
  ~ (forall doc name (w : float) doc' l,
       float_nonneg w -> NoDup (list_current_layers doc) ->
       @change_lineweight cooperative doc name w = Ret doc' ->
       l ∈ layers doc' -> layer_name l = name ->
       layer_lineweight l = round_half_even (float_value w * 10)).
Proof.
  intros Hclaim.
  specialize (Hclaim one_layer_drawing "Walls" (float_literal 56 100)
                (set_layers [Layer "Walls" 1 5] one_layer_drawing) (Layer "Walls" 1 5)).
  specialize (Hclaim eq_refl ltac:(apply (NoDup_singleton "Walls")) eq_refl).
  specialize (Hclaim ltac:(by left) eq_refl).
  vm_compute in Hclaim. discriminate.
Qed.

(** ** The revision clouds *)

(** C2, where the code departs from it.  A line on REV_A followed by a closed
    polyline on REV_B, both layers taking clouds: the polyline is replaced by
    one cloud, and the cloud is put on REV_A, the layer of the line, not on
    REV_B, the layer of the polyline it replaces. *)
Theorem create_revcloud_layer_of_first_entity `{Collaborators} :
  create_revcloud [rev_line; rev_boundary] ["REV_A"; "REV_B"] arc_radius
  = (do cloud <- revcloud_add_entity [rev_line] (vertices rev_boundary) arc_radius;
     Ret [rev_line; set_layer "REV_A" cloud]) /\
  dxf_layer rev_boundary = "REV_B".
Proof.
  split; [|reflexivity].
  destruct H as [? ? ? ? ? ? ? ? ? ? add_cloud]. unfold create_revcloud. simpl.
  change (foldl _ _ _) with ([rev_line], [vertices rev_boundary], ["REV_A"; "REV_B"]).
  simpl. by destruct (add_cloud _ _ _).
Qed.

(** ** The logo merge *)

(** C6, where the code departs from it.  Two logo files that differ only in
    the pattern and the description of the line type DASHED2 leave the same
    target document: [change_logos] passes the name of the line type on and
    nothing else of it. *)
Theorem change_logos_drops_linetype_pattern `{Collaborators} :
  change_logos 0 (logo_with_linetype
                    (Linetype "DASHED2" (Some [1; -1]%Q) (Some "Dashed")))
               one_layer_drawing
  = change_logos 0 (logo_with_linetype
                      (Linetype "DASHED2" (Some [3; -2]%Q) (Some "Dash long")))
                 one_layer_drawing /\
  change_logos 0 (logo_with_linetype
                    (Linetype "DASHED2" (Some [1; -1]%Q) (Some "Dashed")))
               one_layer_drawing
  = (do created <- linetypes_add "DASHED2";
     Ret (set_linetypes [created] one_layer_drawing)).
Proof.
  split; [reflexivity|].
  destruct H as [? ? ? ? ? ? ? ? ? add_linetype ?]. vm_compute.
  by destruct (add_linetype _).
Qed.

(** ** The pipeline *)

(** C4, where the code departs from it.  The logo file has a line on its
    layer LOGO and the drawing has no such layer: the pipeline ends well and
    the saved document holds the copy of that line, on a layer that is not in
    its layer table. *)
Theorem adjust_document_dangling_layer :
  exists out copied,
    @adjust_document cooperative 0 logo_doc wall_table [] wall_drawing = Ret out /\
    @copy_entity cooperative logo_line = Some copied /\
    copied ∈ modelspace out /\
    dxf_layer copied = "LOGO" /\
    map layer_name (layers out) = ["0"; "A-WALL"].
Proof.
  eexists _, logo_line. split; [by vm_compute|]. split; [done|].
  split; [|done]. simpl. right. left.
Qed.

Lemma for_each_invariant {S A : Type} (P : S -> Prop) (body : A -> S -> outcome S)
    (l : list A) (s s' : S) :
  for_each body l s = Ret s' -> P s ->
  (forall x s s', body x s = Ret s' -> P s -> P s') -> P s'.
Proof.
  revert s. induction l as [|x l IH]; simpl; intros s Hrun Hs Hbody.
  - by injection Hrun as <-.
  - apply bind_Ret_inv in Hrun as (s1 & Hx & Hrun). eauto.
Qed.

Lemma logo_copy_entities_app `{Collaborators} msp_source msp_target :
  logo_copy_entities msp_source msp_target = msp_target ++ omap copy_entity msp_source.
Proof.
  unfold logo_copy_entities. revert msp_target.
  induction msp_source as [|e l IH]; intros m; simpl; [by rewrite app_nil_r|].
  rewrite IH. destruct (copy_entity e); simpl; [|done].
  by rewrite <- app_assoc.
Qed.

Lemma logo_copy_linetypes_modelspace `{Collaborators} source doc doc' :
  logo_copy_linetypes source doc = Ret doc' -> modelspace doc' = modelspace doc.
Proof.
  intros Hrun.
  apply (for_each_invariant (fun d => modelspace d = modelspace doc) _ _ _ _ Hrun);
    [done|].
  intros lt d d' Hbody Hd. destruct (in_table _ _); [by injection Hbody as <-|].
  apply bind_Ret_inv in Hbody as (created & _ & [= <-]). done.
Qed.

Lemma logo_copy_styles_modelspace `{Collaborators} source doc :
  modelspace (logo_copy_styles source doc) = modelspace doc.
Proof.
  unfold logo_copy_styles.
  apply (foldl_invariant (fun d => modelspace d = modelspace doc)); [done|].
  intros d ts _ Hd. by destruct (in_table _ _).
Qed.

Lemma delete_images_subset (msp images : list entity) e :
  e ∈ foldl (fun m image => delete_entity image m) msp images -> e ∈ msp.
Proof.
  revert e. apply (foldl_invariant (fun m => forall e, e ∈ m -> e ∈ msp)); [done|].
  intros m image _ Hm e [_ He]%list_elem_of_filter. by apply Hm.
Qed.

(** What [change_logos] leaves in the target space: the entities it had, less
    the images, followed by the copies of the entities of the logo file. *)
Lemma change_logos_modelspace `{Collaborators} fuel doc_source doc_target doc' :
  change_logos fuel doc_source doc_target = Ret doc' ->
  exists msp_source msp_target,
    logo_source_space fuel doc_source = Ret msp_source /\
    (forall e, e ∈ msp_target -> e ∈ modelspace doc_target) /\
    modelspace doc' = msp_target ++ omap copy_entity msp_source.
Proof.
  unfold change_logos, logo_source_space. intros Hrun.
  apply bind_Ret_inv in Hrun as (msp_source & -> & Hrun). simpl.
  apply bind_Ret_inv in Hrun as (source' & -> & Hrun). simpl.
  apply bind_Ret_inv in Hrun as (target' & Hlt & [= <-]).
  apply logo_copy_linetypes_modelspace in Hlt. simpl in *.
  eexists _, _. split; [done|]. split; [apply delete_images_subset|].
  by rewrite logo_copy_entities_app, logo_copy_styles_modelspace, Hlt.
Qed.

Lemma create_revcloud_scan_step revcloud_layers msp polylines names e :
  (create_revcloud_scan revcloud_layers (msp, polylines, names) e).1.1
  = if is_boundary revcloud_layers e then delete_entity e msp else msp.
Proof.
  unfold create_revcloud_scan, is_boundary.
  destruct (name_in (dxf_layer e) revcloud_layers); [|done].
  destruct (bool_decide (dxftype e = "LWPOLYLINE")); [|done].
  by destruct (is_closed e).
Qed.

(** The first pass of [create_revcloud] leaves the entities that share no
    handle with a boundary. *)
Lemma create_revcloud_scan_space revcloud_layers (l msp : list entity) polylines names :
  (foldl (create_revcloud_scan revcloud_layers) (msp, polylines, names) l).1.1
  = filter (outlives revcloud_layers l) msp.
Proof.
  revert msp polylines names.
  induction l as [|e l IH]; intros msp polylines names; [simpl|cbn [foldl]].
  - symmetry. clear. induction msp as [|x msp IHm]; [done|].
    rewrite filter_cons_True by constructor. by rewrite IHm.
  - pose proof (create_revcloud_scan_step revcloud_layers msp polylines names e) as Hstep.
    destruct (create_revcloud_scan revcloud_layers (msp, polylines, names) e)
      as [[msp' polylines'] names'].
    simpl in Hstep. subst msp'. rewrite IH.
    destruct (is_boundary revcloud_layers e) eqn:Hb.
    + unfold delete_entity. rewrite list_filter_filter.
      apply list_filter_iff. intros x. unfold outlives. rewrite Forall_cons, Hb.
      split; [intros [? ?]; split; [by intros _|done]|].
      intros [Hx ?]. split; [done|]. by apply Hx.
    + apply list_filter_iff. intros x. unfold outlives. rewrite Forall_cons, Hb.
      split; [by split|by intros [_ ?]].
Qed.

Lemma create_revcloud_space `{Collaborators} msp revcloud_layers radius msp' :
  create_revcloud msp revcloud_layers radius = Ret msp' ->
  exists clouds, msp' = filter (outlives revcloud_layers msp) msp ++ clouds.
Proof.
  unfold create_revcloud.
  pose proof (create_revcloud_scan_space revcloud_layers msp msp [] []) as Hscan.
  destruct (foldl _ _ msp) as [[kept polylines] names]. simpl in Hscan. subst kept.
  generalize (filter (outlives revcloud_layers msp) msp) as kept.
  generalize (zip polylines names) as jobs. clear.
  intros jobs. induction jobs as [|[polyline layer] jobs IH]; intros kept; simpl.
  - intros [= <-]. exists []. by rewrite app_nil_r.
  - intros Hrun. apply bind_Ret_inv in Hrun as (m1 & Hadd & Hrun).
    apply bind_Ret_inv in Hadd as (cloud & _ & [= <-]).
    apply IH in Hrun as [clouds ->]. exists (set_layer layer cloud :: clouds).
    by rewrite <- app_assoc.
Qed.

Lemma remove_unused_layers_modelspace doc :
  modelspace (remove_unused_layers doc) = modelspace doc.
Proof. by rewrite remove_unused_layers_filter. Qed.

(** C10.  With a copy that keeps color, line weight and line type, as
    [entity.copy()] does, the model space the pipeline saves is made of the
    entities that were there before the logo merge, all reset to BYLAYER, and
    of the copies of the entities of the logo file, both less what the cloud
    pass deleted, followed by the clouds.  The reset comes before the merge
    and nothing after the merge touches the styling: a copy that the cloud
    pass does not delete is in the output with the color, the line weight and
    the line type its original has in the logo file, BYLAYER or not. *)
Theorem logo_copies_keep_style `{Collaborators} fuel logo df revcloud_layers doc out :
  (forall e copied, copy_entity e = Some copied -> same_style e copied) ->
  adjust_document fuel logo df revcloud_layers doc = Ret out ->
  exists msp_source msp_target clouds,
    logo_source_space fuel logo = Ret msp_source /\
    Forall inherits_from_layer msp_target /\
    modelspace out
    = filter (outlives revcloud_layers (msp_target ++ omap copy_entity msp_source))
             (msp_target ++ omap copy_entity msp_source)
      ++ clouds /\
    forall e copied,
      e ∈ msp_source -> copy_entity e = Some copied ->
      outlives revcloud_layers (msp_target ++ omap copy_entity msp_source) copied ->
      copied ∈ modelspace out /\ same_style e copied.
Proof.
  unfold adjust_document. intros Hcopy Hrun.
  apply bind_Ret_inv in Hrun as (msp1 & _ & Hrun).
  apply bind_Ret_inv in Hrun as (doc1 & _ & Hrun).
  apply bind_Ret_inv in Hrun as (doc2 & _ & Hrun).
  apply bind_Ret_inv in Hrun as (doc3 & Hlogos & Hrun).
  apply bind_Ret_inv in Hrun as (msp4 & Hclouds & [= <-]).
  apply change_logos_modelspace in Hlogos
    as (msp_source & msp_target & Hsource & Htarget & Hmerged).
  rewrite remove_unused_layers_modelspace, Hmerged in Hclouds.
  apply create_revcloud_space in Hclouds as [clouds ->].
  exists msp_source, msp_target, clouds. simpl.
  split; [done|]. split; [|split; [done|]].
  - apply Forall_forall. intros e He%Htarget. simpl in He.
    apply list_elem_of_fmap in He as (e0 & -> & _). by repeat split.
  - intros e copied He Hcopied Hout. split; [|by apply Hcopy].
    apply elem_of_app. left. apply list_elem_of_filter. split; [done|].
    apply elem_of_app. right. apply list_elem_of_omap. by exists e.
Qed.

Lemma logo_copies_keep_style_witness :
  exists out copied,
    @adjust_document cooperative 0 logo_doc wall_table [] wall_drawing = Ret out /\
    copied ∈ modelspace out /\
    dxf_color copied = 1%Z /\ dxf_lineweight copied = 50%Z /\
    dxf_linetype copied = "CONTINUOUS".
Proof.
  eexists _, logo_line. split; [by vm_compute|]. split; [|done].
  destruct (@logo_copies_keep_style cooperative 0 logo_doc wall_table [] wall_drawing _
              ltac:(by intros e copied [= <-]) eq_refl)
    as (msp_source & msp_target & clouds & Hsource & _ & _ & Hcopies).
  apply (Hcopies logo_line); [|done|].
  - vm_compute in Hsource. injection Hsource as <-. by left.
  - apply Forall_forall. intros b _ Hb. by vm_compute in Hb.
Defined.

(** * Further properties of the module *)

(** ** Layers *)

(** X1. [create_layer] looks the name up by its key, so in any case of
    letters.  With a layer of that key in the table the document is returned
    as it is, whatever color was asked for.  Without one it is
    [doc.layers.add] that decides: the layer it makes goes to the end of the
    table, and what it raises is raised by [create_layer].  A document that
    is returned has the layers it had, in their places and unchanged, and its
    model space and blocks; the key asked for is in the table afterwards, and
    unique keys stay unique. *)
Theorem create_layer_keeps_existing `{Collaborators} doc name color :
  (table_key name ∈ layer_keys doc -> create_layer doc name color = Ret doc) /\
  (table_key name ∉ layer_keys doc ->
   create_layer doc name color
   = (do created <- layers_add name color;
      Ret (set_layers (layers doc ++ [created]) doc))) /\
  (forall doc', create_layer doc name color = Ret doc' ->
     (exists added, layers doc' = layers doc ++ added /\
        forall l, l ∈ added -> layers_add name color = Ret l) /\
     modelspace doc' = modelspace doc /\ blocks doc' = blocks doc /\
     table_key name ∈ layer_keys doc' /\
     (NoDup (layer_keys doc) -> NoDup (layer_keys doc'))).
Proof.
  unfold create_layer, in_table, name_in, layer_keys, list_current_layers.
  destruct (bool_decide (table_key name ∈ map table_key (map layer_name (layers doc))))
    eqn:Hin.
  - apply bool_decide_eq_true in Hin. split; [done|]. split; [done|].
    intros doc' [= <-]. split; [|by repeat split].
    exists []. rewrite app_nil_r. split; [done|]. by intros l ?%elem_of_nil.
  - apply bool_decide_eq_false in Hin. split; [done|]. split; [done|].
    intros doc' (created & Hadd & [= <-])%bind_Ret_inv. simpl.
    split; [|split; [done|split; [done|]]].
    + exists [created]. split; [done|]. by intros l ->%list_elem_of_singleton.
    + rewrite !map_app. simpl. rewrite (layers_add_name _ _ _ Hadd).
      split; [apply elem_of_app; right; by left|].
      intros Hnd. apply NoDup_app. split; [done|].
      split; [|apply NoDup_singleton]. by intros x Hx ->%list_elem_of_singleton.
Qed.

Lemma create_layer_keeps_existing_witness :
  @create_layer cooperative wall_drawing "WALLS" 5 = Ret wall_drawing /\
  @create_layer cooperative wall_drawing "Doors" 256
  = Ret (set_layers (layers wall_drawing ++ [Layer "Doors" 7 (-3)]) wall_drawing) /\
  @create_layer cooperative wall_drawing "Doors" (-3) = Raise DXFValueError.
Proof.
  split; [|split].
  - apply (@create_layer_keeps_existing cooperative wall_drawing "WALLS" 5).
    eapply bool_decide_eq_true_1. reflexivity.
  - rewrite (proj1 (proj2 (@create_layer_keeps_existing cooperative wall_drawing
                             "Doors" 256))); [reflexivity|].
    eapply bool_decide_eq_false_1. reflexivity.
  - rewrite (proj1 (proj2 (@create_layer_keeps_existing cooperative wall_drawing
                             "Doors" (-3)))); [reflexivity|].
    eapply bool_decide_eq_false_1. reflexivity.
Defined.

Lemma set_layer_same e : set_layer (dxf_layer e) e = e.
Proof. by destruct e. Qed.

(** X2. [change_layer] leaves no entity on the source layer when the
    destination is another layer: the entities that were on it are on the
    destination, in their places and with all other attributes kept, and the
    entities of other layers are untouched.  With the destination equal to
    the source nothing changes. *)
Theorem change_layer_moves_all msp layer dest_layer :
  (layer <> dest_layer ->
   Forall (fun e => dxf_layer e <> layer) (change_layer msp layer dest_layer)) /\
  (forall i e, msp !! i = Some e -> dxf_layer e = layer ->
     change_layer msp layer dest_layer !! i = Some (set_layer dest_layer e)) /\
  (forall i e, msp !! i = Some e -> dxf_layer e <> layer ->
     change_layer msp layer dest_layer !! i = Some e) /\
  length (change_layer msp layer dest_layer) = length msp /\
  change_layer msp layer layer = msp.
Proof.
  unfold change_layer. split; [|split; [|split; [|split]]].
  - intros Hne. apply Forall_forall. intros e' (e & -> & _)%list_elem_of_fmap.
    destruct (decide (dxf_layer e = layer)); simpl; congruence.
  - intros i e Hi He. rewrite list_lookup_fmap, Hi. simpl.
    by rewrite decide_True.
  - intros i e Hi He. rewrite list_lookup_fmap, Hi. simpl.
    by rewrite decide_False.
  - apply length_map.
  - induction msp as [|e msp IH]; simpl; [done|]. rewrite IH. f_equal.
    destruct (decide (dxf_layer e = layer)) as [<-|]; [apply set_layer_same|done].
Qed.

(** X3. [remove_unused_layers] removes exactly the layers that no entity of
    the model space is on and that are not reserved, whatever the entities
    inside block definitions are on; the layers it keeps stay in their order
    and unique names stay unique, and a layer that an entity of the model
    space is on is never removed. *)
Theorem remove_unused_layers_exact doc :
  (forall l, l ∈ layers (remove_unused_layers doc) <->
     l ∈ layers doc /\
     (layer_name l ∈ map dxf_layer (modelspace doc)
      \/ layer_name l = "Defpoints" \/ layer_name l = "0")) /\
  (forall e, e ∈ modelspace doc ->
     dxf_layer e ∈ list_current_layers doc ->
     dxf_layer e ∈ list_current_layers (remove_unused_layers doc)) /\
  list_current_layers (remove_unused_layers doc) `sublist_of` list_current_layers doc /\
  (NoDup (list_current_layers doc) ->
   NoDup (list_current_layers (remove_unused_layers doc))) /\
  blocks (remove_unused_layers doc) = blocks doc.
Proof.
  rewrite remove_unused_layers_filter. unfold list_current_layers, kept_names. simpl.
  assert (map layer_name (filter (fun l => layer_name l ∈
            map dxf_layer (modelspace doc) ++ ["Defpoints"; "0"]) (layers doc))
          `sublist_of` map layer_name (layers doc)) as Hsub
    by apply fmap_sublist, sublist_filter.
  split; [|split; [|split; [done|split; [|done]]]].
  - intros l. rewrite list_elem_of_filter, elem_of_app, !elem_of_cons, elem_of_nil.
    naive_solver.
  - intros e He (l & Hl & Hin)%list_elem_of_fmap.
    apply list_elem_of_fmap. exists l. split; [done|].
    apply list_elem_of_filter. split; [|done].
    apply elem_of_app. left. rewrite <- Hl. by apply list_elem_of_fmap_2.
  - intros Hnd. by eapply sublist_NoDup.
Qed.

(** ** Exploding the INSERTs *)

Lemma explode_pass_no_insert `{Collaborators} msp :
  existsb is_insert msp = false -> explode_pass msp = msp.
Proof.
  unfold explode_pass. generalize msp at 2 4 as m.
  induction msp as [|e l IH]; intros m; simpl; [done|].
  intros [He Hl]%orb_false_elim. rewrite He. by apply IH.
Qed.

(** X4. When [explode_drawing] returns, no INSERT is left in the space, and a
    space without INSERT is returned as it is, the loop body never run. *)
Theorem explode_drawing_no_insert `{Collaborators} fuel msp msp' :
  explode_drawing fuel msp = Ret msp' ->
  Forall (fun e => dxftype e <> "INSERT") msp' /\
  (existsb is_insert msp = false -> msp' = msp).
Proof.
  revert msp. induction fuel as [|fuel IH]; intros msp; simpl.
  - destruct (existsb is_insert msp) eqn:Hex; [done|]. intros [= <-].
    split; [|done]. apply Forall_forall. intros e He Hins.
    assert (existsb is_insert msp = true) as Hyes; [|congruence].
    apply existsb_exists. exists e. split; [by apply list_elem_of_In|].
    by apply bool_decide_eq_true.
  - destruct (existsb is_insert msp) eqn:Hex.
    + intros Hrun. apply IH in Hrun as [Hno _]. by split.
    + intros [= <-]. split; [|done]. apply Forall_forall. intros e He Hins.
      assert (existsb is_insert msp = true) as Hyes; [|congruence].
      apply existsb_exists. exists e. split; [by apply list_elem_of_In|].
      by apply bool_decide_eq_true.
Qed.

Lemma explode_drawing_no_insert_witness :
  @explode_drawing cooperative 1 [insert_of 1 "B"; rev_line] = Ret [rev_line] /\
  Forall (fun e => dxftype e <> "INSERT") [rev_line].
Proof.
  split; [reflexivity|].
  apply (@explode_drawing_no_insert cooperative 1 [insert_of 1 "B"; rev_line]).
  reflexivity.
Defined.

Section ExplodeFlat.
Context `{Collaborators}.
Hypothesis explode_flat : forall e, Forall (fun x => dxftype x <> "INSERT") (explode e).

Let step (m : list entity) (e : entity) : list entity :=
  if is_insert e then delete_entity e (m ++ explode e) else m.

Lemma explode_fold_inserts l m x :
  x ∈ foldl step m l -> dxftype x = "INSERT" ->
  x ∈ m /\ forall e, e ∈ l -> dxftype e = "INSERT" -> dxf_handle x <> dxf_handle e.
Proof.
  revert m. induction l as [|e l IH]; intros m; simpl.
  - intros Hx _. split; [done|]. by intros e ?%elem_of_nil.
  - intros Hx Hins. destruct (IH _ Hx Hins) as [Hstep Hl]. unfold step in Hstep.
    unfold is_insert in Hstep. destruct (bool_decide (dxftype e = "INSERT")) eqn:He.
    + apply bool_decide_eq_true in He.
      apply list_elem_of_filter in Hstep as [Hne [Hm|Hex]%elem_of_app].
      * split; [done|]. intros e' [->|He']%elem_of_cons; [done|by apply Hl].
      * pose proof (explode_flat e) as Hflat. rewrite Forall_forall in Hflat.
        by apply Hflat in Hex.
    + apply bool_decide_eq_false in He. split; [done|].
      intros e' [->|He']%elem_of_cons; [done|by apply Hl].
Qed.

Lemma explode_fold_keeps l m x :
  x ∈ m -> (forall e, e ∈ l -> dxftype e = "INSERT" -> dxf_handle x <> dxf_handle e) ->
  x ∈ foldl step m l.
Proof.
  revert m. induction l as [|e l IH]; intros m Hx Hl; simpl; [done|].
  apply IH; [|intros e' He'; apply Hl; by right].
  unfold step, is_insert. destruct (bool_decide (dxftype e = "INSERT")) eqn:He; [|done].
  apply bool_decide_eq_true in He. apply list_elem_of_filter.
  split; [apply Hl; [by left|done]|]. apply elem_of_app. by left.
Qed.

Lemma explode_fold_origin l m x :
  x ∈ foldl step m l ->
  x ∈ m \/ exists e, e ∈ l /\ dxftype e = "INSERT" /\ x ∈ explode e.
Proof.
  revert m. induction l as [|e l IH]; intros m; simpl; [by left|].
  intros [Hstep|(e' & He' & Hins & Hx)]%IH.
  - unfold step, is_insert in Hstep.
    destruct (bool_decide (dxftype e = "INSERT")) eqn:He; [|by left].
    apply bool_decide_eq_true in He.
    apply list_elem_of_filter in Hstep as [_ [Hm|Hex]%elem_of_app]; [by left|].
    right. exists e. split; [by left|done].
  - right. exists e'. split; [by right|done].
Qed.

(** X5. When the blocks hold no INSERT of their own, so that exploding an
    INSERT brings in none, the loop of [explode_drawing] ends after one run
    of its body: no INSERT is left, every other entity whose handle is not
    that of an INSERT is still in the space, and whatever else is in the space
    came out of one of the INSERTs. *)
Theorem explode_drawing_flat_blocks fuel msp :
  explode_drawing (S fuel) msp = Ret (explode_pass msp) /\
  Forall (fun e => dxftype e <> "INSERT") (explode_pass msp) /\
  (forall x, x ∈ msp ->
     (forall e, e ∈ msp -> dxftype e = "INSERT" -> dxf_handle x <> dxf_handle e) ->
     x ∈ explode_pass msp) /\
  (forall x, x ∈ explode_pass msp ->
     x ∈ msp \/ exists e, e ∈ msp /\ dxftype e = "INSERT" /\ x ∈ explode e).
Proof.
  assert (Forall (fun e => dxftype e <> "INSERT") (explode_pass msp)) as Hnone.
  { apply Forall_forall. intros x Hx Hins.
    destruct (explode_fold_inserts msp msp x Hx Hins) as [Hin Hne].
    by apply (Hne x). }
  assert (existsb is_insert (explode_pass msp) = false) as Hex.
  { destruct (existsb is_insert (explode_pass msp)) eqn:Hex; [|done].
    apply existsb_exists in Hex as (x & Hx%list_elem_of_In & Hins%bool_decide_eq_true).
    rewrite Forall_forall in Hnone. by apply Hnone in Hx. }
  split; [|split; [done|split]].
  - simpl. destruct (existsb is_insert msp) eqn:Hmsp.
    + destruct fuel; simpl; by rewrite Hex.
    + by rewrite explode_pass_no_insert.
  - intros x Hx Hne. by apply explode_fold_keeps.
  - intros x Hx. by apply explode_fold_origin.
Qed.
End ExplodeFlat.

Lemma explode_drawing_flat_blocks_witness :
  @explode_drawing cooperative 1 [insert_of 1 "B"; rev_line] = Ret [rev_line].
Proof.
  rewrite (proj1 (@explode_drawing_flat_blocks cooperative
                    ltac:(intros e; constructor) 0 [insert_of 1 "B"; rev_line])).
  reflexivity.
Defined.

(** ** Blocks *)

Lemma build_graph_missing_block `{Collaborators} doc removable g0 b :
  b ∈ removable -> blocks_get doc b = None ->
  for_each (fun block g =>
              match blocks_get doc block with
              | None => Raise TypeError
              | Some block_def => Ret (graph_add_refs block block_def g)
              end) removable g0 = Raise TypeError.
Proof.
  revert g0. induction removable as [|a l IH]; intros g0 Hb Hnone; simpl.
  - by apply elem_of_nil in Hb.
  - destruct (blocks_get doc a) as [bd|] eqn:Ha; simpl; [|done].
    apply elem_of_cons in Hb as [->|Hb]; [congruence|by apply IH].
Qed.

(** X6. A name in the removable list that has no block definition makes
    [get_deletion_order] raise [TypeError], whatever the other blocks
    reference: the graph is built before any cycle is looked for. *)
Theorem get_deletion_order_missing_block `{Collaborators} doc removable b :
  b ∈ removable -> blocks_get doc b = None ->
  get_deletion_order doc removable = Raise TypeError.
Proof.
  intros Hb Hnone. unfold get_deletion_order, build_graph.
  by rewrite (build_graph_missing_block doc removable _ b).
Qed.

Lemma get_deletion_order_missing_block_witness :
  @get_deletion_order cooperative lower_cyclic_doc ["a"; "d"] = Raise TypeError.
Proof.
  apply (@get_deletion_order_missing_block cooperative lower_cyclic_doc ["a"; "d"] "d").
  - right. left.
  - reflexivity.
Defined.

(** X7. When the resolver sees no reference among the names of the removable
    list, no INSERT in their blocks having the name of an entry of the list
    letter for letter, the deletion order is the removable list backwards:
    the nodes finish in the order of the list and the result is reversed at
    the end. *)
Theorem get_deletion_order_no_references `{Collaborators} doc removable :
  (forall s, set_iter s ≡ₚ elements s) ->
  (forall b, b ∈ removable -> is_Some (blocks_get doc b)) ->
  NoDup removable ->
  (forall a b, ~ references doc removable a b) ->
  get_deletion_order doc removable = Ret (reverse removable).
Proof. apply no_references_reversed. Qed.

Lemma get_deletion_order_no_references_witness :
  @get_deletion_order cooperative isolated_doc ["a"; "b"; "c"] = Ret ["c"; "b"; "a"].
Proof.
  apply (@get_deletion_order_no_references cooperative isolated_doc ["a"; "b"; "c"]).
  - done.
  - intros b Hb. rewrite !elem_of_cons, elem_of_nil in Hb.
    destruct Hb as [->|[->|[->|[]]]]; vm_compute; by eexists.
  - repeat constructor; rewrite ?elem_of_cons, ?elem_of_nil; naive_solver.
  - intros a b (Ha & _ & bd & ent & Hbd & Hent & Hty & _).
    rewrite !elem_of_cons, elem_of_nil in Ha.
    destruct Ha as [->|[->|[->|[]]]]; vm_compute in Hbd; injection Hbd as <-.
    + apply list_elem_of_singleton in Hent as ->. discriminate.
    + by apply elem_of_nil in Hent.
    + by apply elem_of_nil in Hent.
Defined.

Lemma lower_chain_references a b :
  @references cooperative lower_chain_doc ["a"; "b"; "c"] a b <->
  (a = "a" /\ b = "b") \/ (a = "b" /\ b = "c").
Proof.
  unfold references. split.
  - intros (Ha & _ & bd & ent & Hbd & Hent & _ & Hname).
    rewrite !elem_of_cons, elem_of_nil in Ha.
    destruct Ha as [->|[->|[->|[]]]]; vm_compute in Hbd; injection Hbd as <-.
    + apply list_elem_of_singleton in Hent as ->. by left.
    + apply list_elem_of_singleton in Hent as ->. by right.
    + by apply elem_of_nil in Hent.
  - intros [[-> ->]|[-> ->]].
    + split; [by left|]. split; [right; by left|].
      exists [insert_of 1 "b"], (insert_of 1 "b"). by repeat split; [left|..].
    + split; [right; by left|]. split; [right; right; by left|].
      exists [insert_of 2 "c"], (insert_of 2 "c"). by repeat split; [left|..].
Qed.

(** X25. Among the names it is called with, the resolver sees the references
    that are spelled as those names: an INSERT whose name is an entry of the
    list letter for letter.  When these have no cycle, it returns every name
    of the list once, and each block before every block it so references.
    For three names a, b, c with a referencing b and b referencing c the
    order is [a; b; c]. *)
Theorem get_deletion_order_topological `{Collaborators} doc removable :
  (forall s, set_iter s ≡ₚ elements s) ->
  (forall b, b ∈ removable -> is_Some (blocks_get doc b)) ->
  (forall n, ~ tc (references doc removable) n n) ->
  exists deletion_order,
    get_deletion_order doc removable = Ret deletion_order /\
    NoDup deletion_order /\
    (forall b, b ∈ deletion_order <-> b ∈ removable) /\
    (forall a b, references doc removable a b -> appears_before a b deletion_order) /\
    (forall A B C,
       A <> B -> B <> C -> A <> C ->
       (forall x, x ∈ removable <-> x ∈ [A; B; C]) ->
       (forall a b, references doc removable a b <-> (a = A /\ b = B) \/ (a = B /\ b = C)) ->
       deletion_order = [A; B; C]).
Proof.
  intros Hiter Hblocks Hacyclic.
  destruct (get_deletion_order_outcome doc removable (set_iter_perm_elem Hiter) Hblocks)
    as [[_ [n Hn]]|(l & Hl & Hnd & Hmem & Hbefore & _)]; [by apply Hacyclic in Hn|].
  exists l. repeat split; try done; try apply Hmem.
  intros A B C HAB HBC HAC Hrem Hrefs. apply chain_order; try done.
  - intros x. by rewrite Hmem.
  - apply Hbefore, Hrefs. by left.
  - apply Hbefore, Hrefs. by right.
Qed.

Lemma get_deletion_order_topological_witness :
  @get_deletion_order cooperative lower_chain_doc ["a"; "b"; "c"] = Ret ["a"; "b"; "c"].
Proof.
  destruct (@get_deletion_order_topological cooperative lower_chain_doc ["a"; "b"; "c"])
    as (l & -> & _ & _ & _ & Hchain).
  - done.
  - intros b Hb. rewrite !elem_of_cons, elem_of_nil in Hb.
    destruct Hb as [->|[->|[->|[]]]]; vm_compute; by eexists.
  - apply (ranked_acyclic _ (fun x => if decide (x = "a") then 2
                                      else if decide (x = "b") then 1 else 0)).
    intros a b [[-> ->]|[-> ->]]%lower_chain_references; vm_compute; lia.
  - f_equal. apply Hchain; try done. apply lower_chain_references.
Defined.

Lemma lower_cyclic_cycle :
  tc (@references cooperative lower_cyclic_doc
        (@get_removable_blocks cooperative lower_cyclic_doc)) "a" "a".
Proof.
  apply tc_l with "bb"; [|apply tc_once].
  - split; [by left|]. split; [right; by left|].
    exists [insert_of 1 "bb"], (insert_of 1 "bb"). by repeat split; [left|..].
  - split; [right; by left|]. split; [by left|].
    exists [insert_of 2 "a"], (insert_of 2 "a"). by repeat split; [left|..].
Qed.

(** X26. When the references the resolver sees among the removable blocks
    have a cycle, the resolver raises [ValueError]; [purge_blocks] does not:
    it returns, having gone through the removable blocks by the length of
    their keys in characters, longest first, keys of equal length in the
    order of the removable list. *)
Theorem purge_blocks_cyclic_fallback `{Collaborators} doc :
  (forall s, set_iter s ≡ₚ elements s) ->
  (exists n, tc (references doc (get_removable_blocks doc)) n n) ->
  get_deletion_order doc (get_removable_blocks doc) = Raise ValueError /\
  exists deletion_order,
    purge_order doc = Ret deletion_order /\
    purge_blocks doc = Ret (foldl try_delete_block doc deletion_order) /\
    deletion_order ≡ₚ get_removable_blocks doc /\
    in_order (fun x y => len y <= len x) deletion_order /\
    forall n, filter (fun x => len x = n) deletion_order
              = filter (fun x => len x = n) (get_removable_blocks doc).
Proof.
  intros Hiter [n Hn].
  destruct (get_deletion_order_outcome doc (get_removable_blocks doc)
              (set_iter_perm_elem Hiter) (get_removable_blocks_present doc))
    as [[Hraise _]|(l & _ & _ & _ & _ & Hacyclic)]; [|by apply Hacyclic in Hn].
  split; [done|].
  exists (sorted len (fun k1 k2 => Nat.ltb k2 k1) (get_removable_blocks doc)).
  assert (purge_order doc
          = Ret (sorted len (fun k1 k2 => Nat.ltb k2 k1) (get_removable_blocks doc)))
    as Horder by (unfold purge_order; by rewrite Hraise).
  split; [done|]. split; [unfold purge_blocks; by rewrite Horder|].
  split; [apply sorted_perm|]. split; [apply longest_first_in_order|].
  intros k. apply sorted_stable. intros k'. apply Nat.ltb_irrefl.
Qed.

Lemma purge_blocks_cyclic_fallback_witness :
  @get_deletion_order cooperative lower_cyclic_doc
     (@get_removable_blocks cooperative lower_cyclic_doc)
  = Raise ValueError /\
  @purge_order cooperative lower_cyclic_doc = Ret ["bb"; "a"; "c"].
Proof.
  split; [|by vm_compute].
  apply (@purge_blocks_cyclic_fallback cooperative lower_cyclic_doc).
  - done.
  - exists "a". apply lower_cyclic_cycle.
Defined.




Lemma dict_get_elem {V : Type} (d : dict V) k v :
  NoDup (dict_keys d) -> (k, v) ∈ d -> dict_get d k = Some v.
Proof.
  induction d as [|[k0 v0] d IH]; simpl; [by intros _ ?%elem_of_nil|].
  intros [Hk0 Hnd]%NoDup_cons [[= -> ->]|Hin]%elem_of_cons.
  - by rewrite decide_True.
  - rewrite decide_False; [by apply IH|].
    intros ->. apply Hk0. apply list_elem_of_fmap. by exists (k, v).
Qed.

Lemma blocks_get_elem `{Collaborators} doc b block_def :
  NoDup (block_names doc) -> (b, block_def) ∈ blocks doc ->
  blocks_get doc (table_key b) = Some block_def.
Proof.
  intros Hnd Hin. unfold blocks_get. rewrite table_key_idempotent.
  apply dict_get_elem; [done|]. unfold block_table.
  apply list_elem_of_fmap. by exists (b, block_def).
Qed.

(** X9. With a [delete_block] that deletes every block nothing inserts,
    unique keys, INSERTs that name their block by its key, no cycle among the
    removable blocks, and no INSERT of a removable block in the model space or
    in the blocks that are not removable,
    [purge_blocks] deletes all the removable block definitions: each is tried
    after the blocks that insert it are gone, and only the blocks that are not
    removable remain. *)
Theorem purge_blocks_deletes_all `{Collaborators} doc :
  (forall s, set_iter s ≡ₚ elements s) ->
  deletes_unreferenced ->
  NoDup (block_names doc) ->
  (forall b block_def, (b, block_def) ∈ blocks doc -> named_by_key block_def) ->
  (forall n, ~ tc (references doc (get_removable_blocks doc)) n n) ->
  (forall b block_def key,
     (b, block_def) ∈ blocks doc -> table_key b ∉ get_removable_blocks doc ->
     key ∈ get_removable_blocks doc -> ~ inserts block_def key) ->
  (forall key, key ∈ get_removable_blocks doc -> ~ inserts (modelspace doc) key) ->
  exists doc',
    purge_blocks doc = Ret doc' /\
    blocks doc'
    = filter (fun b => table_key b.1 ∉ get_removable_blocks doc) (blocks doc) /\
    modelspace doc' = modelspace doc.
Proof.
  intros Hiter Hdelete Hkeys Hspelled Hacyclic Hlayouts Hspace.
  destruct (get_deletion_order_outcome doc (get_removable_blocks doc)
              (set_iter_perm_elem Hiter) (get_removable_blocks_present doc))
    as [[_ [n Hn]]|(l & Hl & Hnd & Hmem & Hbefore & _)]; [by apply Hacyclic in Hn|].
  unfold purge_blocks, purge_order. rewrite Hl. simpl. eexists. split; [done|].
  assert (forall rest p d,
            l = p ++ rest ->
            blocks d = filter (fun b => table_key b.1 ∉ p) (blocks doc) ->
            modelspace d = modelspace doc ->
            blocks (foldl try_delete_block d rest)
            = filter (fun b => table_key b.1 ∉ l) (blocks doc) /\
            modelspace (foldl try_delete_block d rest) = modelspace doc) as Hloop.
  { induction rest as [|a rest IH]; intros p d Hsplit Hd Hmsp; simpl.
    - rewrite app_nil_r in Hsplit. by subst p.
    - assert (a ∉ p) as Hap.
      { rewrite Hsplit in Hnd. apply NoDup_app in Hnd as (_ & Hdisj & _).
        intros Hin. apply (Hdisj a Hin). by left. }
      assert (a ∈ get_removable_blocks doc) as Ha
        by (apply Hmem; rewrite Hsplit, elem_of_app; right; by left).
      destruct (Hdelete d a) as (d' & Hd' & Hblocks' & Hmsp').
      + pose proof Ha as [_ Hkey]%list_elem_of_filter.
        unfold block_names, block_table, dict_keys in *.
        rewrite <- list_fmap_compose in *.
        apply list_elem_of_fmap in Hkey as ([a' bd] & -> & Hin). simpl in *.
        apply list_elem_of_fmap. exists (a', bd). split; [done|].
        rewrite Hd. by apply list_elem_of_filter.
      + intros b bd Hin Hins. rewrite Hd in Hin.
        apply list_elem_of_filter in Hin as [Hbp Hin]. simpl in Hbp.
        destruct (decide (table_key b ∈ get_removable_blocks doc)) as [Hb|Hb];
          [|by apply (Hlayouts b bd a)].
        destruct Hins as (ent & Hent & Hty & Hname).
        destruct (Hbefore (table_key b) a) as (i & j & Hij & Hi & Hj).
        { split; [done|]. split; [done|]. exists bd, ent.
          split; [by apply blocks_get_elem|]. split; [done|]. split; [done|].
          by rewrite <- (Hspelled b bd Hin ent Hent Hty). }
        assert (j = length p) as ->.
        { eapply NoDup_lookup; [exact Hnd|exact Hj|].
          by rewrite Hsplit, list_lookup_middle. }
        apply Hbp. rewrite Hsplit, lookup_app_l in Hi by done.
        by eapply list_elem_of_lookup_2.
      + rewrite Hmsp. by apply Hspace.
      + unfold try_delete_block at 2 4. rewrite Hd'.
        apply (IH (p ++ [a])); [by rewrite <- app_assoc| |congruence].
        rewrite Hblocks', Hd, list_filter_filter. apply list_filter_iff.
        intros [b bd]. simpl. rewrite elem_of_app, list_elem_of_singleton.
        naive_solver. }
  destruct (Hloop l [] doc eq_refl) as [Hblocks Hmsp]; [|done|].
  - symmetry. clear. induction (blocks doc) as [|x bs IH]; [done|].
    rewrite filter_cons_True by apply not_elem_of_nil. by rewrite IH.
  - split; [|done]. rewrite Hblocks.
    apply list_filter_iff. intros [b bd]. simpl. by rewrite Hmem.
Qed.

Lemma purge_blocks_deletes_all_witness :
  exists doc',
    @purge_blocks cooperative lower_chain_doc = Ret doc' /\
    blocks doc' = [("*Model_Space", [])].
Proof.
  destruct (@purge_blocks_deletes_all cooperative lower_chain_doc)
    as (doc' & Hrun & Hblocks & _).
  - done.
  - intros doc key _ _ _. by eexists.
  - repeat constructor; rewrite ?elem_of_cons, ?elem_of_nil; naive_solver.
  - intros b bd Hin ent Hent Hty.
    unfold lower_chain_doc in Hin. simpl in Hin.
    rewrite !elem_of_cons, elem_of_nil in Hin.
    destruct Hin as [[= -> ->]|[[= -> ->]|[[= -> ->]|[[= -> ->]|[]]]]];
      rewrite ?elem_of_cons, ?elem_of_nil in Hent; naive_solver.
  - apply (ranked_acyclic _ (fun x => if decide (x = "a") then 2
                                      else if decide (x = "b") then 1 else 0)).
    intros a b [[-> ->]|[-> ->]]%lower_chain_references; vm_compute; lia.
  - intros b bd key Hin Hb _ (ent & Hent & _).
    unfold lower_chain_doc in Hin. simpl in Hin.
    rewrite !elem_of_cons, elem_of_nil in Hin.
    destruct Hin as [[= -> ->]|[[= -> ->]|[[= -> ->]|[[= -> ->]|[]]]]].
    + by apply elem_of_nil in Hent.
    + exfalso. apply Hb. by left.
    + exfalso. apply Hb. right. by left.
    + exfalso. apply Hb. right. right. by left.
  - intros key _ (ent & Hent & _). by apply elem_of_nil in Hent.
  - exists doc'. split; [done|]. rewrite Hblocks. reflexivity.
Defined.

(** ** The logo merge, further *)

Lemma delete_images_filter (msp images : list entity) :
  foldl (fun m image => delete_entity image m) msp images
  = filter (fun x => Forall (fun image => dxf_handle x <> dxf_handle image) images) msp.
Proof.
  revert msp. induction images as [|image images IH]; intros msp; simpl.
  - symmetry. induction msp as [|x msp IHm]; [done|].
    rewrite filter_cons_True by constructor. by rewrite IHm.
  - rewrite IH. unfold delete_entity. rewrite list_filter_filter.
    apply list_filter_iff. intros x. rewrite Forall_cons. naive_solver.
Qed.

Lemma logo_copy_linetypes_frame `{Collaborators} source doc doc' :
  logo_copy_linetypes source doc = Ret doc' ->
  (exists added, linetypes doc' = linetypes doc ++ added) /\
  layers doc' = layers doc /\ blocks doc' = blocks doc /\
  styles doc' = styles doc /\ modelspace doc' = modelspace doc.
Proof.
  intros Hrun.
  apply (for_each_invariant
           (fun d => (exists added, linetypes d = linetypes doc ++ added) /\
                     layers d = layers doc /\ blocks d = blocks doc /\
                     styles d = styles doc /\ modelspace d = modelspace doc)
           _ _ _ _ Hrun).
  - split; [exists []; by rewrite app_nil_r|done].
  - intros lt d d' Hbody ([added Hadded] & Hrest).
    destruct (in_table _ _); [injection Hbody as <-; split; [by exists added|done]|].
    apply bind_Ret_inv in Hbody as (created & _ & [= <-]). simpl.
    split; [|done]. exists (added ++ [created]). by rewrite Hadded, app_assoc.
Qed.

Lemma logo_copy_styles_frame `{Collaborators} source doc :
  layers (logo_copy_styles source doc) = layers doc /\
  blocks (logo_copy_styles source doc) = blocks doc /\
  linetypes (logo_copy_styles source doc) = linetypes doc /\
  modelspace (logo_copy_styles source doc) = modelspace doc.
Proof.
  unfold logo_copy_styles.
  apply (foldl_invariant (fun d => layers d = layers doc /\ blocks d = blocks doc /\
                                   linetypes d = linetypes doc /\
                                   modelspace d = modelspace doc)); [done|].
  intros d ts _ Hd. by destruct (in_table _ _).
Qed.

(** X10. When [change_logos] returns, the layer table and the block
    definitions of the target are as they were: the merge adds no layer.  The
    model space is what it was without the entities that have the handle of
    one of its IMAGE entities, so that none of its images is left, followed by
    the copies of the entities of the cleaned logo file in their order,
    leaving out those whose copy failed. *)
Theorem change_logos_replaces_images `{Collaborators} fuel doc_source doc_target doc' :
  change_logos fuel doc_source doc_target = Ret doc' ->
  exists msp_source,
    logo_source_space fuel doc_source = Ret msp_source /\
    modelspace doc'
    = filter (not_an_image_of (modelspace doc_target)) (modelspace doc_target)
      ++ omap copy_entity msp_source /\
    Forall (fun x => dxftype x <> "IMAGE")
           (filter (not_an_image_of (modelspace doc_target)) (modelspace doc_target)) /\
    layers doc' = layers doc_target /\
    blocks doc' = blocks doc_target.
Proof.
  unfold change_logos, logo_source_space. intros Hrun.
  apply bind_Ret_inv in Hrun as (msp_source & -> & Hrun). simpl.
  apply bind_Ret_inv in Hrun as (source' & -> & Hrun). simpl.
  apply bind_Ret_inv in Hrun as (target' & Hlt & [= <-]).
  apply logo_copy_linetypes_frame in Hlt as (_ & Hlayers & Hblocks & _ & Hmsp).
  destruct (logo_copy_styles_frame (styles source') target') as (Hl & Hb & _ & Hm).
  simpl in *. eexists. split; [done|].
  rewrite logo_copy_entities_app, Hm, Hmsp, Hl, Hb, Hlayers, Hblocks.
  rewrite delete_images_filter.
  assert (forall x, Forall (fun image => dxf_handle x <> dxf_handle image)
                      (filter is_image (modelspace doc_target))
                    <-> not_an_image_of (modelspace doc_target) x) as Hiff.
  { intros x. unfold not_an_image_of. rewrite !Forall_forall. split.
    - intros Hall image Hin Hty. apply Hall, list_elem_of_filter.
      split; [by apply bool_decide_spec|done].
    - intros Hall image [Hty%bool_decide_spec Hin]%list_elem_of_filter. by apply Hall. }
  rewrite (list_filter_iff _ _ _ Hiff). split; [done|]. split; [|done].
  apply Forall_forall. intros x [Hx Hin]%list_elem_of_filter Hty.
  unfold not_an_image_of in Hx. rewrite Forall_forall in Hx. by apply (Hx x).
Qed.

Lemma change_logos_replaces_images_witness :
  exists doc',
    @change_logos cooperative 0 logo_doc wall_drawing = Ret doc' /\
    modelspace doc' = [wall_line; logo_line] /\
    layers doc' = layers wall_drawing.
Proof.
  eexists. split; [reflexivity|].
  destruct (@change_logos_replaces_images cooperative 0 logo_doc wall_drawing _ eq_refl)
    as (msp_source & _ & _ & _ & Hlayers & _).
  split; [reflexivity|exact Hlayers].
Defined.

Lemma logo_copy_styles_cons `{Collaborators} t source doc :
  logo_copy_styles (t :: source) doc
  = logo_copy_styles source
      (if in_table (style_name t) (map style_name (styles doc)) then doc
       else set_styles
              (styles doc
               ++ [TextStyle (style_name t) (Some (default "arial.ttf" (style_font t)))])
              doc).
Proof. reflexivity. Qed.

(** X11. The text styles of the target after the merge are its own, as they
    were and in their places, followed by one style for each style of the
    source whose key the target did not have yet, under the name of the
    source style and with its font, or "arial.ttf" when it has none; the key
    of every style of the source is then a key of the target, and unique keys
    stay unique.  A style that differs from one of the target in the case of
    its name only is not copied. *)
Theorem logo_copy_styles_union `{Collaborators} source doc :
  (exists added,
     styles (logo_copy_styles source doc) = styles doc ++ added /\
     forall s, s ∈ added ->
       exists t, t ∈ source /\ style_name s = style_name t /\
                 table_key (style_name t) ∉ style_keys doc /\
                 style_font s = Some (default "arial.ttf" (style_font t))) /\
  (forall t, t ∈ source ->
     table_key (style_name t) ∈ style_keys (logo_copy_styles source doc)) /\
  (NoDup (style_keys doc) -> NoDup (style_keys (logo_copy_styles source doc))).
Proof.
  unfold style_keys.
  revert doc. induction source as [|t source IH]; intros doc.
  - split; [|split; [by intros t ?%elem_of_nil|done]].
    exists []. split; [by rewrite app_nil_r|]. by intros s ?%elem_of_nil.
  - rewrite logo_copy_styles_cons. unfold in_table, name_in.
    destruct (bool_decide (table_key (style_name t)
                             ∈ map table_key (map style_name (styles doc)))) eqn:Hin.
    + apply bool_decide_eq_true in Hin.
      destruct (IH doc) as ((added & Hadded & Hprop) & Hall & Hnd).
      split; [|split; [|done]].
      * exists added. split; [done|]. intros s (u & ? & ?)%Hprop.
        exists u. split; [by right|done].
      * intros u [->|Hu]%elem_of_cons; [|by apply Hall].
        rewrite Hadded, !map_app, elem_of_app. by left.
    + apply bool_decide_eq_false in Hin.
      set (new := TextStyle (style_name t) (Some (default "arial.ttf" (style_font t)))).
      destruct (IH (set_styles (styles doc ++ [new]) doc))
        as ((added & Hadded & Hprop) & Hall & Hnd).
      simpl in *. split; [|split].
      * exists (new :: added). split; [by rewrite Hadded, <- app_assoc|].
        intros s [->|Hs]%elem_of_cons.
        -- exists t. split; [by left|done].
        -- destruct (Hprop s Hs) as (u & Hu & Hname & Hnew & Hfont).
           exists u. split; [by right|]. split; [done|]. split; [|done].
           intros Hold. apply Hnew. rewrite !map_app, elem_of_app. by left.
      * intros u [->|Hu]%elem_of_cons; [|by apply Hall].
        rewrite Hadded, !map_app, !elem_of_app. left. right. by left.
      * intros Hdoc. apply Hnd. rewrite !map_app. apply NoDup_app.
        split; [done|]. split; [|apply NoDup_singleton].
        by intros x Hx ->%list_elem_of_singleton.
Qed.

Lemma logo_copy_styles_union_witness :
  styles (@logo_copy_styles cooperative
            [TextStyle "STANDARD" (Some "txt.shx"); TextStyle "Notes" None]
            (set_styles [TextStyle "Standard" (Some "arial.ttf")] one_layer_drawing))
  = [TextStyle "Standard" (Some "arial.ttf"); TextStyle "Notes" (Some "arial.ttf")] /\
  "standard" ∈ @style_keys cooperative
                 (@logo_copy_styles cooperative
                    [TextStyle "STANDARD" (Some "txt.shx"); TextStyle "Notes" None]
                    (set_styles [TextStyle "Standard" (Some "arial.ttf")]
                                one_layer_drawing)).
Proof.
  split; [reflexivity|].
  apply (proj1 (proj2 (@logo_copy_styles_union cooperative
                         [TextStyle "STANDARD" (Some "txt.shx"); TextStyle "Notes" None]
                         (set_styles [TextStyle "Standard" (Some "arial.ttf")]
                                     one_layer_drawing)))
               (TextStyle "STANDARD" (Some "txt.shx"))).
  by left.
Defined.

(** X12. Line types the target already has are never changed by the merge:
    when the loop over the line types returns, those of the target are as
    they were and in their places, and nothing else in the document has
    changed; when the target has the keys of all the names of the source, the
    loop returns the document as it is and adds nothing. *)
Theorem logo_copy_linetypes_keeps_target `{Collaborators} source doc doc' :
  logo_copy_linetypes source doc = Ret doc' ->
  (exists added, linetypes doc' = linetypes doc ++ added) /\
  layers doc' = layers doc /\ blocks doc' = blocks doc /\
  styles doc' = styles doc /\ modelspace doc' = modelspace doc /\
  ((forall lt, lt ∈ source -> table_key (lt_name lt) ∈ linetype_keys doc) -> doc' = doc).
Proof.
  intros Hrun. pose proof (logo_copy_linetypes_frame _ _ _ Hrun) as (? & ? & ? & ? & ?).
  repeat (split; [done|]).
  intros Hall. revert Hrun. unfold logo_copy_linetypes. clear -Hall.
  induction source as [|lt source IH]; simpl; [by intros [= <-]|].
  unfold in_table at 1, name_in.
  rewrite bool_decide_eq_true_2 by (apply Hall; by left).
  simpl. apply IH. intros lt' Hlt'. apply Hall. by right.
Qed.

Lemma logo_copy_linetypes_keeps_target_witness :
  @logo_copy_linetypes cooperative [Linetype "DASHED2" None None] one_layer_drawing
  = Ret (set_linetypes [Linetype "DASHED2" None None] one_layer_drawing) /\
  layers (set_linetypes [Linetype "DASHED2" None None] one_layer_drawing)
  = layers one_layer_drawing.
Proof.
  split; [reflexivity|].
  apply (@logo_copy_linetypes_keeps_target cooperative [Linetype "DASHED2" None None]
           one_layer_drawing).
  reflexivity.
Defined.

(** X13. Nothing in [change_logos] catches a failure of [linetypes.add]: when
    the source has a line type whose key the target lacks and adding a line
    type by its name raises, the loop over the line types raises too. *)
Theorem logo_copy_linetypes_failure `{Collaborators} source doc lt e :
  lt ∈ source -> table_key (lt_name lt) ∉ linetype_keys doc ->
  (forall name, linetypes_add name = Raise e) ->
  logo_copy_linetypes source doc = Raise e.
Proof.
  intros Hlt Hmissing Hadd. unfold logo_copy_linetypes.
  induction source as [|lt0 source IH]; simpl; [by apply elem_of_nil in Hlt|].
  unfold in_table at 1, name_in.
  destruct (bool_decide (table_key (lt_name lt0)
                           ∈ map table_key (map lt_name (linetypes doc)))) eqn:Hin; simpl.
  - apply IH. apply elem_of_cons in Hlt as [->|Hlt]; [|done].
    by apply bool_decide_eq_true in Hin.
  - by rewrite Hadd.
Qed.

Lemma logo_copy_linetypes_failure_witness :
  @logo_copy_linetypes pattern_required [Linetype "DASHED2" (Some [1; -1]%Q) None]
                       one_layer_drawing
  = Raise TypeError.
Proof.
  apply (@logo_copy_linetypes_failure pattern_required _ _
           (Linetype "DASHED2" (Some [1; -1]%Q) None)).
  - by left.
  - by intros ?%elem_of_nil.
  - done.
Defined.

(** ** The revision clouds, further *)

Lemma create_revcloud_scan_lists revcloud_layers msp polylines names e :
  (create_revcloud_scan revcloud_layers (msp, polylines, names) e).1.2
  = polylines ++ (if is_boundary revcloud_layers e then [vertices e] else []) /\
  (create_revcloud_scan revcloud_layers (msp, polylines, names) e).2
  = names ++ (if on_cloud_layer revcloud_layers e then [dxf_layer e] else []).
Proof.
  unfold create_revcloud_scan, is_boundary, on_cloud_layer.
  destruct (name_in (dxf_layer e) revcloud_layers); simpl;
    [|by rewrite !app_nil_r].
  destruct (bool_decide (dxftype e = "LWPOLYLINE")); simpl; [|by rewrite app_nil_r].
  destruct (is_closed e); simpl; by rewrite ?app_nil_r.
Qed.

Lemma create_revcloud_scan_fold_lists revcloud_layers (l msp : list entity)
    polylines names :
  (foldl (create_revcloud_scan revcloud_layers) (msp, polylines, names) l).1.2
  = polylines ++ map vertices (filter (is_boundary revcloud_layers) l) /\
  (foldl (create_revcloud_scan revcloud_layers) (msp, polylines, names) l).2
  = names ++ map dxf_layer (filter (on_cloud_layer revcloud_layers) l).
Proof.
  revert msp polylines names.
  induction l as [|e l IH]; intros msp polylines names; cbn [foldl].
  - simpl. by rewrite !app_nil_r.
  - pose proof (create_revcloud_scan_lists revcloud_layers msp polylines names e)
      as [Hp Ha].
    destruct (create_revcloud_scan revcloud_layers (msp, polylines, names) e)
      as [[m1 p1] a1].
    simpl in Hp, Ha. subst p1 a1. destruct (IH m1
      (polylines ++ (if is_boundary revcloud_layers e then [vertices e] else []))
      (names ++ (if on_cloud_layer revcloud_layers e then [dxf_layer e] else [])))
      as [-> ->].
    rewrite !filter_cons.
    destruct (is_boundary revcloud_layers e), (on_cloud_layer revcloud_layers e);
      simpl; rewrite ?decide_True, ?decide_False by done; simpl;
      by rewrite <- ?app_assoc, ?app_nil_r.
Qed.

(** The lists the first pass of [create_revcloud] records. *)
Lemma create_revcloud_scan_fold revcloud_layers (l msp : list entity) polylines names :
  foldl (create_revcloud_scan revcloud_layers) (msp, polylines, names) l
  = (filter (outlives revcloud_layers l) msp,
     polylines ++ map vertices (filter (is_boundary revcloud_layers) l),
     names ++ map dxf_layer (filter (on_cloud_layer revcloud_layers) l)).
Proof.
  pose proof (create_revcloud_scan_space revcloud_layers l msp polylines names) as Hspace.
  pose proof (create_revcloud_scan_fold_lists revcloud_layers l msp polylines names)
    as [Hp Ha].
  destruct (foldl _ _ l) as [[m p] a]. simpl in *. by subst.
Qed.

Lemma for_each_clouds `{Collaborators} radius jobs kept msp' :
  for_each (fun '(polyline, layer) msp =>
              do revcloud <- revcloud_add_entity msp polyline radius;
              Ret (msp ++ [set_layer layer revcloud]))
           jobs kept = Ret msp' ->
  exists clouds, msp' = kept ++ clouds /\ map dxf_layer clouds = map snd jobs.
Proof.
  revert kept. induction jobs as [|[polyline layer] jobs IH]; intros kept; simpl.
  - intros [= <-]. exists []. by rewrite app_nil_r.
  - intros Hrun. apply bind_Ret_inv in Hrun as (m1 & Hadd & Hrun).
    apply bind_Ret_inv in Hadd as (cloud & _ & [= <-]).
    apply IH in Hrun as (clouds & -> & Hlayers).
    exists (set_layer layer cloud :: clouds). rewrite <- app_assoc. simpl.
    by rewrite Hlayers.
Qed.

Lemma zip_snd_take {A B : Type} (l : list A) (k : list B) :
  map snd (zip l k) = take (length l) k.
Proof.
  revert k. induction l as [|x l IH]; intros [|y k]; simpl; try done.
  by rewrite IH.
Qed.

Lemma filter_length_le {A : Type} (P Q : A -> Prop)
    `{!forall x, Decision (P x), !forall x, Decision (Q x)} (l : list A) :
  (forall x, P x -> Q x) -> length (filter P l) <= length (filter Q l).
Proof.
  intros HPQ. induction l as [|x l IH]; [done|]. rewrite !filter_cons.
  destruct (decide (P x)) as [HP|HP].
  - rewrite decide_True by auto. simpl. lia.
  - destruct (decide (Q x)); simpl; lia.
Qed.

(** X14. When [create_revcloud] returns, the space is what it was without
    the entities that have the handle of a closed polyline on a cloud layer,
    those polylines themselves for a start, and with handles unique nothing
    else is missing; after them comes one new entity for each such polyline.
    The new entities get their layers by position from the layers of all the
    entities on cloud layers, polyline or not, in the order of the space. *)
Theorem create_revcloud_replaces_boundaries `{Collaborators} msp revcloud_layers radius msp' :
  create_revcloud msp revcloud_layers radius = Ret msp' ->
  exists clouds,
    msp' = filter (outlives revcloud_layers msp) msp ++ clouds /\
    Forall (fun x => ~ is_boundary revcloud_layers x)
           (filter (outlives revcloud_layers msp) msp) /\
    (NoDup (map dxf_handle msp) ->
     filter (outlives revcloud_layers msp) msp
     = filter (fun x => ~ is_boundary revcloud_layers x) msp) /\
    length clouds = length (filter (is_boundary revcloud_layers) msp) /\
    map dxf_layer clouds
    = take (length (filter (is_boundary revcloud_layers) msp))
           (map dxf_layer (filter (on_cloud_layer revcloud_layers) msp)).
Proof.
  unfold create_revcloud. rewrite create_revcloud_scan_fold. simpl.
  intros (clouds & -> & Hlayers)%for_each_clouds. exists clouds.
  rewrite zip_snd_take, length_map in Hlayers.
  split; [done|]. split; [|split; [|split; [|done]]].
  - apply Forall_forall. intros x [Hx Hin]%list_elem_of_filter Hb.
    unfold outlives in Hx. rewrite Forall_forall in Hx. by apply (Hx x).
  - intros Hnd. apply filter_ext_elem. intros x Hx. unfold outlives.
    rewrite Forall_forall. split.
    + intros Hall Hb. by apply (Hall x).
    + intros Hnot b Hb Hbound Hhandle. apply Hnot.
      by rewrite (NoDup_fmap_elem dxf_handle msp x b).
  - rewrite <- (length_map dxf_layer clouds), Hlayers, length_take, length_map.
    apply Nat.min_l, filter_length_le.
    intros x Hx. unfold is_boundary in Hx. unfold on_cloud_layer.
    by apply andb_True in Hx as [[? _]%andb_True _].
Qed.

Lemma create_revcloud_replaces_boundaries_witness :
  exists cloud,
    @create_revcloud cooperative [rev_line; rev_boundary] ["REV_A"; "REV_B"] arc_radius
    = Ret [rev_line; cloud] /\
    dxf_layer cloud = "REV_A".
Proof.
  destruct (@create_revcloud_replaces_boundaries cooperative
              [rev_line; rev_boundary] ["REV_A"; "REV_B"] arc_radius _ eq_refl)
    as (clouds & Hspace & _ & _ & Hlen & Hlayers).
  destruct clouds as [|cloud [|? ?]]; try discriminate.
  exists cloud. split; [|by injection Hlayers].
  by injection Hspace as <-.
Defined.

Lemma filter_all {A : Type} (P : A -> Prop) `{!forall x, Decision (P x)} (l : list A) :
  Forall P l -> filter P l = l.
Proof.
  induction 1 as [|x l Hx _ IH]; [done|]. by rewrite filter_cons_True, IH.
Qed.

Lemma filter_none {A : Type} (P : A -> Prop) `{!forall x, Decision (P x)} (l : list A) :
  Forall (fun x => ~ P x) l -> filter P l = [].
Proof.
  induction 1 as [|x l Hx _ IH]; [done|]. by rewrite filter_cons_False, IH.
Qed.

(** X15. A space with no closed polyline on a cloud layer comes back from
    [create_revcloud] as it is, and no cloud is asked for. *)
Theorem create_revcloud_without_boundary `{Collaborators} msp revcloud_layers radius :
  Forall (fun x => ~ is_boundary revcloud_layers x) msp ->
  create_revcloud msp revcloud_layers radius = Ret msp.
Proof.
  intros Hnone. unfold create_revcloud. rewrite create_revcloud_scan_fold. simpl.
  rewrite (filter_none _ _ Hnone). simpl. f_equal.
  apply filter_all, Forall_forall. intros x _. unfold outlives.
  eapply Forall_impl; [exact Hnone|]. by intros b Hb ?.
Qed.

Lemma create_revcloud_without_boundary_witness :
  @create_revcloud cooperative [rev_line; wall_line] ["REV_A"; "REV_B"] arc_radius
  = Ret [rev_line; wall_line].
Proof.
  apply (@create_revcloud_without_boundary cooperative).
  repeat constructor; by vm_compute.
Defined.

(** ** The combined export, further *)

Lemma paperspace_name_inj i j : paperspace_name i = paperspace_name j -> i = j.
Proof.
  unfold paperspace_name. intros Hij.
  assert (forall s, "FL" +:+ s = String "F" (String "L" s)) as Hcons by done.
  rewrite !Hcons in Hij. injection Hij as Hij.
  apply (inj (pretty : nat -> string)) in Hij. lia.
Qed.

Lemma imap_sheets (files : list string) n :
  imap (fun i file => (file, paperspace_name (n + i))) files
  = zip files (map paperspace_name (seq n (length files))).
Proof.
  revert n. induction files as [|f files IH]; intros n; simpl; [done|].
  rewrite Nat.add_0_r. f_equal. rewrite <- IH. apply imap_ext.
  intros i x _. simpl. do 2 f_equal. lia.
Qed.

(** X16. Every file of the combined export gets a sheet of its own: the
    sheet names are pairwise distinct, the files keep the order of
    [export_files], and there are as many sheets as names in the listing that
    end in ".dxf" in any case. *)
Theorem sheet_assignment_distinct `{Unicode} (listing : list string) :
  map fst (sheet_assignment listing) = export_files listing /\
  NoDup (map snd (sheet_assignment listing)) /\
  length (sheet_assignment listing)
  = length (filter (fun f => endswith (lower f) ".dxf") listing).
Proof.
  unfold sheet_assignment.
  rewrite (imap_ext _ (fun i file => (file, paperspace_name (0 + i)))) by done.
  rewrite imap_sheets.
  assert (length (map paperspace_name (seq 0 (length (export_files listing))))
          = length (export_files listing)) as Hlen by by rewrite length_map, length_seq.
  split; [apply fst_zip; lia|]. split.
  - rewrite snd_zip by lia. apply NoDup_fmap_2_strong; [|apply NoDup_seq].
    intros i j _ _. apply paperspace_name_inj.
  - rewrite length_zip, Hlen, Nat.min_id.
    unfold export_files.
    apply Permutation_length, sorted_perm.
Qed.

Lemma str_map_rev_app (g : ascii -> ascii) (s1 s2 : string) :
  String.rev_app (str_map g s1) (str_map g s2) = str_map g (String.rev_app s1 s2).
Proof.
  revert s2. induction s1 as [|c s1 IH]; intros s2; simpl; [done|].
  apply (IH (String c s2)).
Qed.

Lemma rev_lower (f : string) : String.rev (lower f) = lower (String.rev f).
Proof. exact (str_map_rev_app ascii_lower f ""). Qed.

Lemma lower_dxf_no_line_feed (f : string) :
  endswith (lower f) ".dxf" = true ->
  endswith f (String (ascii_of_nat 10) EmptyString) = false.
Proof.
  unfold endswith. rewrite rev_lower.
  change (String.rev ".dxf") with "fxd.".
  change (String.rev (String (ascii_of_nat 10) "")) with (String (ascii_of_nat 10) "").
  destruct (String.rev f) as [|c s]; [done|].
  change (lower (String c s)) with (String (ascii_lower c) (lower s)).
  cbn [String.prefix].
  destruct (ascii_dec "f" (ascii_lower c)) as [Hc|Hc]; [|done]. intros _.
  destruct (ascii_dec (ascii_of_nat 10) c) as [<-|]; [|done].
  by vm_compute in Hc.
Qed.

(** X17. The number of a file is read only behind an extension written
    ".dxf" in lower case: a file of the export whose name ends in another
    spelling, such as ".DXF", has no number, and comes after every file that
    has one. *)
Theorem export_files_other_case_last `{Unicode} (listing : list string) i j f1 f2 n :
  export_files listing !! i = Some f1 ->
  export_files listing !! j = Some f2 ->
  endswith f1 ".dxf" = false ->
  suffix_number f2 = Some n ->
  suffix_number f1 = None /\ j < i.
Proof.
  intros Hi Hj Hcase Hn.
  assert (suffix_number f1 = None) as Hnone.
  { assert (f1 ∈ filter (fun f => endswith (lower f) ".dxf") listing) as Hin.
    { pose proof (sorted_perm suffix_number key_earlier
                    (filter (fun f => endswith (lower f) ".dxf") listing)) as Hperm.
      rewrite <- Hperm. by eapply list_elem_of_lookup_2. }
    apply list_elem_of_filter in Hin as [Hdxf%Is_true_true _].
    unfold suffix_number. cbv zeta.
    by rewrite (lower_dxf_no_line_feed f1 Hdxf), Hcase. }
  split; [done|].
  destruct (decide (j < i)) as [|Hge]; [done|exfalso].
  assert (i <> j) by (intros ->; congruence).
  assert (may_follow suffix_number key_earlier f1 f2) as Horder.
  { eapply (sorted_in_order suffix_number key_earlier);
      [apply key_earlier_irrefl|apply key_earlier_trans|apply key_earlier_total
      | |exact Hi|exact Hj].
    lia. }
  unfold may_follow in Horder. by rewrite Hnone, Hn in Horder.
Qed.

Lemma export_files_other_case_last_witness :
  @export_files arabic_indic ["a_1.DXF"; "a_2.dxf"] = ["a_2.dxf"; "a_1.DXF"] /\
  @suffix_number arabic_indic "a_1.DXF" = None.
Proof.
  split; [reflexivity|].
  apply (@export_files_other_case_last arabic_indic ["a_1.DXF"; "a_2.dxf"] 1 0
           "a_1.DXF" "a_2.dxf" 2);
    reflexivity.
Defined.

(** Dividing a line weight of DXF by ten and multiplying the quotient by ten
    gives the line weight back, in floats. *)
Lemma tenth_round_trip (z : Z) :
  (-3 <= z <= 211)%Z ->
  exists q, int_truediv z 10 = Ret q /\ py_int (float_mul q (float_of_int 10)) = Ret z.
Proof.
  intros Hz.
  pose (ok := fun z => match int_truediv z 10 with
                       | Ret q => match py_int (float_mul q (float_of_int 10)) with
                                  | Ret v => Z.eqb v z
                                  | _ => false
                                  end
                       | _ => false
                       end).
  assert (forallb (fun n => ok (Z.of_nat n - 3)%Z) (seq 0 215) = true) as Hall
    by (vm_compute; reflexivity).
  rewrite forallb_forall in Hall.
  specialize (Hall (Z.to_nat (z + 3)) ltac:(apply in_seq; lia)).
  replace (Z.of_nat (Z.to_nat (z + 3)) - 3)%Z with z in Hall by lia.
  unfold ok in Hall.
  destruct (int_truediv z 10) as [q|e|]; [|done..]. exists q. split; [done|].
  destruct (py_int (float_mul q (float_of_int 10))) as [v|e|]; [|done..].
  f_equal. by apply Z.eqb_eq.
Qed.

Lemma create_layer_inv `{Collaborators} doc name color doc' :
  create_layer doc name color = Ret doc' ->
  (table_key name ∈ layer_keys doc /\ doc' = doc) \/
  (table_key name ∉ layer_keys doc /\
   exists created, layers_add name color = Ret created /\
                   doc' = set_layers (layers doc ++ [created]) doc).
Proof.
  unfold create_layer, in_table, name_in, layer_keys, list_current_layers.
  destruct (bool_decide (table_key name ∈ map table_key (map layer_name (layers doc))))
    eqn:Hin.
  - apply bool_decide_eq_true in Hin. intros [= <-]. by left.
  - apply bool_decide_eq_false in Hin.
    intros (created & Hadd & [= <-])%bind_Ret_inv.
    right. split; [done|]. by exists created.
Qed.

Lemma create_layer_present `{Collaborators} doc name color :
  table_key name ∈ layer_keys doc -> create_layer doc name color = Ret doc.
Proof.
  intros Hin. unfold create_layer, in_table, name_in.
  by rewrite bool_decide_eq_true_2.
Qed.

Lemma create_layer_absent `{Collaborators} doc name color :
  table_key name ∉ layer_keys doc ->
  create_layer doc name color
  = (do created <- layers_add name color;
     Ret (set_layers (layers doc ++ [created]) doc)).
Proof.
  intros Hout. unfold create_layer, in_table, name_in.
  by rewrite bool_decide_eq_false_2.
Qed.

Lemma py_int_returns_or_raises (x : float) :
  (exists v, py_int x = Ret v) \/ (exists e, py_int x = Raise e).
Proof. destruct x; simpl; eauto. Qed.

Lemma set_lineweight_absent (n : string) (w : Z) (ls : list layer) :
  n ∉ map layer_name ls ->
  map (fun x => if decide (layer_name x = n)
                then Layer (layer_name x) (layer_color x) w else x) ls
  = ls.
Proof.
  induction ls as [|x ls IH]; simpl; [done|].
  intros [Hx Hls]%not_elem_of_cons. rewrite decide_False by done. by rewrite IH.
Qed.

(** What [change_lineweight] has done when it returns. *)
Lemma change_lineweight_inv `{Collaborators} doc name (w : float) doc' :
  change_lineweight doc name w = Ret doc' ->
  exists v,
    doc' = set_layers
             (map (fun l => if decide (layer_name l = name)
                            then Layer (layer_name l) (layer_color l) (lineweight_setter v)
                            else l)
                  (layers doc))
             doc /\
    (name ∈ list_current_layers doc ->
     py_int (float_mul w (float_of_int 10)) = Ret v).
Proof.
  intros Hrun.
  destruct (py_int_returns_or_raises (float_mul w (float_of_int 10)))
    as [[v Hint]|[e Hint]].
  - exists v. rewrite (change_lineweight_stores _ _ _ _ Hint) in Hrun.
    injection Hrun as <-. done.
  - destruct (decide (name ∈ list_current_layers doc)) as [Hin|Hout].
    + by rewrite (change_lineweight_raises _ _ _ _ Hin Hint) in Hrun.
    + rewrite change_lineweight_other_name in Hrun by done. injection Hrun as <-.
      exists 0%Z. split; [|done].
      rewrite set_lineweight_absent by done. by destruct doc.
Qed.

Lemma export_copy_layers_step `{Collaborators} l source doc :
  export_copy_layers (l :: source) doc
  = (do doc1 <- export_copy_layer l doc; export_copy_layers source doc1).
Proof. reflexivity. Qed.

(** What the body of the loop under "Copy Layers" leaves of the document. *)
Lemma export_layer_step `{Collaborators} l doc doc' :
  export_copy_layer l doc = Ret doc' ->
  exists added v,
    layers doc'
    = map (fun x => if decide (layer_name x = layer_name l)
                    then Layer (layer_name x) (layer_color x) (lineweight_setter v)
                    else x)
          (layers doc ++ added) /\
    ((added = [] /\ table_key (layer_name l) ∈ layer_keys doc) \/
     (table_key (layer_name l) ∉ layer_keys doc /\
      exists created, added = [created] /\
                      layers_add (layer_name l) (layer_color l) = Ret created)) /\
    ((-3 <= layer_lineweight l <= 211)%Z ->
     layer_name l ∈ map layer_name (layers doc ++ added) ->
     v = layer_lineweight l) /\
    blocks doc' = blocks doc /\ linetypes doc' = linetypes doc /\
    styles doc' = styles doc /\ modelspace doc' = modelspace doc.
Proof.
  unfold export_copy_layer.
  intros (q & Hq & (doc1 & Hcreate & Hchange)%bind_Ret_inv)%bind_Ret_inv.
  apply change_lineweight_inv in Hchange as (v & -> & Hv).
  assert (forall added, layers doc1 = layers doc ++ added ->
            (-3 <= layer_lineweight l <= 211)%Z ->
            layer_name l ∈ map layer_name (layers doc ++ added) ->
            v = layer_lineweight l) as Hweight.
  { intros added Hadded Hrange Hin.
    destruct (tenth_round_trip _ Hrange) as (q' & Hq' & Hint).
    rewrite Hq in Hq'. injection Hq' as <-.
    unfold list_current_layers in Hv. rewrite Hadded in Hv.
    rewrite Hv in Hint by done. by injection Hint. }
  apply create_layer_inv in Hcreate as [[Hin ->]|(Hout & created & Hadd & ->)]; simpl.
  - exists [], v. rewrite app_nil_r. split; [done|]. split; [by left|].
    split; [|done]. rewrite <- (app_nil_r (layers doc)) at 1.
    apply Hweight. by rewrite app_nil_r.
  - exists [created], v. split; [done|]. split; [|split; [by apply Hweight|done]].
    right. split; [done|]. by exists created.
Qed.

Section ExportLayers.
Context `{Collaborators}.

Lemma export_step_keys l doc doc' :
  export_copy_layer l doc = Ret doc' ->
  (forall k, k ∈ layer_keys doc' <-> k ∈ layer_keys doc \/ k = table_key (layer_name l)) /\
  (NoDup (layer_keys doc) -> NoDup (layer_keys doc')).
Proof.
  intros (added & v & Hlayers & Hadded & _)%export_layer_step.
  unfold layer_keys, list_current_layers. rewrite Hlayers, set_lineweight_names.
  destruct Hadded as [[-> Hin]|(Hout & created & -> & Hadd)].
  - rewrite app_nil_r. split; [|done]. intros k. split; [by left|].
    by intros [?| ->].
  - rewrite !map_app. simpl. rewrite (layers_add_name _ _ _ Hadd). split.
    + intros k. by rewrite elem_of_app, list_elem_of_singleton.
    + intros Hnd. apply NoDup_app. split; [done|].
      split; [|apply NoDup_singleton]. by intros x Hx ->%list_elem_of_singleton.
Qed.

Lemma export_step_other l doc doc' x :
  export_copy_layer l doc = Ret doc' ->
  layer_name x <> layer_name l -> x ∈ layers doc' <-> x ∈ layers doc.
Proof.
  intros (added & v & Hlayers & Hadded & _)%export_layer_step Hne.
  rewrite Hlayers, list_elem_of_fmap. split.
  - intros (y & -> & Hy).
    destruct (decide (layer_name y = layer_name l)) as [Heq|Hney]; [done|].
    apply elem_of_app in Hy as [Hy|Hy]; [done|].
    destruct Hadded as [[-> _]|(_ & created & -> & Hadd)];
      [by apply elem_of_nil in Hy|].
    apply list_elem_of_singleton in Hy as ->. by rewrite (layers_add_name _ _ _ Hadd) in Hney.
  - intros Hx. exists x. rewrite decide_False by done. split; [done|].
    apply elem_of_app. by left.
Qed.

Lemma export_step_weight l doc doc' x :
  (-3 <= layer_lineweight l <= 211)%Z ->
  export_copy_layer l doc = Ret doc' ->
  x ∈ layers doc' -> layer_name x = layer_name l ->
  layer_lineweight x = lineweight_setter (layer_lineweight l).
Proof.
  intros Hrange (added & v & Hlayers & _ & Hv & _)%export_layer_step Hx Hname.
  rewrite Hlayers in Hx. apply list_elem_of_fmap in Hx as (y & -> & Hy).
  destruct (decide (layer_name y = layer_name l)) as [Heq|Hne]; [|done].
  simpl. rewrite Hv; [done|done|]. rewrite <- Heq. by apply list_elem_of_fmap_2.
Qed.

Lemma export_step_color l doc doc' old :
  export_copy_layer l doc = Ret doc' -> old ∈ layers doc ->
  exists new, new ∈ layers doc' /\ layer_name new = layer_name old /\
              layer_color new = layer_color old.
Proof.
  intros (added & v & Hlayers & _)%export_layer_step Hold.
  eexists. split.
  - rewrite Hlayers. apply list_elem_of_fmap. exists old. split; [done|].
    apply elem_of_app. by left.
  - by destruct (decide (layer_name old = layer_name l)).
Qed.

Lemma export_copy_layers_cons l source doc doc' :
  export_copy_layers (l :: source) doc = Ret doc' ->
  exists doc1, export_copy_layer l doc = Ret doc1 /\ export_copy_layers source doc1 = Ret doc'.
Proof. intros (doc1 & ? & ?)%bind_Ret_inv. by exists doc1. Qed.

Lemma export_copy_layers_keys source doc doc' :
  export_copy_layers source doc = Ret doc' ->
  (forall k, k ∈ layer_keys doc' <->
             k ∈ layer_keys doc \/ k ∈ map table_key (map layer_name source)) /\
  (NoDup (layer_keys doc) -> NoDup (layer_keys doc')).
Proof.
  revert doc. induction source as [|l source IH]; intros doc.
  - intros [= <-]. split; [|done]. intros k. simpl. rewrite elem_of_nil. naive_solver.
  - intros (doc1 & Hstep & Hrest)%export_copy_layers_cons.
    destruct (export_step_keys _ _ _ Hstep) as [Hkeys1 Hnd1].
    destruct (IH _ Hrest) as [Hkeys Hnd]. split; [|by auto].
    intros k. rewrite Hkeys, Hkeys1. simpl. rewrite elem_of_cons. naive_solver.
Qed.

(** X18. The loop that copies the layers of a file into the combined
    document, when it returns: the keys of the document are then those it had
    and those of the layers of the file, unique if they were; a layer whose
    name is not a name of the file is in the document as it was, and every
    layer the document had is still there under its name and with its color.
    For a file with unique layer names and line weights of DXF, from -3 to
    211, a layer under the name of a layer of the file has the line weight of
    the file as the setter keeps it, the division by ten and the
    multiplication by ten undoing each other. *)
Theorem export_copy_layers_merges source doc doc' :
  export_copy_layers source doc = Ret doc' ->
  (forall k, k ∈ layer_keys doc' <->
             k ∈ layer_keys doc \/ k ∈ map table_key (map layer_name source)) /\
  (NoDup (layer_keys doc) -> NoDup (layer_keys doc')) /\
  (forall x, layer_name x ∉ map layer_name source ->
     x ∈ layers doc' <-> x ∈ layers doc) /\
  (forall old, old ∈ layers doc ->
     exists new, new ∈ layers doc' /\ layer_name new = layer_name old /\
                 layer_color new = layer_color old) /\
  (NoDup (map layer_name source) ->
   (forall l, l ∈ source -> (-3 <= layer_lineweight l <= 211)%Z) ->
   forall l l', l ∈ source -> l' ∈ layers doc' -> layer_name l' = layer_name l ->
     layer_lineweight l' = lineweight_setter (layer_lineweight l)).
Proof.
  intros Hrun. destruct (export_copy_layers_keys _ _ _ Hrun) as [Hkeys Hnd].
  split; [done|]. split; [done|]. clear Hkeys Hnd.
  revert doc Hrun. induction source as [|h source IH]; intros doc.
  - intros [= <-]. split; [done|]. split; [by eauto|]. by intros _ _ l l' ?%elem_of_nil.
  - intros (doc1 & Hstep & Hrest)%export_copy_layers_cons.
    destruct (IH _ Hrest) as (Hother & Hcolor & Hweight). split; [|split].
    + intros x [Hh Hx]%not_elem_of_cons.
      by rewrite (Hother x Hx), (export_step_other _ _ _ _ Hstep).
    + intros old Hold.
      destruct (export_step_color _ _ _ _ Hstep Hold) as (mid & Hmid & Hn1 & Hc1).
      destruct (Hcolor mid Hmid) as (new & Hnew & Hn2 & Hc2).
      exists new. split; [done|]. split; congruence.
    + intros [Hh Hsource]%NoDup_cons Hrange l l' [->|Hl]%elem_of_cons Hl' Hname.
      * apply Hother in Hl'; [|by rewrite Hname].
        eapply export_step_weight; [|exact Hstep|done..]. apply Hrange. by left.
      * apply (Hweight Hsource); [|done..]. intros l0 Hl0. apply Hrange. by right.
Qed.
End ExportLayers.

Lemma export_copy_layers_merges_witness :
  @export_copy_layers cooperative (layers logo_doc) wall_drawing
  = Ret (set_layers [Layer "0" 7 (-3); Layer "Walls" 3 25; Layer "LOGO" 1 50] wall_drawing) /\
  "logo" ∈ @layer_keys cooperative
             (set_layers [Layer "0" 7 (-3); Layer "Walls" 3 25; Layer "LOGO" 1 50]
                         wall_drawing).
Proof.
  split; [reflexivity|].
  apply (proj1 (@export_copy_layers_merges cooperative
                  (layers logo_doc) wall_drawing _ eq_refl)).
  right. right. left.
Defined.

(** X27. A layer of a file that the combined document lacks and that
    [doc.layers.add] refuses, as it does for the negative color of a layer
    that is switched off, makes the loop over the layers raise what
    [doc.layers.add] raised, when the layers before it in the file were in
    the document already: nothing catches it, and the export ends there. *)
Theorem export_copy_layers_refused `{Collaborators} before l after doc e :
  (forall x, x ∈ before ->
     table_key (layer_name x) ∈ layer_keys doc /\ (-3 <= layer_lineweight x <= 211)%Z) ->
  (-3 <= layer_lineweight l <= 211)%Z ->
  table_key (layer_name l) ∉ layer_keys doc ->
  layers_add (layer_name l) (layer_color l) = Raise e ->
  export_copy_layers (before ++ l :: after) doc = Raise e.
Proof.
  intros Hbefore Hrange Hout Hadd. revert doc Hbefore Hout.
  induction before as [|x before IH]; intros doc Hbefore Hout.
  - rewrite app_nil_l, export_copy_layers_step. unfold export_copy_layer.
    destruct (tenth_round_trip _ Hrange) as (q & -> & _). cbn [bind].
    by rewrite create_layer_absent, Hadd.
  - rewrite <- app_comm_cons, export_copy_layers_step. unfold export_copy_layer at 1.
    destruct (Hbefore x ltac:(by left)) as [Hx Hxrange].
    destruct (tenth_round_trip _ Hxrange) as (q & -> & Hint). cbn [bind].
    rewrite create_layer_present by done. cbn [bind].
    rewrite (change_lineweight_stores _ _ _ _ Hint). cbn [bind].
    apply IH.
    + intros y Hy. destruct (Hbefore y ltac:(by right)) as [Hykey Hyrange].
      split; [|done]. unfold layer_keys, list_current_layers in *. simpl.
      by rewrite set_lineweight_names.
    + unfold layer_keys, list_current_layers in *. simpl.
      by rewrite set_lineweight_names.
Qed.

Lemma export_copy_layers_refused_witness :
  @export_copy_layers cooperative (layers hidden_layer_drawing) (@new_document two_files)
  = Raise DXFValueError /\
  @export_single_file arabic_indic cooperative two_files ["a_1.dxf"; "a_0.dxf"]
  = Raise DXFValueError.
Proof.
  split; [|reflexivity].
  apply (@export_copy_layers_refused cooperative [Layer "0" 7 (-3)]
           (Layer "Hidden" (-3) 25) [] (@new_document two_files) DXFValueError).
  - intros x ->%list_elem_of_singleton. split; [|simpl; lia].
    eapply bool_decide_eq_true_1. reflexivity.
  - simpl. lia.
  - eapply bool_decide_eq_false_1. reflexivity.
  - reflexivity.
Defined.

Lemma export_copy_linetypes_layers `{Collaborators} `{ExportCollaborators} source doc :
  layers (export_copy_linetypes source doc) = layers doc.
Proof.
  unfold export_copy_linetypes.
  apply (foldl_invariant (fun d => layers d = layers doc)); [done|].
  intros d lt _ Hd. destruct (in_table _ _); [done|].
  by destruct (linetypes_add_pattern _ _ _).
Qed.

Lemma create_paperspaces_get (files : list string) i :
  i < length files ->
  dict_get (create_paperspaces files) (paperspace_name i) = Some [].
Proof.
  unfold create_paperspaces. intros Hi.
  assert (i ∈ seq 0 (length files)) as Hin by (apply elem_of_seq; lia).
  revert Hin. generalize (seq 0 (length files)) as l.
  generalize ([] : dict (list entity)) as d.
  assert (forall l (d : dict (list entity)) k,
            dict_get d k = Some [] ->
            dict_get (foldl (fun d i => dict_set d (paperspace_name i) []) d l) k
            = Some []) as Hkeep.
  { induction l as [|j l IH]; intros d k Hk; simpl; [done|].
    apply IH. rewrite dict_get_set. by destruct (decide (paperspace_name j = k)). }
  intros d l. revert d. induction l as [|j l IH]; intros d Hin; simpl.
  - by apply elem_of_nil in Hin.
  - apply elem_of_cons in Hin as [->|Hin]; [|by apply IH].
    apply Hkeep. rewrite dict_get_set. by rewrite decide_True.
Qed.

Lemma export_copy_layers_returns `{Collaborators} source doc :
  (forall l, l ∈ source ->
     (-3 <= layer_lineweight l <= 211)%Z /\
     exists created, layers_add (layer_name l) (layer_color l) = Ret created) ->
  exists doc', export_copy_layers source doc = Ret doc'.
Proof.
  revert doc. induction source as [|l source IH]; intros doc Hok; [by eexists|].
  rewrite export_copy_layers_step. unfold export_copy_layer.
  destruct (Hok l ltac:(by left)) as [Hrange [created Hadd]].
  destruct (tenth_round_trip _ Hrange) as (q & -> & Hint). cbn [bind].
  assert (exists doc1, create_layer doc (layer_name l) (layer_color l) = Ret doc1)
    as [doc1 ->].
  { destruct (decide (table_key (layer_name l) ∈ layer_keys doc)).
    - rewrite create_layer_present by done. by eexists.
    - rewrite create_layer_absent, Hadd by done. by eexists. }
  cbn [bind]. rewrite (change_lineweight_stores _ _ _ _ Hint). cbn [bind].
  apply IH. intros l' Hl'. apply Hok. by right.
Qed.

Section ExportLoop.
Context `{Unicode} `{Collaborators} `{ExportCollaborators}.

Lemma export_file_inv i f st st' :
  export_file (i, f) st = Ret st' ->
  exists src psp doc1,
    readfile f = Ret src /\
    dict_get (paperspace_dict st) (paperspace_name i) = Some psp /\
    export_copy_layers (layers src) (export_doc st) = Ret doc1 /\
    layers (export_doc st') = layers doc1 /\
    paperspace_dict st'
    = dict_set (paperspace_dict st) (paperspace_name i)
               (psp ++ omap copy_entity (modelspace src)).
Proof.
  unfold export_file. intros (src & Hread & Hbody)%bind_Ret_inv.
  destruct (dict_get (paperspace_dict st) (paperspace_name i)) as [psp|]; [|done].
  apply bind_Ret_inv in Hbody as (doc1 & Hlayers & [= <-]).
  exists src, psp, doc1. repeat (split; [done|]). simpl. split.
  - destruct (logo_copy_styles_frame (styles src)
                (export_copy_linetypes (linetypes src) doc1)) as [-> _].
    apply export_copy_linetypes_layers.
  - by rewrite logo_copy_entities_app.
Qed.

(** What the loop over the files does to the paper spaces, from any state in
    which the paper spaces of the files are there and empty. *)
Lemma export_loop files n st out :
  for_each export_file (enumerate n files) st = Ret out ->
  (forall i, i < length files ->
     dict_get (paperspace_dict st) (paperspace_name (n + i)) = Some []) ->
  (forall i f, files !! i = Some f ->
     exists src,
       readfile f = Ret src /\
       dict_get (paperspace_dict out) (paperspace_name (n + i))
       = Some (omap copy_entity (modelspace src))) /\
  (forall k, (forall i, i < length files -> k <> paperspace_name (n + i)) ->
     dict_get (paperspace_dict out) k = dict_get (paperspace_dict st) k).
Proof.
  revert n st. induction files as [|f files IH]; intros n st; simpl.
  - intros [= <-] _. split; [by intros i f' ?|done].
  - intros (st1 & Hbody & Hrun)%bind_Ret_inv Hsheets.
    apply export_file_inv in Hbody as (src & psp & doc1 & Hread & Hpsp & _ & _ & Hdict).
    pose proof (Hsheets 0 ltac:(lia)) as Hsheet. rewrite Nat.add_0_r in Hsheet.
    rewrite Hsheet in Hpsp. injection Hpsp as <-. simpl in Hdict.
    destruct (IH _ _ Hrun) as (Hfiles & Hframe); clear IH.
    { intros i Hi. rewrite Hdict, dict_get_set, decide_False.
      - replace (S n + i) with (n + S i) by lia. apply Hsheets. lia.
      - intros Heq%paperspace_name_inj. lia. }
    split.
    + intros [|i] f' Hf'; simpl in Hf'.
      * injection Hf' as <-. exists src. split; [done|].
        rewrite Nat.add_0_r, Hframe.
        -- rewrite Hdict, dict_get_set. by rewrite decide_True.
        -- intros i Hi Heq%paperspace_name_inj. lia.
      * replace (n + S i) with (S n + i) by lia. by apply Hfiles.
    + intros k Hk. rewrite Hframe.
      * rewrite Hdict, dict_get_set, decide_False; [done|].
        intros <-. apply (Hk 0); [lia|]. by rewrite Nat.add_0_r.
      * intros i Hi. replace (S n + i) with (n + S i) by lia. apply Hk. lia.
Qed.

(** The keys of the layers of the files end up in the combined document. *)
Lemma export_loop_keys files n st out :
  for_each export_file (enumerate n files) st = Ret out ->
  (forall f src l, f ∈ files -> readfile f = Ret src -> l ∈ layers src ->
     table_key (layer_name l) ∈ layer_keys (export_doc out)) /\
  (forall k, k ∈ layer_keys (export_doc st) -> k ∈ layer_keys (export_doc out)).
Proof.
  revert n st. induction files as [|f files IH]; intros n st; simpl.
  - intros [= <-]. split; [by intros f src l ?%elem_of_nil|done].
  - intros (st1 & Hbody & Hrun)%bind_Ret_inv.
    apply export_file_inv in Hbody as (src & psp & doc1 & Hread & _ & Hlayers & Hdoc & _).
    destruct (IH _ _ Hrun) as [Hfiles Hgrow]; clear IH.
    destruct (export_copy_layers_keys _ _ _ Hlayers) as [Hkeys _].
    assert (layer_keys (export_doc st1) = layer_keys doc1) as Hst1
      by (unfold layer_keys, list_current_layers; by rewrite Hdoc).
    split.
    + intros f' src' l [->|Hf']%elem_of_cons Hread' Hl; [|by eapply Hfiles].
      rewrite Hread in Hread'. injection Hread' as <-.
      apply Hgrow. rewrite Hst1. apply Hkeys. right.
      apply list_elem_of_fmap_2. by apply list_elem_of_fmap_2.
    + intros k Hk. apply Hgrow. rewrite Hst1. apply Hkeys. by left.
Qed.

(** X19. When [export_single_file] returns, every file of the export was
    read, and the paper space FL(i+1) holds the copies of the entities of the
    model space of the i-th file, counted from 0 in the order of
    [export_files], in their order and without those whose copy failed:
    nothing of another file is on that sheet. *)
Theorem export_single_file_sheets listing out :
  export_single_file listing = Ret out ->
  forall i f, export_files listing !! i = Some f ->
    exists src,
      readfile f = Ret src /\
      dict_get (paperspace_dict out) (paperspace_name i)
      = Some (omap copy_entity (modelspace src)).
Proof.
  unfold export_single_file. intros Hrun i f Hf.
  destruct (export_loop _ 0 _ _ Hrun) as (Hfiles & _).
  { intros j Hj. simpl. by apply create_paperspaces_get. }
  by apply Hfiles.
Qed.

(** X20. When [export_single_file] returns, the combined document has a
    layer for every layer of every file of the export, under its key.  So
    with a copy that keeps the layer of an entity, and files whose entities
    are on layers of their own layer table, every entity on every sheet is on
    a layer of the combined document. *)
Theorem export_single_file_layers listing out :
  export_single_file listing = Ret out ->
  (forall e c, copy_entity e = Some c -> dxf_layer c = dxf_layer e) ->
  (forall f src e, f ∈ export_files listing -> readfile f = Ret src ->
     e ∈ modelspace src -> dxf_layer e ∈ map layer_name (layers src)) ->
  forall i f, export_files listing !! i = Some f ->
    exists src sheet,
      readfile f = Ret src /\
      (forall l, l ∈ layers src ->
         table_key (layer_name l) ∈ layer_keys (export_doc out)) /\
      dict_get (paperspace_dict out) (paperspace_name i) = Some sheet /\
      forall c, c ∈ sheet -> table_key (dxf_layer c) ∈ layer_keys (export_doc out).
Proof.
  unfold export_single_file. intros Hrun Hcopy Hwf i f Hf.
  destruct (export_loop _ 0 _ _ Hrun) as (Hfiles & _).
  { intros j Hj. simpl. by apply create_paperspaces_get. }
  destruct (export_loop_keys _ 0 _ _ Hrun) as [Hkeys _].
  destruct (Hfiles i f Hf) as (src & Hread & Hsheet).
  assert (f ∈ export_files listing) as Hin by by eapply list_elem_of_lookup_2.
  exists src, (omap copy_entity (modelspace src)).
  split; [done|]. split; [intros l Hl; by apply (Hkeys f src l)|]. split; [done|].
  intros c (e & He & Hc)%list_elem_of_omap. rewrite (Hcopy e c Hc).
  assert (dxf_layer e ∈ map layer_name (layers src))
    as (l & -> & Hl)%list_elem_of_fmap by by eapply Hwf.
  by apply (Hkeys f src l).
Qed.

(** X21. A file of the export that cannot be read keeps
    [export_single_file] from returning a document.  What it raises is what
    reading that file raised, when the files before it in the order of
    [export_files] could be read and hold only layers that [doc.layers.add]
    accepts, with line weights of DXF: the export of the other files is lost
    with it. *)
Theorem export_single_file_unreadable listing i f e :
  export_files listing !! i = Some f ->
  readfile f = Raise e ->
  (forall out, export_single_file listing <> Ret out) /\
  ((forall j g, j < i -> export_files listing !! j = Some g ->
      exists src,
        readfile g = Ret src /\
        forall l, l ∈ layers src ->
          (-3 <= layer_lineweight l <= 211)%Z /\
          exists created, layers_add (layer_name l) (layer_color l) = Ret created) ->
   export_single_file listing = Raise e).
Proof.
  intros Hf Hread. split.
  - unfold export_single_file. intros out Hrun.
    destruct (export_loop _ 0 _ _ Hrun) as (Hfiles & _).
    { intros j Hj. simpl. by apply create_paperspaces_get. }
    destruct (Hfiles i f Hf) as (src & Hsrc & _). congruence.
  - unfold export_single_file. intros Hbefore.
    assert (forall files n st i,
              files !! i = Some f ->
              (forall j g, j < i -> files !! j = Some g ->
                 exists src,
                   readfile g = Ret src /\
                   forall l, l ∈ layers src ->
                     (-3 <= layer_lineweight l <= 211)%Z /\
                     exists created,
                       layers_add (layer_name l) (layer_color l) = Ret created) ->
              (forall j, j < length files ->
                 is_Some (dict_get (paperspace_dict st) (paperspace_name (n + j)))) ->
              for_each export_file (enumerate n files) st = Raise e) as Hloop.
    { clear -Hread. induction files as [|g files IH]; intros n st i Hi Hok Hsheets.
      - by rewrite lookup_nil in Hi.
      - simpl. destruct i as [|i]; simpl in Hi.
        + injection Hi as ->. by rewrite Hread.
        + destruct (Hok 0 g ltac:(lia) eq_refl) as (src & -> & Hlayers). cbn [bind].
          destruct (Hsheets 0 ltac:(simpl; lia)) as [psp Hpsp].
          rewrite Nat.add_0_r in Hpsp. rewrite Hpsp.
          destruct (export_copy_layers_returns (layers src) (export_doc st) Hlayers)
            as [doc1 ->]. cbn [bind].
          apply (IH _ _ i Hi).
          * intros j g' Hj Hg'. apply (Hok (S j) g'); [lia|done].
          * intros j Hj. cbn [paperspace_dict]. rewrite dict_get_set.
            destruct (decide (paperspace_name n = paperspace_name (S n + j)));
              [by eexists|].
            replace (S n + j) with (n + S j) by lia. apply Hsheets. simpl. lia. }
    apply (Hloop _ 0 _ i Hf Hbefore).
    intros j Hj. simpl. rewrite create_paperspaces_get by done. by eexists.
Qed.
End ExportLoop.

Lemma export_single_file_sheets_witness :
  exists out,
    @export_single_file arabic_indic cooperative two_files
       ["a_2.dxf"; "notes.txt"; "a_1.dxf"] = Ret out /\
    dict_get (paperspace_dict out) "FL1" = Some [wall_line] /\
    dict_get (paperspace_dict out) "FL2" = Some [logo_line].
Proof.
  eexists. split; [by vm_compute|].
  destruct (@export_single_file_sheets arabic_indic cooperative two_files
              ["a_2.dxf"; "notes.txt"; "a_1.dxf"] _ eq_refl 0 "a_1.dxf" eq_refl)
    as (src & Hsrc & Hsheet).
  injection Hsrc as <-. split; [exact Hsheet|reflexivity].
Defined.

Lemma export_single_file_layers_witness :
  exists out sheet,
    @export_single_file arabic_indic cooperative two_files ["a_2.dxf"; "a_1.dxf"]
    = Ret out /\
    dict_get (paperspace_dict out) "FL2" = Some sheet /\
    forall c, c ∈ sheet ->
      lower (dxf_layer c) ∈ @layer_keys cooperative (export_doc out).
Proof.
  destruct (@export_single_file_layers arabic_indic cooperative two_files
              ["a_2.dxf"; "a_1.dxf"] _ eq_refl) with (i := 1) (f := "a_2.dxf")
    as (src & sheet & _ & _ & Hsheet & Hlayers).
  - by intros e c [= <-].
  - intros f src e Hf Hsrc He.
    change (@export_files arabic_indic ["a_2.dxf"; "a_1.dxf"])
      with ["a_1.dxf"; "a_2.dxf"] in Hf.
    rewrite !elem_of_cons, elem_of_nil in Hf.
    destruct Hf as [->|[->|[]]]; injection Hsrc as <-;
      apply list_elem_of_singleton in He as ->; simpl;
      rewrite !elem_of_cons; naive_solver.
  - reflexivity.
  - eexists _, sheet. split; [reflexivity|]. split; [exact Hsheet|exact Hlayers].
Defined.

Lemma export_single_file_unreadable_witness :
  @export_single_file arabic_indic cooperative two_files ["a_1.dxf"; "b.dxf"]
  = Raise ValueError.
Proof.
  apply (@export_single_file_unreadable arabic_indic cooperative two_files
           ["a_1.dxf"; "b.dxf"] 1 "b.dxf").
  - reflexivity.
  - reflexivity.
  - intros [|j] g Hj Hg; [|lia]. injection Hg as <-. exists wall_drawing.
    split; [reflexivity|]. intros l Hl. simpl in Hl.
    rewrite !elem_of_cons, elem_of_nil in Hl.
    destruct Hl as [->|[->|[]]]; (split; [simpl; lia|by eexists]).
Defined.

(** ** The mapping table *)

Lemma change_layer_none_left msp layer dest_layer :
  layer <> dest_layer ->
  Forall (fun e => dxf_layer e <> layer) (change_layer msp layer dest_layer).
Proof.
  intros Hne. apply Forall_forall. intros e' (e & -> & _)%list_elem_of_fmap.
  destruct (decide (dxf_layer e = layer)); simpl; congruence.
Qed.

Lemma create_layer_frame `{Collaborators} doc name color doc' :
  create_layer doc name color = Ret doc' ->
  modelspace doc' = modelspace doc /\
  forall x, x ∈ list_current_layers doc -> x ∈ list_current_layers doc'.
Proof.
  intros [[_ ->]|(_ & created & _ & ->)]%create_layer_inv; [done|].
  split; [done|]. intros x Hx. unfold list_current_layers. simpl.
  rewrite map_app, elem_of_app. by left.
Qed.

(** X22. One row of the mapping table applied, when that returns: the row
    that counts for a layer is the first row of the table for it.  The layers
    are those the document had, followed by the layer that [doc.layers.add]
    made if the key of the destination was not in the table; among them the
    layers under the name of the destination, letter for letter, have as line
    weight what the setter keeps of the integer part of the float product of
    the weight of the row and 10, and the others are unchanged.  The entities
    that were on the source layer are on the destination, so that with a
    destination other than the source no entity is left on the source
    layer. *)
Theorem remap_layer_applies_first_row `{Collaborators} rows layer doc doc' :
  remap_layer rows layer doc = Ret doc' ->
  exists row rest added v,
    filter (fun r => row_currentLayer r = layer) rows = row :: rest /\
    layers doc'
    = map (fun l => if decide (layer_name l = row_newLayer row)
                    then Layer (layer_name l) (layer_color l) (lineweight_setter v)
                    else l)
          (layers doc ++ added) /\
    ((added = [] /\ table_key (row_newLayer row) ∈ layer_keys doc) \/
     (table_key (row_newLayer row) ∉ layer_keys doc /\
      exists created, added = [created] /\
        layers_add (row_newLayer row) (row_colorID row) = Ret created)) /\
    (row_newLayer row ∈ map layer_name (layers doc ++ added) ->
     py_int (float_mul (row_lineweight row) (float_of_int 10)) = Ret v) /\
    modelspace doc' = change_layer (modelspace doc) layer (row_newLayer row) /\
    (row_newLayer row <> layer ->
     Forall (fun e => dxf_layer e <> layer) (modelspace doc')).
Proof.
  unfold remap_layer.
  assert (filter (fun r => bool_decide (row_currentLayer r = layer)) rows
          = filter (fun r => row_currentLayer r = layer) rows) as ->.
  { apply list_filter_iff. intros r. apply bool_decide_spec. }
  destruct (filter _ rows) as [|row rest]; [done|].
  intros (doc1 & Hcreate & Hchange)%bind_Ret_inv.
  apply change_lineweight_inv in Hchange as (v & -> & Hv). simpl in Hv.
  destruct (create_layer_frame _ _ _ _ Hcreate) as [Hmsp _].
  assert (exists added,
            layers doc1 = layers doc ++ added /\
            ((added = [] /\ table_key (row_newLayer row) ∈ layer_keys doc) \/
             (table_key (row_newLayer row) ∉ layer_keys doc /\
              exists created, added = [created] /\
                layers_add (row_newLayer row) (row_colorID row) = Ret created)))
    as (added & Hlayers & Hadded).
  { apply create_layer_inv in Hcreate as [[Hin ->]|(Hout & created & Hadd & ->)].
    - exists []. rewrite app_nil_r. split; [done|]. by left.
    - exists [created]. split; [done|]. right. split; [done|]. by exists created. }
  exists row, rest, added, v. simpl. rewrite Hmsp, <- Hlayers.
  split; [done|]. split; [done|]. split; [done|]. split; [done|]. split; [done|].
  intros Hne. apply change_layer_none_left. congruence.
Qed.

Lemma remap_layer_applies_first_row_witness :
  exists doc',
    @remap_layer cooperative (layers_to_modify wall_table ["0"; "Walls"]) "Walls"
                 wall_drawing = Ret doc' /\
    layers doc' = [Layer "0" 7 (-3); Layer "Walls" 3 25; Layer "A-WALL" 3 5] /\
    Forall (fun e => dxf_layer e <> "Walls") (modelspace doc').
Proof.
  destruct (@remap_layer_applies_first_row cooperative
              (layers_to_modify wall_table ["0"; "Walls"]) "Walls" wall_drawing
              _ eq_refl)
    as (row & rest & added & v & Hrow & _ & _ & _ & _ & Hmoved).
  injection Hrow as <- <-.
  eexists. split; [reflexivity|]. split; [reflexivity|].
  apply Hmoved. discriminate.
Defined.

Lemma remap_layer_outcome `{Collaborators} table n d :
  (exists r, r ∈ table /\ row_currentLayer r = n) ->
  match remap_layer table n d with
  | Ret d1 =>
      (forall x, x ∈ list_current_layers d -> x ∈ list_current_layers d1) /\
      exists dest, modelspace d1 = change_layer (modelspace d) n dest
  | Raise e =>
      exists r, r ∈ table /\
        (layers_add (row_newLayer r) (row_colorID r) = Raise e \/
         py_int (float_mul (row_lineweight r) (float_of_int 10)) = Raise e)
  | Diverge =>
      exists r, r ∈ table /\ layers_add (row_newLayer r) (row_colorID r) = Diverge
  end.
Proof.
  intros (r & Hr & Hn). unfold remap_layer.
  destruct (filter (fun r0 => bool_decide (row_currentLayer r0 = n)) table)
    as [|row rest] eqn:Hfilter.
  { assert (r ∈ filter (fun r0 => bool_decide (row_currentLayer r0 = n)) table)
      as Hin by (apply list_elem_of_filter; split; [by apply bool_decide_spec|done]).
    rewrite Hfilter in Hin. by apply elem_of_nil in Hin. }
  assert (row ∈ table) as Hrow.
  { assert (row ∈ filter (fun r0 => bool_decide (row_currentLayer r0 = n)) table)
      as Hin by (rewrite Hfilter; by left).
    by apply list_elem_of_filter in Hin as [_ ?]. }
  destruct (create_layer d (row_newLayer row) (row_colorID row)) as [d1|e|] eqn:Hcreate.
  - cbn [bind]. destruct (create_layer_frame _ _ _ _ Hcreate) as [Hmsp Hnames].
    set (d2 := set_modelspace (change_layer (modelspace d1) n (row_newLayer row)) d1).
    destruct (change_lineweight d2 (row_newLayer row) (row_lineweight row))
      as [d3|e|] eqn:Hchange.
    + apply change_lineweight_inv in Hchange as (v & -> & _). split.
      * intros x Hx. unfold list_current_layers. simpl.
        rewrite set_lineweight_names. by apply Hnames.
      * exists (row_newLayer row). simpl. by rewrite Hmsp.
    + exists row. split; [done|]. right.
      destruct (py_int_returns_or_raises
                  (float_mul (row_lineweight row) (float_of_int 10)))
        as [[v Hint]|[e' Hint]].
      * by rewrite (change_lineweight_stores _ _ _ _ Hint) in Hchange.
      * destruct (decide (row_newLayer row ∈ list_current_layers d2)) as [Hin|Hout].
        -- rewrite (change_lineweight_raises _ _ _ _ Hin Hint) in Hchange. congruence.
        -- by rewrite change_lineweight_other_name in Hchange.
    + exfalso.
      destruct (py_int_returns_or_raises
                  (float_mul (row_lineweight row) (float_of_int 10)))
        as [[v Hint]|[e' Hint]].
      * by rewrite (change_lineweight_stores _ _ _ _ Hint) in Hchange.
      * destruct (decide (row_newLayer row ∈ list_current_layers d2)) as [Hin|Hout].
        -- by rewrite (change_lineweight_raises _ _ _ _ Hin Hint) in Hchange.
        -- by rewrite change_lineweight_other_name in Hchange.
  - cbn [bind]. exists row. split; [done|]. left.
    unfold create_layer in Hcreate. destruct (in_table _ _); [done|].
    destruct (layers_add (row_newLayer row) (row_colorID row));
      simpl in Hcreate; congruence.
  - cbn [bind]. exists row. split; [done|].
    unfold create_layer in Hcreate. destruct (in_table _ _); [done|].
    destruct (layers_add (row_newLayer row) (row_colorID row));
      simpl in Hcreate; congruence.
Qed.

(** X23. The loop of [adjust_layer] over the rows of the mapping table never
    fails for want of a row: for every layer it goes through there is a row
    to read, so [.values[0]] raises nothing.  What the loop raises is raised
    by [doc.layers.add] or by [int] for one of the rows, and it returns when
    [doc.layers.add] accepts the destination and the color of every row and
    ten times every weight is a number.  When it returns it has removed no
    layer, and it has kept the entities of the model space in their number and
    order, changing nothing of them but the layer. *)
Theorem remap_loop_returns `{Collaborators} (df : list remap_row) doc :
  let rows := layers_to_modify df (list_current_layers doc) in
  match for_each (remap_layer rows) (map row_currentLayer rows) doc with
  | Ret doc' =>
      (forall n, n ∈ list_current_layers doc -> n ∈ list_current_layers doc') /\
      Forall2 (fun e e' => e' = set_layer (dxf_layer e') e)
              (modelspace doc) (modelspace doc')
  | Raise e =>
      exists r, r ∈ rows /\
        (layers_add (row_newLayer r) (row_colorID r) = Raise e \/
         py_int (float_mul (row_lineweight r) (float_of_int 10)) = Raise e)
  | Diverge =>
      exists r, r ∈ rows /\ layers_add (row_newLayer r) (row_colorID r) = Diverge
  end /\
  ((forall r, r ∈ rows ->
      (exists created, layers_add (row_newLayer r) (row_colorID r) = Ret created) /\
      (exists v, py_int (float_mul (row_lineweight r) (float_of_int 10)) = Ret v)) ->
   exists doc', for_each (remap_layer rows) (map row_currentLayer rows) doc = Ret doc').
Proof.
  intros rows. set (table := rows).
  assert (forall names d,
            (forall n, n ∈ names -> exists r, r ∈ table /\ row_currentLayer r = n) ->
            match for_each (remap_layer table) names d with
            | Ret d' =>
                (forall n, n ∈ list_current_layers d -> n ∈ list_current_layers d') /\
                Forall2 (fun e e' => e' = set_layer (dxf_layer e') e)
                        (modelspace d) (modelspace d')
            | Raise e =>
                exists r, r ∈ table /\
                  (layers_add (row_newLayer r) (row_colorID r) = Raise e \/
                   py_int (float_mul (row_lineweight r) (float_of_int 10)) = Raise e)
            | Diverge =>
                exists r, r ∈ table /\
                  layers_add (row_newLayer r) (row_colorID r) = Diverge
            end) as Hloop.
  { induction names as [|n names IH]; intros d Hrows; simpl.
    - split; [done|].
      apply Forall2_same_length_lookup. split; [done|].
      intros i e e' He He'. rewrite He in He'. injection He' as <-.
      by rewrite set_layer_same.
    - pose proof (remap_layer_outcome table n d (Hrows n ltac:(by left))) as Hstep.
      destruct (remap_layer table n d) as [d1|e|]; cbn [bind]; [|done..].
      destruct Hstep as [Hnames1 [dest Hmsp1]].
      specialize (IH d1 (fun n' Hn' => Hrows n' ltac:(by right))).
      destruct (for_each (remap_layer table) names d1) as [d'|e|]; [|done..].
      destruct IH as [Hnames Hmsp]. split; [by auto|].
      rewrite Hmsp1 in Hmsp. unfold change_layer in Hmsp.
      apply Forall2_fmap_l in Hmsp. eapply Forall2_impl; [exact Hmsp|].
      intros e e' ->. simpl.
      by destruct (decide (dxf_layer e = n)), e. }
  assert (forall n, n ∈ map row_currentLayer table ->
            exists r, r ∈ table /\ row_currentLayer r = n) as Hrows.
  { intros n (r & -> & Hr)%list_elem_of_fmap. by exists r. }
  split; [by apply Hloop|].
  intros Hok. specialize (Hloop (map row_currentLayer table) doc Hrows).
  destruct (for_each (remap_layer table) (map row_currentLayer table) doc)
    as [doc'|e|]; [by eexists|exfalso..].
  - destruct Hloop as (r & Hr & Hfail).
    destruct (Hok r Hr) as [[created Hadd] [v Hint]].
    destruct Hfail; congruence.
  - destruct Hloop as (r & Hr & Hfail).
    destruct (Hok r Hr) as [[created Hadd] _]. congruence.
Qed.

Lemma remap_loop_returns_witness :
  exists doc',
    for_each (@remap_layer cooperative (layers_to_modify wall_table ["0"; "Walls"]))
             ["Walls"] wall_drawing = Ret doc' /\
    modelspace doc' = [set_layer "A-WALL" wall_line].
Proof.
  destruct (proj2 (@remap_loop_returns cooperative wall_table wall_drawing))
    as [doc' Hrun].
  - intros r Hr. simpl in Hr. apply list_elem_of_singleton in Hr as ->.
    split; by eexists.
  - exists doc'. split; [exact Hrun|].
    vm_compute in Hrun. by injection Hrun as <-.
Defined.

(** ** The number in a file name *)

Lemma string_app_cons (c : ascii) (s1 s2 : string) :
  String c s1 +:+ s2 = String c (s1 +:+ s2).
Proof. reflexivity. Qed.

Lemma string_app_assoc (s1 s2 s3 : string) : (s1 +:+ s2) +:+ s3 = s1 +:+ (s2 +:+ s3).
Proof.
  induction s1 as [|c s1 IH]; [done|]. rewrite !string_app_cons. by f_equal.
Qed.

Lemma string_app_length (s1 s2 : string) :
  String.length (s1 +:+ s2) = String.length s1 + String.length s2.
Proof.
  induction s1 as [|c s1 IH]; [done|]. rewrite string_app_cons. simpl. by f_equal.
Qed.

Lemma string_app_list (s1 s2 : string) :
  String.list_ascii_of_string (s1 +:+ s2)
  = String.list_ascii_of_string s1 ++ String.list_ascii_of_string s2.
Proof.
  induction s1 as [|c s1 IH]; [done|]. rewrite string_app_cons. simpl. by f_equal.
Qed.

Lemma substring_app (s1 s2 : string) :
  String.substring 0 (String.length s1) (s1 +:+ s2) = s1.
Proof.
  induction s1 as [|c s1 IH]; [by destruct s2|].
  rewrite string_app_cons. simpl. by f_equal.
Qed.

Lemma rev_app_app (s1 s2 acc : string) :
  String.rev_app (s1 +:+ s2) acc = String.rev_app s2 (String.rev_app s1 acc).
Proof.
  revert acc. induction s1 as [|c s1 IH]; intros acc; [done|].
  rewrite string_app_cons. simpl. apply IH.
Qed.

Lemma take_while_app {A : Type} (p : A -> bool) (l r : list A) (x : A) :
  Forall (fun y => p y = true) l -> p x = false ->
  take_while p (l ++ x :: r) = l.
Proof.
  intros Hl Hx. induction Hl as [|y l Hy _ IH]; simpl; [by rewrite Hx|].
  by rewrite Hy, IH.
Qed.

(** The characters of bytes none of which continues a character are the bytes,
    one by one. *)
Lemma chars_fold_single (l : list ascii) (acc : list (list ascii)) :
  Forall (fun c => is_continuation c = false) l ->
  foldr chars_step ([], acc) l = ([], map (fun c => [c]) l ++ acc).
Proof.
  induction 1 as [|c l Hc _ IH]; [done|].
  simpl. rewrite IH. unfold chars_step. by rewrite Hc.
Qed.

Lemma chars_fold_acc (l : list ascii) (acc : list (list ascii)) :
  foldr chars_step ([], acc) l
  = ((foldr chars_step ([], []) l).1, (foldr chars_step ([], []) l).2 ++ acc).
Proof.
  induction l as [|c l IH]; [done|].
  simpl. rewrite IH. unfold chars_step. simpl.
  by destruct (is_continuation c).
Qed.

Lemma chars_app_single (s : string) (l : list ascii) :
  Forall (fun c => is_continuation c = false) l ->
  (foldr chars_step ([], []) (String.list_ascii_of_string s ++ l)).2
  = chars s ++ map (fun c => [c]) l.
Proof.
  intros Hl. rewrite foldr_app, (chars_fold_single l []), app_nil_r by done.
  by rewrite chars_fold_acc.
Qed.

Lemma int_of_digits_snoc `{Unicode} (l : list (list ascii)) (ch : list ascii) :
  int_of_digits (l ++ [ch]) = (10 * int_of_digits l + default 0 (decimal ch))%N.
Proof. unfold int_of_digits. by rewrite foldl_app. Qed.

Lemma pretty_N_char_digit `{Unicode} (m : N) :
  (m < 10)%N ->
  decimal [pretty_N_char m] = Some m /\
  is_continuation (pretty_N_char m) = false.
Proof.
  intros Hm.
  assert (m = 0 \/ m = 1 \/ m = 2 \/ m = 3 \/ m = 4 \/ m = 5 \/ m = 6 \/ m = 7
          \/ m = 8 \/ m = 9)%N as Hcases by lia.
  repeat (destruct Hcases as [->|Hcases]; [by vm_compute|]). by subst.
Qed.

(** The digits [pretty_N_go] puts before its accumulator. *)
Lemma pretty_N_go_digits `{Unicode} (x : N) (s : string) :
  exists ds,
    String.list_ascii_of_string (pretty_N_go x s)
    = ds ++ String.list_ascii_of_string s /\
    Forall (fun c => is_digit [c] = true /\ is_continuation c = false) ds /\
    int_of_digits (map (fun c => [c]) ds) = x /\
    ((0 < x)%N -> ds <> []).
Proof.
  revert s. induction (N.lt_wf_0 x) as [x _ IH]; intros s.
  destruct (decide (0 < x)%N) as [Hx|Hx].
  - rewrite pretty_N_go_step by done.
    destruct (IH (x `div` 10)%N ltac:(by apply N.div_lt)
                 (String (pretty_N_char (x `mod` 10)) s))
      as (ds & Hds & Hall & Hval & _).
    destruct (pretty_N_char_digit (x `mod` 10)%N) as [Hdigit Hchar];
      [by apply N.mod_lt|].
    exists (ds ++ [pretty_N_char (x `mod` 10)]). split; [|split; [|split]].
    + rewrite Hds. cbn. by rewrite <- app_assoc.
    + apply Forall_app. split; [done|]. constructor; [|done].
      split; [|done]. unfold is_digit. by rewrite Hdigit.
    + rewrite map_app. simpl map at 2. rewrite int_of_digits_snoc, Hval, Hdigit.
      simpl default. rewrite (N.div_mod x 10) at 3 by done. done.
    + intros _. by destruct ds.
  - assert (x = 0%N) as -> by lia. exists []. rewrite pretty_N_go_0.
    split; [done|]. split; [done|]. split; [done|]. lia.
Qed.

Lemma pretty_N_digits `{Unicode} (n : N) :
  Forall (fun c => is_digit [c] = true /\ is_continuation c = false)
         (String.list_ascii_of_string (pretty n)) /\
  int_of_digits (map (fun c => [c]) (String.list_ascii_of_string (pretty n))) = n /\
  String.list_ascii_of_string (pretty n) <> [].
Proof.
  unfold pretty, pretty_N. destruct (decide (n = 0%N)) as [->|Hn].
  - split; [by repeat constructor|]. by split.
  - destruct (pretty_N_go_digits n "") as (ds & Hds & Hall & Hval & Hne).
    change (String.list_ascii_of_string "") with (@nil ascii) in Hds.
    rewrite app_nil_r in Hds. rewrite Hds.
    split; [done|]. split; [done|]. apply Hne. lia.
Qed.

(** X24. The number of a file named with a stem, an underscore, a number
    in decimal and ".dxf" is that number, whatever the stem is: the sort key
    of a_12.dxf is 12 and that of plan_3_7.dxf is 7. *)
Theorem suffix_number_reads_number `{Unicode} (stem : string) (n : N) :
  suffix_number (stem +:+ "_" +:+ pretty n +:+ ".dxf") = Some n.
Proof.
  destruct (pretty_N_digits n) as (Hall & Hval & Hne).
  set (d := pretty n) in *.
  set (body := stem +:+ "_" +:+ d).
  assert (stem +:+ "_" +:+ d +:+ ".dxf" = body +:+ ".dxf") as ->.
  { unfold body. by rewrite !string_app_assoc. }
  assert (String.rev (body +:+ ".dxf")
          = String "f" (String "x" (String "d" (String "." (String.rev body)))))
    as Hrev by (unfold String.rev; by rewrite rev_app_app).
  unfold suffix_number, endswith. rewrite Hrev.
  change (String.prefix (String.rev (String (ascii_of_nat 10) ""))
            (String "f" (String "x" (String "d" (String "." (String.rev body))))))
    with false.
  cbv iota. rewrite Hrev.
  change (String.prefix (String.rev ".dxf")
            (String "f" (String "x" (String "d" (String "." (String.rev body))))))
    with (String.prefix "" (String.rev body)).
  assert (forall s, String.prefix "" s = true) as -> by by intros [|? ?].
  rewrite string_app_length. change (String.length ".dxf") with 4.
  rewrite Nat.add_sub, substring_app.
  unfold body.
  set (ds := map (fun c => [c]) (String.list_ascii_of_string d)) in *.
  assert (chars (stem +:+ "_" +:+ d) = chars stem ++ ["_"%char] :: ds) as ->.
  { unfold chars at 1. rewrite string_app_list, chars_app_single.
    - by rewrite string_app_list, map_app.
    - rewrite string_app_list. apply Forall_app. split; [by repeat constructor|].
      eapply Forall_impl; [exact Hall|]. by intros c [_ ?]. }
  rewrite !reverse_app, !reverse_cons, <- !app_assoc.
  change ([["_"%char]] ++ reverse (chars stem))
    with (["_"%char] :: reverse (chars stem)).
  assert (Forall (fun ch => is_digit ch = true) (reverse ds)) as Hdigits.
  { apply Forall_reverse. unfold ds. apply Forall_fmap.
    eapply Forall_impl; [exact Hall|]. by intros c [? _]. }
  rewrite take_while_app by done.
  destruct (reverse ds) as [|c rest] eqn:Hds.
  - exfalso. apply Hne. apply (f_equal reverse) in Hds.
    rewrite reverse_involutive in Hds. unfold ds in Hds.
    by destruct (String.list_ascii_of_string d).
  - change (S (length rest)) with (length (c :: rest)). rewrite drop_app_length.
    rewrite decide_True by done.
    by rewrite <- Hds, reverse_involutive, Hval.
Qed.
